(** * Navigare core: a shallow embedding of the router and its utilities

    The development follows [packages/core/src/utilities.ts] and the
    [Router] class.  JavaScript objects are association lists in property
    order, arrays are lists, [undefined]/[null] are explicit constructors,
    shared mutable objects live in stores indexed by references. *)

From Stdlib Require Import ZArith Lia Bool Ascii String List.
From stdpp Require Import gmap strings list.
From stdpp Require Import pretty.
Import ListNotations.

Set Warnings "-register-all".

(** ** JavaScript objects as ordered property lists *)

Module Js.

(** An object with properties of type [V]: own enumerable properties in
    property order.  [Object.entries] is the list itself.  The list is in
    the order the properties were added, which is the property order of
    JavaScript when no key is integer-like (integer-like keys are listed
    first, in numeric order); statements about the order of keys assume
    such keys. *)
Abbreviation object V := (list (string * V)).

Definition keys {V} (o : object V) : list string := map fst o.

Definition values {V} (o : object V) : list V := map snd o.

(** [o[k]]: [None] is [undefined]. *)
Fixpoint get {V} (k : string) (o : object V) : option V :=
  match o with
  | [] => None
  | (k', v) :: rest => if String.eqb k k' then Some v else get k rest
  end.

(** [o[k] = v]: overwrite in place, or append a new property. *)
Fixpoint set {V} (k : string) (v : V) (o : object V) : object V :=
  match o with
  | [] => [(k, v)]
  | (k', v') :: rest =>
      if String.eqb k k' then (k', v) :: rest else (k', v') :: set k v rest
  end.

(** [{...a, ...b}] *)
Definition spread {V} (a b : object V) : object V :=
  fold_left (fun acc e => set (fst e) (snd e) acc) b a.

(** [Object.fromEntries(entries)]: later entries win on equal keys. *)
Definition fromEntries {V} (entries : list (string * V)) : object V :=
  spread [] entries.

(** [key in o] for own properties *)
Definition has {V} (k : string) (o : object V) : bool :=
  match get k o with Some _ => true | None => false end.

(** [array.includes(x)] for strings *)
Definition includes (x : string) (l : list string) : bool :=
  existsb (String.eqb x) l.

(** lodash [uniq]: first occurrences, in order. *)
Fixpoint uniqFrom (seen l : list string) : list string :=
  match l with
  | [] => []
  | x :: rest =>
      if includes x seen then uniqFrom seen rest
      else x :: uniqFrom (x :: seen) rest
  end.

Definition uniq (l : list string) : list string := uniqFrom [] l.

(** [s.startsWith(p)] *)
Definition startsWith (p s : string) : bool := String.prefix p s.

(** An array with holes: [None] is an empty slot, read as [undefined]. *)
Abbreviation array A := (list (option A)).

(** [a[i]] *)
Definition at_ {A} (i : Z) (a : array A) : option A :=
  if (i <? 0)%Z then None else mjoin (a !! Z.to_nat i).

(** [a.length = n] *)
Definition setLength {A} (n : nat) (a : array A) : array A :=
  take n a ++ replicate (n - length a) None.

(** [a[i] = x]: the array grows when [i] is past its end. *)
Definition assign {A} (i : nat) (x : A) (a : array A) : array A :=
  if i <? length a then <[i := Some x]> a
  else a ++ replicate (i - length a) None ++ [Some x].

End Js.

(** ** Strings *)

Module Str.

(** [s.includes(c)] for a one-character needle *)
Fixpoint includesChar (c : ascii) (s : string) : bool :=
  match s with
  | EmptyString => false
  | String c' rest => Ascii.eqb c c' || includesChar c rest
  end.

(** [s.split(sep)] for a one-character separator: never empty. *)
Fixpoint splitOn (sep : ascii) (s : string) : list string :=
  match s with
  | EmptyString => [EmptyString]
  | String c rest =>
      if Ascii.eqb c sep then EmptyString :: splitOn sep rest
      else match splitOn sep rest with
           | [] => [String c EmptyString]
           | part :: parts => String c part :: parts
           end
  end.

(** The text before the first [c], and the text after it when [c] occurs. *)
Fixpoint cut (c : ascii) (s : string) : string * option string :=
  match s with
  | EmptyString => (EmptyString, None)
  | String c' rest =>
      if Ascii.eqb c c' then (EmptyString, Some rest)
      else let '(before, after) := cut c rest in (String c' before, after)
  end.

(** [s.substring(n)] *)
Fixpoint drop (n : nat) (s : string) : string :=
  match n, s with
  | O, _ => s
  | S n', EmptyString => EmptyString
  | S n', String _ rest => drop n' rest
  end.

(** The text up to and including the last [c]; empty when [c] is absent. *)
Fixpoint uptoLast (c : ascii) (s : string) : string :=
  match s with
  | EmptyString => EmptyString
  | String c' rest =>
      if includesChar c rest then String c' (uptoLast c rest)
      else if Ascii.eqb c c' then String c' EmptyString
      else EmptyString
  end.

Definition isEmpty (s : string) : bool :=
  match s with EmptyString => true | _ => false end.

End Str.

(** ** The host [URL] class

    The part of the URL parser the router relies on: absolute [http(s)]
    references and references relative to a base, cut at the first [#] and
    [?].  Dot segments, percent-encoding, other schemes and the hrefs the
    parser rejects are outside this model: on paths and queries of plain
    characters the parser neither changes nor rejects anything, and the
    statements about the text of a URL, or about a call that returns
    after parsing one, are made for those. *)

Module Url.

Record URL : Type := mkURL {
  protocol : string;          (* with the trailing colon *)
  host : string;
  pathname : string;
  query : option string;      (* [None]: no [?] at all *)
  fragment : option string    (* [None]: no [#] at all *)
}.

Definition search (u : URL) : string :=
  match query u with
  | Some q => if Str.isEmpty q then "" else "?" +:+ q
  | None => ""
  end.

Definition hash (u : URL) : string :=
  match fragment u with
  | Some f => if Str.isEmpty f then "" else "#" +:+ f
  | None => ""
  end.

Definition href (u : URL) : string :=
  protocol u +:+ "//" +:+ host u +:+ pathname u
    +:+ match query u with Some q => "?" +:+ q | None => "" end
    +:+ match fragment u with Some f => "#" +:+ f | None => "" end.

Definition origin (u : URL) : string := protocol u +:+ "//" +:+ host u.

Definition hostname (u : URL) : string := fst (Str.cut ":" (host u)).

Definition port (u : URL) : string := default "" (snd (Str.cut ":" (host u))).

(** [/^https?:\/\//.test(href)] *)
Definition hasHost (href : string) : bool :=
  Js.startsWith "http://" href || Js.startsWith "https://" href.

(** [url.search = value] *)
Definition setSearch (value : string) (u : URL) : URL :=
  mkURL (protocol u) (host u) (pathname u)
    (if Str.isEmpty value then None
     else Some (if Js.startsWith "?" value then Str.drop 1 value else value))
    (fragment u).

(** [url.hash = value] *)
Definition setHash (value : string) (u : URL) : URL :=
  mkURL (protocol u) (host u) (pathname u) (query u)
    (if Str.isEmpty value then None
     else Some (if Js.startsWith "#" value then Str.drop 1 value else value)).

(** [new URL(href, base)] *)
Definition parse (href : string) (base : URL) : URL :=
  let '(beforeHash, frag) := Str.cut "#" href in
  let '(beforeQuery, qry) := Str.cut "?" beforeHash in
  if hasHost beforeQuery then
    let '(scheme, rest) := Str.cut ":" beforeQuery in
    let authorityAndPath := Str.drop 2 (default "" rest) in
    let '(authority, path) := Str.cut "/" authorityAndPath in
    mkURL (scheme +:+ ":") authority
      (match path with Some p => "/" +:+ p | None => "/" end) qry frag
  else if Str.isEmpty beforeQuery then
    mkURL (protocol base) (host base) (pathname base)
      (match qry with Some q => Some q | None => query base end) frag
  else if Js.startsWith "/" beforeQuery then
    mkURL (protocol base) (host base) beforeQuery qry frag
  else
    mkURL (protocol base) (host base)
      (Str.uptoLast "/" (pathname base) +:+ beforeQuery) qry frag.

(** [new URL('http://localhost')] *)
Definition localhost : URL := mkURL "http:" "localhost" "/" None None.

End Url.

(** ** JavaScript values *)

Record File : Type := mkFile { file_name : string; file_content : string }.

(** The values that page properties and visit data hold: JSON data, and
    the host objects the code tests for ([Blob], [File], [FileList],
    [Date]) and functions, which lodash's [isObject] accepts. *)
Inductive Value : Type :=
| VUndefined
| VNull
| VBool (b : bool)
| VNumber (n : Z)
| VString (s : string)
| VArray (items : list Value)
| VObject (fields : list (string * Value))
| VBlob (content : string)
| VFile (file : File)
| VFileList (files : list File)
| VDate (iso : string)
| VFunction.

(** [Properties] and [Record<string, FormDataConvertible>] *)
Abbreviation Properties := (list (string * Value)).

(** JavaScript truthiness *)
Definition truthy (v : Value) : bool :=
  match v with
  | VUndefined | VNull => false
  | VBool b => b
  | VNumber n => negb (n =? 0)%Z
  | VString s => negb (Str.isEmpty s)
  | _ => true
  end.

(** lodash's [cloneDeep(value)]: a value that has no clone (a function,
    a [Blob], a [File], a [FileList]) is replaced by an empty object when
    it is the value cloned, and kept as it is inside an array or an
    object; the clone of anything else is equal to it. *)
Definition cloneDeep (value : Value) : Value :=
  match value with
  | VFunction | VBlob _ | VFile _ | VFileList _ => VObject []
  | _ => value
  end.

Inductive QueryStringArrayFormat : Type := Indices | Brackets.

(** ** The [qs] and [lodash.mergewith] packages

    [parse] covers flat [key=value] pairs (a repeated key collects its
    values in an array) without percent-decoding, the limit of 1000
    parameters and the keys it drops; [stringify] follows the options the
    router passes: [encodeValuesOnly] and the array format, with whole
    numbers written in full.  On plain keys and values the packages
    neither decode nor encode nor drop anything, and the statements about
    the text of a query are made for those. *)

Module Qs.

Definition combine (a b : Value) : Value :=
  match a with
  | VArray items => VArray (items ++ [b])
  | _ => VArray [a; b]
  end.

Definition parsePart (obj : Js.object Value) (part : string)
  : Js.object Value :=
  let '(key, val) := Str.cut "=" part in
  let value := VString (default "" val) in
  if Str.isEmpty key then obj
  else match Js.get key obj with
       | Some old => Js.set key (combine old value) obj
       | None => Js.set key value obj
       end.

(** [parse(search, { ignoreQueryPrefix: true })] *)
Definition parse (search : string) : Js.object Value :=
  let clean := if Js.startsWith "?" search then Str.drop 1 search else search in
  if Str.isEmpty clean then []
  else fold_left parsePart (Str.splitOn "&" clean) [].

Definition isUnreserved (c : ascii) : bool :=
  let n := nat_of_ascii c in
  ((48 <=? n) && (n <=? 57)) || ((65 <=? n) && (n <=? 90))
  || ((97 <=? n) && (n <=? 122))
  || (n =? 45) || (n =? 46) || (n =? 95) || (n =? 126).

Definition hexDigit (n : nat) : ascii :=
  if n <? 10 then ascii_of_nat (48 + n) else ascii_of_nat (55 + n).

Fixpoint encode (s : string) : string :=
  match s with
  | EmptyString => EmptyString
  | String c rest =>
      if isUnreserved c then String c (encode rest)
      else let n := nat_of_ascii c in
           String "%" (String (hexDigit (n / 16))
             (String (hexDigit (n mod 16)) (encode rest)))
  end.

Definition arrayPrefix (format : QueryStringArrayFormat) (prefix : string)
  (index : nat) : string :=
  match format with
  | Indices => prefix +:+ "[" +:+ pretty index +:+ "]"
  | Brackets => prefix +:+ "[]"
  end.

(** The [key=value] pairs one value contributes under [prefix]. *)
Fixpoint stringifyValue (format : QueryStringArrayFormat) (prefix : string)
  (value : Value) : list string :=
  match value with
  | VUndefined => []
  | VNull => [prefix +:+ "="]
  | VString s => [prefix +:+ "=" +:+ encode s]
  | VNumber n => [prefix +:+ "=" +:+ encode (pretty n)]
  | VBool b => [prefix +:+ "=" +:+ (if b then "true" else "false")]
  | VDate iso => [prefix +:+ "=" +:+ encode iso]
  | VBlob _ | VFile _ | VFileList _ | VFunction => []
  | VArray items =>
      (fix each (index : nat) (vs : list Value) : list string :=
         match vs with
         | [] => []
         | v :: rest =>
             stringifyValue format (arrayPrefix format prefix index) v
               ++ each (S index) rest
         end) 0 items
  | VObject fields =>
      (fix each (es : list (string * Value)) : list string :=
         match es with
         | [] => []
         | (k, v) :: rest =>
             stringifyValue format (prefix +:+ "[" +:+ k +:+ "]") v ++ each rest
         end) fields
  end.

(** [stringify(obj, { encodeValuesOnly: true, arrayFormat })] *)
Definition stringify (format : QueryStringArrayFormat)
  (obj : Js.object Value) : string :=
  String.concat "&"
    (flat_map (fun e => stringifyValue format (fst e) (snd e)) obj).

(** [mergeWith(object, source)] without a customizer: plain objects and
    arrays merge recursively, an [undefined] source never overwrites, any
    other source value replaces the destination's. *)
Fixpoint mergeValue (dst : option Value)
  (src : Value) : Value :=
  match src with
  | VObject fields =>
      let start := match dst with Some (VObject old) => old | _ => [] end in
      VObject
        ((fix each (acc : list (string * Value))
               (es : list (string * Value)) :=
            match es with
            | [] => acc
            | (k, v) :: rest =>
                each (Js.set k (mergeValue (Js.get k acc) v) acc) rest
            end) start fields)
  | VArray items =>
      let start := match dst with Some (VArray old) => old | _ => [] end in
      VArray
        ((fix each (index : nat) (acc : list Value)
               (vs : list Value) :=
            match vs with
            | [] => acc
            | v :: rest =>
                let merged := mergeValue (acc !! index) v in
                each (S index)
                  (if index <? length acc then <[index := merged]> acc
                   else acc ++ [merged]) rest
            end) 0 start items)
  | VUndefined => match dst with Some old => old | None => VUndefined end
  | _ => src
  end.

Definition mergeWith (object source : Js.object Value)
  : Js.object Value :=
  fold_left
    (fun acc e => Js.set (fst e) (mergeValue (Js.get (fst e) acc) (snd e)) acc)
    source object.

End Qs.

(** ** Outcomes *)

(** What a call may do: return, throw, or (for a loop run on fuel) not
    finish within the fuel. *)
Inductive Outcome (A : Type) : Type :=
| Returns (a : A)
| Throws (message : string)
| OutOfFuel.

Arguments Returns {A} a.
Arguments Throws {A} message.
Arguments OutOfFuel {A}.

Definition bindOutcome {A B} (o : Outcome A) (k : A -> Outcome B) : Outcome B :=
  match o with
  | Returns a => k a
  | Throws m => Throws m
  | OutOfFuel => OutOfFuel
  end.

(** ** types.ts *)

Module Types.

Inductive RouteMethod : Type := GET | POST | PUT | PATCH | DELETE.

(** Modelled from the spec: the string value of a [RouteMethod] member,
    declared in [types.ts]; the spec's form scenario names the field
    [_method=POST]. *)
Definition RouteMethod_value (m : RouteMethod) : string :=
  match m with
  | GET => "GET" | POST => "POST" | PUT => "PUT"
  | PATCH => "PATCH" | DELETE => "DELETE"
  end.

Definition RouteMethod_eqb (a b : RouteMethod) : bool :=
  String.eqb (RouteMethod_value a) (RouteMethod_value b).

Record RouterLocation : Type := mkLocation {
  loc_href : string;
  loc_host : string;
  loc_hostname : string;
  loc_origin : string;
  loc_pathname : string;
  loc_port : string;
  loc_protocol : string;
  loc_search : string;
  loc_hash : string
}.

Record Component : Type := mkComponent {
  component_id : string;
  component_path : string
}.

Record ScrollPosition : Type := mkScroll { scroll_top : Z; scroll_left : Z }.

(** A reference to a visit object; visits are shared and mutated in place. *)
Abbreviation VisitRef := nat.

(** The page a fragment points back to: the page without its fragments
    ([const { fragments, ...pageWithoutFragments } = page]). *)
Record FragmentPage : Type := mkFragmentPage {
  fp_location : RouterLocation;
  fp_properties : Properties;
  fp_visit : option VisitRef;
  fp_version : option string;
  fp_layout : option string;
  fp_rememberedState : option Properties;
  fp_scrollRegions : option (list ScrollPosition)
}.

Record Fragment : Type := mkFragment {
  fragment_name : string;
  fragment_component : Component;
  fragment_properties : Properties;
  fragment_page : option FragmentPage;
  fragment_fallback : bool
}.

(** One region: [None] is [null], [Some stack] an array whose elements
    may be [null]. *)
Abbreviation Region := (option (list (option Fragment))).

Abbreviation Fragments := (Js.object Region).

Inductive Page : Type := mkPage {
  page_location : RouterLocation;
  page_properties : Properties;
  page_fragments : Fragments;
  page_visit : option VisitRef;
  page_version : option string;
  page_layout : option string;
  page_rememberedState : option Properties;
  page_scrollRegions : option (list ScrollPosition);
  page_base : option Page
}.

(** [FragmentOption<T>]: absent, a plain value, or a function of the
    merge context whose [null]/[undefined] result falls back to the default. *)
Record OptionContext : Type := mkContext {
  ctx_name : string;
  ctx_currentFragments : Fragments;
  ctx_nextFragments : Fragments
}.

Inductive FragmentOption (T : Type) : Type :=
| OptionUndefined
| OptionValue (v : T)
| OptionFunction (f : OptionContext -> option T).

Arguments OptionUndefined {T}.
Arguments OptionValue {T} v.
Arguments OptionFunction {T} f.

(** [RouterOptions['fragments'][name]] *)
Record FragmentOptions : Type := mkFragmentOptions {
  option_stacked : FragmentOption bool;
  option_modal : FragmentOption bool;
  option_inert : FragmentOption bool;
  option_lazy : FragmentOption bool
}.

Definition noFragmentOptions : FragmentOptions :=
  mkFragmentOptions OptionUndefined OptionUndefined OptionUndefined
    OptionUndefined.

(** A [FormData] entry value: a string or a file. *)
Inductive FormDataEntryValue : Type :=
| EntryString (s : string)
| EntryFile (name : string) (content : string).

Abbreviation FormData := (list (string * FormDataEntryValue)).

Inductive VisitData : Type :=
| DataRecord (record : Js.object Value)
| DataForm (form : FormData).

End Types.

Import Types.

(** ** utilities.ts *)

Module Utilities.

(** *** [mergeDataIntoQueryString] *)

Record MergedQuery : Type := mkMergedQuery {
  merged_href : string;
  merged_data : Js.object Value;
  merged_method : RouteMethod
}.

Definition mergeDataIntoQueryString (method : RouteMethod) (href : string)
  (data : Js.object Value)
  (queryStringArrayFormat : QueryStringArrayFormat) : MergedQuery :=
  let hasHost := Url.hasHost href in
  let hasAbsolutePath := hasHost || Js.startsWith "/" href in
  let hasRelativePath :=
    negb hasAbsolutePath && negb (Js.startsWith "#" href)
      && negb (Js.startsWith "?" href) in
  let hasData := RouteMethod_eqb method GET && (0 <? length (Js.keys data)) in
  let hasSearch := Str.includesChar "?" href || hasData in
  let hasHash := Str.includesChar "#" href in
  let url := Url.parse href Url.localhost in
  let url' :=
    if hasData
    then Url.setSearch
           (Qs.stringify queryStringArrayFormat
              (Qs.mergeWith (Qs.parse (Url.search url)) data)) url
    else url in
  let data' := if hasData then [] else data in
  mkMergedQuery
    (String.concat ""
       [ if hasHost then Url.protocol url' +:+ "//" +:+ Url.host url' else "";
         if hasAbsolutePath then Url.pathname url' else "";
         if hasRelativePath then Str.drop 1 (Url.pathname url') else "";
         if hasSearch then Url.search url' else "";
         if hasHash then Url.hash url' else "" ])
    data' method.

(** *** [mergeFragments] *)

(** [castArray(nextFragments)[0]] *)
Inductive NextFragment : Type :=
| NextUndefined
| NextNull
| NextIs (fragment : Fragment).

Definition firstFragment (nextFragments : option Region) : NextFragment :=
  match nextFragments with
  | None => NextUndefined
  | Some None => NextNull
  | Some (Some []) => NextUndefined
  | Some (Some (None :: _)) => NextNull
  | Some (Some (Some fragment :: _)) => NextIs fragment
  end.

Definition resolveOption {T} (context : OptionContext)
  (option : FragmentOption T) (defaultValue : T) : T :=
  match option with
  | OptionUndefined => defaultValue
  | OptionFunction f => default defaultValue (f context)
  | OptionValue v => v
  end.

(** [options[name]?.member] *)
Definition optionOf (options : Js.object FragmentOptions) (name : string)
  (member : FragmentOptions -> FragmentOption bool) : FragmentOption bool :=
  match Js.get name options with
  | Some o => member o
  | None => OptionUndefined
  end.

(** [fragment?.page?.location.href] *)
Definition locationOf (fragment : option Fragment) : option string :=
  match fragment with
  | Some f =>
      match fragment_page f with
      | Some p => Some (loc_href (fp_location p))
      | None => None
      end
  | None => None
  end.

(** [fragment?.component.id] *)
Definition componentIdOf (fragment : option Fragment) : option string :=
  match fragment with
  | Some f => Some (component_id (fragment_component f))
  | None => None
  end.

Definition sameOptionString (a b : option string) : bool :=
  match a, b with
  | Some x, Some y => String.eqb x y
  | None, None => true
  | _, _ => false
  end.

Definition withProperties (f : Fragment) (properties : Properties) : Fragment :=
  mkFragment (fragment_name f) (fragment_component f) properties
    (fragment_page f) (fragment_fallback f).

Definition withPage (f : Fragment) (page : FragmentPage) : Fragment :=
  mkFragment (fragment_name f) (fragment_component f) (fragment_properties f)
    (Some page) (fragment_fallback f).

Definition withVisit (p : FragmentPage) (visit : option VisitRef) : FragmentPage :=
  mkFragmentPage (fp_location p) (fp_properties p) visit (fp_version p)
    (fp_layout p) (fp_rememberedState p) (fp_scrollRegions p).

(** The "replace previous fragment" branch: inherit the properties, reuse
    the visit, cut the stack at [index] and put the fragment there. *)
Definition replaceAt (lazy : bool) (nextFragment : Fragment)
  (currentFragment : option Fragment) (cumulatedFragments : list (option Fragment))
  (index : nat) : Outcome (list (option Fragment)) :=
  let inherited :=
    withProperties nextFragment
      (Js.spread
         (match currentFragment with
          | Some c => fragment_properties c
          | None => []
          end)
         (fragment_properties nextFragment)) in
  let currentLocation := locationOf currentFragment in
  let nextLocation := locationOf (Some nextFragment) in
  let reuse :=
    (lazy && sameOptionString (componentIdOf currentFragment)
                              (componentIdOf (Some nextFragment)))
    || sameOptionString currentLocation nextLocation in
  let spliced (f : Fragment) := take index cumulatedFragments ++ [Some f] in
  if reuse then
    match fragment_page inherited with
    | None => Throws "TypeError: Cannot set properties of undefined (setting 'visit')"
    | Some page =>
        Returns (spliced (withPage inherited
          (withVisit page
             (match currentFragment with
              | Some c =>
                  match fragment_page c with
                  | Some cp => fp_visit cp
                  | None => None
                  end
              | None => None
              end))))
    end
  else Returns (spliced inherited).

(** The test of the loop body: [(nextFragment.fallback && currentFragment)
    || !stacked || (!!stacked && currentLocation === nextLocation)]. *)
Definition replacesPrevious (stacked : bool) (nextFragment : Fragment)
  (currentFragment : option Fragment) : bool :=
  (fragment_fallback nextFragment
     && match currentFragment with Some _ => true | None => false end)
  || negb stacked
  || (stacked
      && sameOptionString (locationOf currentFragment)
           (locationOf (Some nextFragment))).

(** The [for ... of] loop over the growing array; [index] is the position
    of the iterator. *)
Fixpoint mergeStack (fuel : nat) (stacked lazy : bool) (nextFragment : Fragment)
  (cumulatedFragments : list (option Fragment)) (index : nat)
  : Outcome (list (option Fragment)) :=
  match fuel with
  | O => OutOfFuel
  | S fuel' =>
      match cumulatedFragments !! index with
      | None => Returns cumulatedFragments
      | Some currentFragment =>
          let stop := negb stacked in
          if replacesPrevious stacked nextFragment currentFragment
          then replaceAt lazy nextFragment currentFragment cumulatedFragments index
          else
            let pushed := cumulatedFragments ++ [Some nextFragment] in
            if stop then Returns pushed
            else mergeStack fuel' stacked lazy nextFragment pushed (S index)
      end
  end.

(** [const stacked = ...], [const inert = ...], [const lazy = ...] for the
    region [name]. *)
Definition stackedFor (allCurrentFragments allNextFragments : Fragments)
  (options : Js.object FragmentOptions) (name : string) : bool :=
  let context := mkContext name allCurrentFragments allNextFragments in
  resolveOption context (optionOf options name option_stacked)
    (resolveOption context (optionOf options name option_modal) false).

Definition inertFor (allCurrentFragments allNextFragments : Fragments)
  (options : Js.object FragmentOptions) (name : string) : bool :=
  let context := mkContext name allCurrentFragments allNextFragments in
  resolveOption context (optionOf options name option_inert)
    (existsb
       (fun nextFragmentName =>
          resolveOption context
            (optionOf options nextFragmentName option_modal) false)
       (Js.keys allNextFragments)).

Definition lazyFor (allCurrentFragments allNextFragments : Fragments)
  (options : Js.object FragmentOptions) (name : string) : bool :=
  let context := mkContext name allCurrentFragments allNextFragments in
  resolveOption context (optionOf options name option_lazy) true.

(** The body of the reducer: the new [cumulatedFragments] of the region
    [name], from the one it has so far; the outer [None] is [undefined]. *)
Definition cumulate (allCurrentFragments allNextFragments : Fragments)
  (options : Js.object FragmentOptions) (cumulatedFragments : option Region)
  (name : string) : Outcome (option Region) :=
  let nextFragment := firstFragment (Js.get name allNextFragments) in
  let stacked := stackedFor allCurrentFragments allNextFragments options name in
  let inert := inertFor allCurrentFragments allNextFragments options name in
  let lazy := lazyFor allCurrentFragments allNextFragments options name in
  match nextFragment with
  | NextIs fragment =>
      match cumulatedFragments with
      | Some (Some stack) =>
          bindOutcome
            (mergeStack (S (length stack)) stacked lazy fragment stack 0)
            (fun merged => Returns (Some (Some merged)))
      | Some None =>
          if fragment_fallback fragment then Returns (Some None)
          else Returns (Some (Some [Some fragment]))
      | None => Returns (Some (Some [Some fragment]))
      end
  | NextNull => Returns (Some None)
  | NextUndefined =>
      if negb inert then Returns (Some None) else Returns cumulatedFragments
  end.

(** The reducer of [mergeFragments]: an [undefined] region is left out,
    any other is stored under [name]. *)
Definition mergeRegion (allCurrentFragments allNextFragments : Fragments)
  (options : Js.object FragmentOptions) (allCumulatedFragments : Fragments)
  (name : string) : Outcome Fragments :=
  bindOutcome
    (cumulate allCurrentFragments allNextFragments options
       (Js.get name allCumulatedFragments) name)
    (fun cumulatedFragments =>
       match cumulatedFragments with
       | None => Returns allCumulatedFragments
       | Some region => Returns (Js.set name region allCumulatedFragments)
       end).

Definition getKeys {V} (value : Js.object V) : list string := Js.keys value.

Definition mergeFragments (allCurrentFragments allNextFragments : Fragments)
  (options : Js.object FragmentOptions) : Outcome Fragments :=
  fold_left
    (fun allCumulatedFragments name =>
       bindOutcome allCumulatedFragments
         (fun cumulated =>
            mergeRegion allCurrentFragments allNextFragments options
              cumulated name))
    (Js.uniq (getKeys allCurrentFragments ++ getKeys allNextFragments))
    (Returns allCurrentFragments).


(** *** [assignPageToFragments], [mergePages] *)

Definition pageWithoutFragments (page : Page) : FragmentPage :=
  mkFragmentPage (page_location page) (page_properties page) (page_visit page)
    (page_version page) (page_layout page) (page_rememberedState page)
    (page_scrollRegions page).

Definition withFragments (page : Page) (fragments : Fragments) : Page :=
  mkPage (page_location page) (page_properties page) fragments
    (page_visit page) (page_version page) (page_layout page)
    (page_rememberedState page) (page_scrollRegions page) (page_base page).

Definition withPageProperties (page : Page) (properties : Properties) : Page :=
  mkPage (page_location page) properties (page_fragments page)
    (page_visit page) (page_version page) (page_layout page)
    (page_rememberedState page) (page_scrollRegions page) (page_base page).

(** Every fragment without a back-reference gets the page, fragments
    left out; [null] regions and [null] slots are skipped. *)
Definition assignPageToFragments (page : Page) : Page :=
  let assign (slot : option Fragment) : option Fragment :=
    match slot with
    | Some fragment =>
        match fragment_page fragment with
        | Some _ => Some fragment
        | None => Some (withPage fragment (pageWithoutFragments page))
        end
    | None => None
    end in
  withFragments page
    (map (fun e => (fst e, option_map (map assign) (snd e)))
       (page_fragments page)).

(** [mergePages(page, nextPage, options)] mutates both arguments; the
    result is the current page as left behind and the returned next page. *)
Definition mergePages (page : option Page) (nextPage : Page)
  (options : Js.object FragmentOptions) : Outcome (option Page * Page) :=
  let nextPage1 :=
    withPageProperties nextPage
      (Js.spread
         (match page with Some p => page_properties p | None => [] end)
         (page_properties nextPage)) in
  let page' := option_map assignPageToFragments page in
  let nextPage2 := assignPageToFragments nextPage1 in
  bindOutcome
    (mergeFragments
       (match page' with Some p => page_fragments p | None => [] end)
       (page_fragments nextPage2) options)
    (fun fragments => Returns (page', withFragments nextPage2 fragments)).

Definition isNull {T} (value : option T) : bool :=
  match value with None => true | Some _ => false end.

Definition isNotNull {T} (value : option T) : bool := negb (isNull value).

(** *** [objectToFormData], [hasFiles] *)

Definition composeKey (parent : option string) (key : string) : string :=
  match parent with
  | Some p => if Str.isEmpty p then key else p +:+ "[" +:+ key +:+ "]"
  | None => key
  end.

Fixpoint appendToFormData (form : FormData) (key : string)
  (value : Value) : FormData :=
  match value with
  | VArray items =>
      (fix each (form : FormData) (index : nat)
            (vs : list Value) : FormData :=
         match vs with
         | [] => form
         | v :: rest =>
             each (appendToFormData form (composeKey (Some key) (pretty index)) v)
               (S index) rest
         end) form 0 items
  | VDate iso => form ++ [(key, EntryString iso)]
  | VFile file => form ++ [(key, EntryFile (file_name file) (file_content file))]
  | VBlob content => form ++ [(key, EntryFile "blob" content)]
  | VBool b => form ++ [(key, EntryString (if b then "1" else "0"))]
  | VString s => form ++ [(key, EntryString s)]
  | VNumber n => form ++ [(key, EntryString (pretty n))]
  | VNull | VUndefined => form ++ [(key, EntryString "")]
  | VFunction => form
  | VFileList files =>
      (fix each (form : FormData) (index : nat) (fs : list File) : FormData :=
         match fs with
         | [] => form
         | file :: rest =>
             each (form ++ [(composeKey (Some key) (pretty index),
                             EntryFile (file_name file) (file_content file))])
               (S index) rest
         end) form 0 files
  | VObject fields =>
      (fix each (form : FormData)
            (es : list (string * Value)) : FormData :=
         match es with
         | [] => form
         | (k, v) :: rest =>
             each (appendToFormData form (composeKey (Some key) k) v) rest
         end) form fields
  end.

Definition objectToFormData (source : Js.object Value)
  (form : FormData) (parentKey : option string) : FormData :=
  fold_left
    (fun form e => appendToFormData form (composeKey parentKey (fst e)) (snd e))
    source form.

(** [hasFiles] on a value inside the data, in a browser. *)
Fixpoint hasFilesIn (data : Value) : bool :=
  match data with
  | VFile _ => true
  | VBlob _ => true
  | VFileList files => 0 <? length files
  | VArray items => existsb hasFilesIn items
  | VObject fields => existsb (fun e => hasFilesIn (snd e)) fields
  | _ => false
  end.

Definition isFileEntry (value : FormDataEntryValue) : bool :=
  match value with EntryFile _ _ => true | EntryString _ => false end.

(** [hasFiles(data)]; [isSSR] is [typeof window === 'undefined']. *)
Definition hasFiles (isSSR : bool) (data : VisitData) : bool :=
  if isSSR then false
  else match data with
       | DataForm form => existsb (fun e => isFileEntry (snd e)) form
       | DataRecord record => existsb (fun e => hasFilesIn (snd e)) record
       end.

(** *** [createEmitter] *)

Section Emitter.
Variable Detail : Type.

Record CustomEvent : Type := mkEvent {
  event_type : string;
  event_cancelable : bool;
  event_defaultPrevented : bool;
  event_detail : Detail
}.

(** A listener is a function object: [listener_id] is its identity, and a
    call yields the returned value and whether [event.preventDefault()]
    was called. *)
Record Listener : Type := mkListener {
  listener_id : nat;
  listener_call : CustomEvent -> Value * bool
}.

(** [events[name].options]: [None] when no [cancelable] is given. *)
Record EventConfig : Type := mkEventConfig { config_cancelable : option bool }.

Record Emitter : Type := mkEmitter {
  emitter_events : Js.object EventConfig;
  emitter_all : Js.object (list Listener)
}.

Definition createEmitter (events : Js.object EventConfig) : Emitter :=
  mkEmitter events [].

Definition on (control : Emitter) (name : string) (listener : Listener)
  : Emitter :=
  mkEmitter (emitter_events control)
    (match Js.get name (emitter_all control) with
     | Some listeners => Js.set name (listeners ++ [listener]) (emitter_all control)
     | None => Js.set name [listener] (emitter_all control)
     end).

(** [listeners.indexOf(listener)] *)
Fixpoint indexOf (listener : Listener) (listeners : list Listener) : option nat :=
  match listeners with
  | [] => None
  | l :: rest =>
      if listener_id l =? listener_id listener then Some 0
      else option_map S (indexOf listener rest)
  end.

(** [off(name, listener)]: [-1 >>> 0] is [4294967295], and a [splice]
    that starts past the end removes nothing. *)
Definition off (control : Emitter) (name : string) (listener : option Listener)
  : Emitter :=
  match Js.get name (emitter_all control) with
  | Some listeners =>
      match listener with
      | Some l =>
          let index :=
            default 4294967295%N (option_map N.of_nat (indexOf l listeners)) in
          mkEmitter (emitter_events control)
            (Js.set name
               (if (index <? N.of_nat (length listeners))%N
                then delete (N.to_nat index) listeners
                else listeners)
               (emitter_all control))
      | None =>
          mkEmitter (emitter_events control)
            (Js.set name [] (emitter_all control))
      end
  | None => control
  end.

(** [priorityListeners?: TListener | (TListener | undefined)[]] *)
Inductive PriorityListeners : Type :=
| NoPriority
| OnePriority (listener : Listener)
| ManyPriority (listeners : list (option Listener)).

Definition castArray (priority : PriorityListeners) : list (option Listener) :=
  match priority with
  | NoPriority => [None]
  | OnePriority l => [Some l]
  | ManyPriority ls => ls
  end.

(** [[...castArray(priorityListeners), ...(all[name] ?? [])].filter(isDefined)] *)
Definition listenersFor (control : Emitter) (name : string)
  (priority : PriorityListeners) : list Listener :=
  omap id (castArray priority
           ++ map Some (default [] (Js.get name (emitter_all control)))).

Record Emission : Type := mkEmission {
  emission_result : Value;
  emission_invoked : list Listener;
  emission_event : CustomEvent
}.

(** The [for] loop of [emit]. *)
Fixpoint dispatch (event : CustomEvent) (listeners : list Listener) : Emission :=
  match listeners with
  | [] => mkEmission (VBool true) [] event
  | listener :: rest =>
      let '(result, prevented) := listener_call listener event in
      let event' :=
        mkEvent (event_type event) (event_cancelable event)
          (event_defaultPrevented event || (event_cancelable event && prevented))
          (event_detail event) in
      if truthy result then mkEmission result [listener] event'
      else if negb (event_cancelable event') then
        let later := dispatch event' rest in
        mkEmission (emission_result later) (listener :: emission_invoked later)
          (emission_event later)
      else if event_defaultPrevented event' then
        mkEmission (VBool false) [listener] event'
      else
        let later := dispatch event' rest in
        mkEmission (emission_result later) (listener :: emission_invoked later)
          (emission_event later)
  end.

Definition newEvent (control : Emitter) (name : string) (details : Detail)
  : CustomEvent :=
  mkEvent name
    (match Js.get name (emitter_events control) with
     | Some config => default false (config_cancelable config)
     | None => false
     end)
    false details.

Definition emit (control : Emitter) (name : string) (details : Detail)
  (priorityListeners : PriorityListeners) : Emission :=
  dispatch (newEvent control name details)
    (listenersFor control name priorityListeners).

End Emitter.

Arguments mkEvent {Detail}.
Arguments event_type {Detail}.
Arguments event_cancelable {Detail}.
Arguments event_defaultPrevented {Detail}.
Arguments event_detail {Detail}.
Arguments mkListener {Detail}.
Arguments listener_id {Detail}.
Arguments listener_call {Detail}.
Arguments mkEmitter {Detail}.
Arguments emitter_events {Detail}.
Arguments emitter_all {Detail}.
Arguments createEmitter {Detail}.
Arguments on {Detail}.
Arguments off {Detail}.
Arguments indexOf {Detail}.
Arguments NoPriority {Detail}.
Arguments OnePriority {Detail}.
Arguments ManyPriority {Detail}.
Arguments castArray {Detail}.
Arguments listenersFor {Detail}.
Arguments mkEmission {Detail}.
Arguments emission_result {Detail}.
Arguments emission_invoked {Detail}.
Arguments emission_event {Detail}.
Arguments dispatch {Detail}.
Arguments newEvent {Detail}.
Arguments emit {Detail}.

(** *** [mapRouteMethod] *)

Definition mapRouteMethod (method : option string) : RouteMethod :=
  match method with
  | Some "GET" => GET
  | Some "POST" => POST
  | Some "PUT" => PUT
  | Some "PATCH" => PATCH
  | Some "DELETE" => DELETE
  | _ => GET
  end.

(** *** Deferred properties *)

Definition isDeferred (input : Value) : bool :=
  match input with
  | VObject fields =>
      match Js.get "__deferred" fields with
      | Some (VBool true) => true
      | _ => false
      end
  | _ => false
  end.

(** [Object.values(page.fragments).flat().filter(isNotNull)] *)
Definition allFragments (fragments : Fragments) : list Fragment :=
  flat_map
    (fun e => match snd e with
              | Some stack => omap id stack
              | None => []
              end) fragments.

Definition getPageProperties (page : Page) : Properties :=
  let allFragmentProperties :=
    fold_left
      (fun cumulatedProperties fragment =>
         Js.spread cumulatedProperties
           (Js.fromEntries
              (map (fun e => (fragment_name fragment +:+ "/" +:+ fst e, snd e))
                 (fragment_properties fragment))))
      (filter
         (fun fragment =>
            sameOptionString (locationOf (Some fragment))
              (Some (loc_href (page_location page))))
         (allFragments (page_fragments page)))
      [] in
  Js.spread (page_properties page) allFragmentProperties.

Definition isRequested (property : Value) : bool :=
  match property with
  | VObject fields => truthy (default VUndefined (Js.get "__requested" fields))
  | _ => false
  end.

Definition getDeferredPageProperties (page : Page) : Properties :=
  Js.fromEntries
    (filter (fun e => isDeferred (snd e) && negb (isRequested (snd e)))
       (getPageProperties page)).

(** *** [transformPropertyKey], [transformPropertyKeys] *)

Definition transformPropertyKey (property : string)
  (transform : string -> string) : string :=
  if Str.includesChar "." property
  then String.concat "." (map transform (Str.splitOn "." property))
  else transform property.

(** The key of one entry: [key.startsWith('__') ? key : transform(key)]. *)
Definition transformKey (transform : string -> string) (key : string) : string :=
  if Js.startsWith "__" key then key else transform key.

(** [isObject(value) && !isArray(value) && !(value instanceof Blob) &&
    !(value instanceof Date) ? transformPropertyKeys(value, transform) : value].
    A function has no own enumerable property, so its entries are empty. *)
Fixpoint transformPropertyValue (transform : string -> string) (value : Value)
  : Value :=
  match value with
  | VObject fields =>
      VObject (Js.fromEntries
        ((fix entries (es : list (string * Value)) :=
            match es with
            | [] => []
            | (key, v) :: rest =>
                (transformKey transform key, transformPropertyValue transform v)
                  :: entries rest
            end) fields))
  | VFileList files =>
      VObject (Js.fromEntries
        (imap (fun index file => (transformKey transform (pretty index), VFile file))
           files))
  | VFunction => VObject []
  | _ => value
  end.

Definition transformPropertyKeys (properties : Properties)
  (transform : string -> string) : Properties :=
  Js.fromEntries
    (map (fun e => (transformKey transform (fst e),
                    transformPropertyValue transform (snd e))) properties).

Definition transformPagePropertyKeys (page : Page)
  (transform : string -> string) : Page :=
  withFragments
    (withPageProperties page (transformPropertyKeys (page_properties page) transform))
    (Js.fromEntries
       (map
          (fun e =>
             (fst e,
              option_map
                (map (option_map
                        (fun fragment =>
                           withProperties fragment
                             (transformPropertyKeys
                                (fragment_properties fragment) transform))))
                (snd e)))
          (page_fragments page))).

(** *** [clonePage]

    "This is just a dummy but maybe it becomes handy in the future":
    the argument itself is returned. *)
Definition clonePage {TPage : Type} (page : TPage) : TPage := page.


(** *** [createQueue] *)

(** [queue.splice(0, deleteCount)] as far as [queue] goes: the first
    [deleteCount] tasks leave; a count below zero removes nothing. *)
Definition spliceFront {Task} (deleteCount : Z) (queue : list Task)
  : list Task :=
  drop (Z.to_nat deleteCount) queue.

(** [push(task)] on the tasks of the queue; [max] is [options.max], a
    whole number when it is given. *)
Definition push {Task} (max : option Z) (task : Task) (queue : list Task)
  : list Task :=
  spliceFront (Z.of_nat (length queue) - Z.max (default 1%Z max) 1) queue
    ++ [task].

(** [queue.shift()] in [run]: the first task leaves the queue. *)
Definition shift {Task} (queue : list Task) : option Task * list Task :=
  (head queue, tail queue).

(** What happens to the tasks of a queue: a call of [push], or a round of
    the loop of [run]. *)
Inductive QueueStep (Task : Type) : Type :=
| Pushes (task : Task)
| Runs.

Arguments Pushes {Task} task.
Arguments Runs {Task}.

Definition queueStep {Task} (max : option Z) (queue : list Task)
  (step : QueueStep Task) : list Task :=
  match step with
  | Pushes task => push max task queue
  | Runs => snd (shift queue)
  end.

(** The getter [size] after the steps, from the empty queue of
    [createQueue(options)]. *)
Definition size {Task} (max : option Z) (steps : list (QueueStep Task)) : nat :=
  length (fold_left (queueStep max) steps []).

End Utilities.

(** ** The [Router] class *)

Module Router.

Import Utilities.

(** [VisitPreserveOption]: a boolean, the literal ['errors'], or a
    predicate on the next page. *)
Inductive VisitPreserveOption : Type :=
| PreserveBool (b : bool)
| PreserveErrors
| PreserveWhen (f : Page -> bool).

(** [Axios.CancelToken.source()] *)
Record CancelTokenSource : Type := mkCancelToken { token_cancelled : bool }.

Record Visit : Type := mkVisit {
  visit_id : string;
  visit_location : RouterLocation;
  visit_method : RouteMethod;
  visit_data : VisitData;
  visit_replace : bool;
  visit_background : bool;
  visit_preserveScroll : VisitPreserveOption;
  visit_preserveState : VisitPreserveOption;
  visit_preserveURL : bool;
  visit_properties : list string;
  visit_headers : Js.object Value;
  visit_errorBag : option string;
  visit_forceFormData : bool;
  visit_queryStringArrayFormat : QueryStringArrayFormat;
  visit_completed : bool;
  visit_cancelled : bool;
  visit_interrupted : bool;
  visit_cancelToken : option CancelTokenSource
}.

(** The lifecycle members of a visit, written in place by the router. *)
Definition withLifecycle (completed cancelled interrupted : bool)
  (cancelToken : option CancelTokenSource) (v : Visit) : Visit :=
  mkVisit (visit_id v) (visit_location v) (visit_method v) (visit_data v)
    (visit_replace v) (visit_background v) (visit_preserveScroll v)
    (visit_preserveState v) (visit_preserveURL v) (visit_properties v)
    (visit_headers v) (visit_errorBag v) (visit_forceFormData v)
    (visit_queryStringArrayFormat v) completed cancelled interrupted
    cancelToken.

(** The [detail] of a router event, as a listener sees it: the visit and
    the page as they are when the event is dispatched, and the errors of
    an [error] event. *)
Record Detail : Type := mkDetail {
  detail_visit : option Visit;
  detail_page : option Page;
  detail_errors : option Properties
}.

(** [visit.events]: at most one listener per event name. *)
Abbreviation VisitEvents := (Js.object (Listener Detail)).

Record RouterOptions : Type := mkOptions {
  options_fragments : option (Js.object FragmentOptions);
  options_transformClientPropertyKey : option (string -> string);
  options_transformServerPropertyKey : option (string -> string)
}.

(** What the router does to its surroundings, in order.  An [Emitted]
    entry is written when the event is dispatched and carries the visits
    as they are at that moment. *)
Inductive Effect : Type :=
| Emitted (name : string) (visit : option VisitRef)
    (visits : gmap VisitRef Visit)
| CancelTokenCancel (visit : VisitRef)
| HistoryPushState (page : Page) (url : string)
| HistoryReplaceState (page : Page) (url : option string)
| HistoryBack
| AxiosRequest (visit : VisitRef) (method : RouteMethod) (url : string)
    (data : VisitData) (headers : Js.object Value)
| LocationAssign (href : string) (preserveScroll : bool)
| ModalShow
| ConsoleWarn.

(** A suspended [async] call: what runs when its [await] resumes. *)
Inductive Continuation : Type :=
| AfterCancelEmitted (visit : VisitRef)
| AfterNavigateEmitted.

(** [setTimeout] callbacks that have not run yet. *)
Inductive Timer : Type :=
| ReloadDeferred (properties : list string).

(** The browser objects the router reads and writes. *)
Record Window : Type := mkWindow {
  window_isSSR : bool;
  window_href : string;
  window_hash : string;
  window_scrollRegions : list ScrollPosition
}.

Record State : Type := mkState {
  options : RouterOptions;
  visits : gmap VisitRef (Visit * VisitEvents);
  activeVisit : option VisitRef;
  internalPages : Js.array Page;
  pageIndex : nat;
  emitter : Emitter Detail;
  window : Window;
  trace : list Effect;
  microtasks : list Continuation;
  timers : list Timer
}.

Definition setVisits (vs : gmap VisitRef (Visit * VisitEvents)) (r : State)
  : State :=
  mkState (options r) vs (activeVisit r) (internalPages r) (pageIndex r)
    (emitter r) (window r) (trace r) (microtasks r) (timers r).

Definition setActiveVisit (a : option VisitRef) (r : State) : State :=
  mkState (options r) (visits r) a (internalPages r) (pageIndex r)
    (emitter r) (window r) (trace r) (microtasks r) (timers r).

Definition setInternalPages (ps : Js.array Page) (r : State) : State :=
  mkState (options r) (visits r) (activeVisit r) ps (pageIndex r)
    (emitter r) (window r) (trace r) (microtasks r) (timers r).

Definition setPageIndex (i : nat) (r : State) : State :=
  mkState (options r) (visits r) (activeVisit r) (internalPages r) i
    (emitter r) (window r) (trace r) (microtasks r) (timers r).

Definition setEmitter (e : Emitter Detail) (r : State) : State :=
  mkState (options r) (visits r) (activeVisit r) (internalPages r)
    (pageIndex r) e (window r) (trace r) (microtasks r) (timers r).

Definition setWindow (w : Window) (r : State) : State :=
  mkState (options r) (visits r) (activeVisit r) (internalPages r)
    (pageIndex r) (emitter r) w (trace r) (microtasks r) (timers r).

Definition record (e : Effect) (r : State) : State :=
  mkState (options r) (visits r) (activeVisit r) (internalPages r)
    (pageIndex r) (emitter r) (window r) (trace r ++ [e]) (microtasks r)
    (timers r).

Definition suspend (k : Continuation) (r : State) : State :=
  mkState (options r) (visits r) (activeVisit r) (internalPages r)
    (pageIndex r) (emitter r) (window r) (trace r) (microtasks r ++ [k])
    (timers r).

Definition setMicrotasks (ks : list Continuation) (r : State) : State :=
  mkState (options r) (visits r) (activeVisit r) (internalPages r)
    (pageIndex r) (emitter r) (window r) (trace r) ks (timers r).

Definition setTimeout (t : Timer) (r : State) : State :=
  mkState (options r) (visits r) (activeVisit r) (internalPages r)
    (pageIndex r) (emitter r) (window r) (trace r) (microtasks r)
    (timers r ++ [t]).

(** *** Page getters *)

Definition internalPage (r : State) : option Page :=
  Js.at_ (Z.of_nat (pageIndex r)) (internalPages r).

Definition page (r : State) : option Page := clonePage (internalPage r).

Definition internalPreviousPage (r : State) : option Page :=
  Js.at_ (Z.of_nat (pageIndex r) - 1) (internalPages r).

Definition previousPage (r : State) : option Page :=
  clonePage (internalPreviousPage r).

(** [pages]: each page with its [obsolete] flag. *)
Definition pages (r : State) : list (option Page * bool) :=
  imap (fun index page => (clonePage page, pageIndex r <? index))
    (internalPages r).

Definition location (r : State) : option RouterLocation :=
  option_map page_location (page r).

(** *** Events *)

Definition visitOf (r : State) (ref : VisitRef) : option Visit :=
  option_map fst (visits r !! ref).

Definition eventsOf (r : State) (ref : VisitRef) : VisitEvents :=
  match visits r !! ref with
  | Some (_, events) => events
  | None => []
  end.

Definition priorityOf (initialListener : option (Listener Detail))
  : PriorityListeners Detail :=
  match initialListener with
  | Some l => OnePriority l
  | None => NoPriority
  end.

(** [this.emit(name, details, initialListener)]: the event is dispatched
    and the result of the emitter is returned. *)
Definition emit (name : string) (visit : option VisitRef) (details : Detail)
  (initialListener : option (Listener Detail)) (r : State)
  : Value * State :=
  let emission :=
    Utilities.emit (emitter r) name details (priorityOf initialListener) in
  (emission_result emission,
   record (Emitted name visit (fst <$> visits r)) r).

Definition visitDetail (r : State) (ref : VisitRef) : Detail :=
  mkDetail (visitOf r ref) None None.

(** *** [cancelVisit], [finishVisit] *)

Definition cancelSource (token : option CancelTokenSource)
  : option CancelTokenSource :=
  option_map (fun _ => mkCancelToken true) token.

(** [cancelVisit] up to its first [await]: the guards, the token, the
    flags and the dispatch of [cancel].  The result names the visit when
    the call is suspended there. *)
Definition cancelVisitBegin (visitId : string) (interrupt : bool) (r : State)
  : State * option VisitRef :=
  match activeVisit r with
  | None => (r, None)
  | Some ref =>
      match visits r !! ref with
      | None => (r, None)
      | Some (visit, events) =>
          if negb (String.eqb (visit_id visit) visitId) then (r, None)
          else if visit_completed visit || visit_cancelled visit then (r, None)
          else
            let r1 :=
              match visit_cancelToken visit with
              | Some _ => record (CancelTokenCancel ref) r
              | None => r
              end in
            let visit' :=
              withLifecycle false true (if interrupt then true else false)
                (cancelSource (visit_cancelToken visit)) visit in
            let r2 := setVisits (<[ref := (visit', events)]> (visits r1)) r1 in
            let '(_, r3) :=
              emit "cancel" (Some ref) (visitDetail r2 ref)
                (Js.get "cancel" events) r2 in
            (r3, Some ref)
      end
  end.

(** [cancelVisit] after [await this.emit('cancel', ...)]. *)
Definition cancelVisitResume (ref : VisitRef) (r : State) : State :=
  snd (emit "finish" (Some ref) (visitDetail r ref)
         (Js.get "finish" (eventsOf r ref)) r).

(** [await this.cancelVisit(visitId, interrupt)] *)
Definition cancelVisit (visitId : string) (interrupt : bool) (r : State)
  : State :=
  match cancelVisitBegin visitId interrupt r with
  | (r', Some ref) => cancelVisitResume ref r'
  | (r', None) => r'
  end.

(** [this.cancelVisit(visitId, interrupt)] without [await]: the rest of
    the call is left to a later microtask. *)
Definition cancelVisitDetached (visitId : string) (interrupt : bool)
  (r : State) : State :=
  match cancelVisitBegin visitId interrupt r with
  | (r', Some ref) => suspend (AfterCancelEmitted ref) r'
  | (r', None) => r'
  end.

(** [finishVisit(visit)]: nothing follows its only [await]. *)
Definition finishVisit (ref : VisitRef) (r : State) : State :=
  match visits r !! ref with
  | None => r
  | Some (visit, events) =>
      if visit_completed visit || visit_cancelled visit then r
      else
        let visit' :=
          withLifecycle true false false (visit_cancelToken visit) visit in
        let r1 := setVisits (<[ref := (visit', events)]> (visits r)) r in
        snd (emit "finish" (Some ref) (visitDetail r1 ref)
               (Js.get "finish" events) r1)
  end.


(** *** History and scroll positions *)

Definition setWindowHref (href : string) (r : State) : State :=
  setWindow
    (mkWindow (window_isSSR (window r)) href (window_hash (window r))
       (window_scrollRegions (window r))) r.

(** [replaceState(page, preserveURL)] *)
Definition replaceState (page : Page) (preserveURL : bool) (r : State) : State :=
  let r1 := setInternalPages (Js.assign (pageIndex r) page (internalPages r)) r in
  if window_isSSR (window r1) then r1
  else
    let url :=
      if preserveURL then None else Some (loc_href (page_location page)) in
    let r2 := record (HistoryReplaceState page url) r1 in
    match url with
    | Some href => setWindowHref href r2
    | None => r2
    end.

(** [pushState(page)] *)
Definition pushState (page : Page) (r : State) : State :=
  let r1 := setPageIndex (S (pageIndex r)) r in
  let r2 :=
    setInternalPages (Js.setLength (pageIndex r1 + 1) (internalPages r1)) r1 in
  let r3 :=
    setInternalPages (Js.assign (pageIndex r2) page (internalPages r2)) r2 in
  if window_isSSR (window r3) then r3
  else
    setWindowHref (loc_href (page_location page))
      (record (HistoryPushState page (loc_href (page_location page))) r3).

Definition withScrollRegions (page : Page)
  (regions : option (list ScrollPosition)) : Page :=
  mkPage (page_location page) (page_properties page) (page_fragments page)
    (page_visit page) (page_version page) (page_layout page)
    (page_rememberedState page) regions (page_base page).

Definition withRememberedState (page : Page) (state : option Properties)
  : Page :=
  mkPage (page_location page) (page_properties page) (page_fragments page)
    (page_visit page) (page_version page) (page_layout page) state
    (page_scrollRegions page) (page_base page).

Definition withPageVisit (page : Page) (visit : option VisitRef) : Page :=
  mkPage (page_location page) (page_properties page) (page_fragments page)
    visit (page_version page) (page_layout page) (page_rememberedState page)
    (page_scrollRegions page) (page_base page).

Definition withBase (page : Page) (base : option Page) : Page :=
  mkPage (page_location page) (page_properties page) (page_fragments page)
    (page_visit page) (page_version page) (page_layout page)
    (page_rememberedState page) (page_scrollRegions page) base.

Definition withLocation (page : Page) (location : RouterLocation) : Page :=
  mkPage location (page_properties page) (page_fragments page)
    (page_visit page) (page_version page) (page_layout page)
    (page_rememberedState page) (page_scrollRegions page) (page_base page).

(** [saveScrollPositions]: without a current page, [replaceState] reads
    [location] of an object that has none. *)
Definition saveScrollPositions (r : State) : Outcome State :=
  if window_isSSR (window r) then Returns r
  else match page r with
       | Some current =>
           Returns
             (replaceState
                (withScrollRegions current
                   (Some (window_scrollRegions (window r))))
                false r)
       | None =>
           Throws "TypeError: Cannot read properties of undefined (reading 'href')"
       end.

(** [resetScrollPositions] *)
Definition resetScrollPositions (r : State) : Outcome State :=
  if window_isSSR (window r) then Returns r
  else
    saveScrollPositions
      (setWindow
         (mkWindow (window_isSSR (window r)) (window_href (window r))
            (window_hash (window r))
            (map (fun _ => mkScroll 0 0) (window_scrollRegions (window r))))
         r).

(** *** [setPage] *)

Record SetPageOptions : Type := mkSetPageOptions {
  set_replace : bool;
  set_preserveScroll : bool;
  set_preserveState : bool;
  set_preserveURL : bool;
  set_fragmentName : option string
}.

Definition noSetPageOptions : SetPageOptions :=
  mkSetPageOptions false false false false None.

Definition transformClientPropertyKey (r : State) (key : string) : string :=
  transformPropertyKey key
    (default (fun value => value)
       (options_transformClientPropertyKey (options r))).

Definition transformServerPropertyKey (r : State) (key : string) : string :=
  transformPropertyKey key
    (default (fun value => value)
       (options_transformServerPropertyKey (options r))).

(** The fragment options of one [setPage] call: the named fragment is
    made lazy. *)
Definition fragmentOptionsFor (r : State) (fragmentName : option string)
  : Js.object FragmentOptions :=
  let configured := default [] (options_fragments (options r)) in
  match fragmentName with
  | Some name =>
      if Str.isEmpty name then configured
      else
        let own := default noFragmentOptions (Js.get name configured) in
        Js.set name
          (mkFragmentOptions (option_stacked own) (option_modal own)
             (option_inert own) (OptionValue true))
          configured
  | None => configured
  end.

(** [this.back()] without a fallback and without [await]: both branches
    call [history.back()].  Outside a browser there is no [history]: the
    promise of the call is rejected with a [ReferenceError] that nobody
    awaits, and the router goes on as it is. *)
Definition backWithoutFallback (r : State) : State :=
  if window_isSSR (window r) then r else record HistoryBack r.

(** [setPage] up to the scroll reset: merge, then replace, pop or push.
    The boolean is [initialVisit]. *)
Definition setPageCommit (page : Page) (opts : SetPageOptions) (r : State)
  : Outcome (State * Page * bool) :=
  let initialVisit := isNull (Router.page r) in
  let fragments := fragmentOptionsFor r (set_fragmentName opts) in
  bindOutcome
    (match page_base page with
     | Some base =>
         bindOutcome
           (mergePages (Some (withPageVisit base (page_visit page)))
              (withBase page None) fragments)
           (fun merged => Returns (snd merged))
     | None => Returns page
     end)
    (fun pageWithBase =>
  bindOutcome
    (mergePages (Router.page r)
       (transformPagePropertyKeys pageWithBase (transformServerPropertyKey r))
       fragments)
    (fun merged =>
  let r0 :=
    match fst merged with
    | Some current =>
        setInternalPages (Js.assign (pageIndex r) current (internalPages r)) r
    | None => r
    end in
  let nextPage :=
    withRememberedState
      (withScrollRegions (snd merged)
         (Some (default [] (page_scrollRegions (snd merged)))))
      (Some (default [] (page_rememberedState (snd merged)))) in
  let nextHref := loc_href (page_location nextPage) in
  let r1 :=
    if initialVisit || set_replace opts || set_preserveURL opts
       || (negb (window_isSSR (window r0))
           && String.eqb nextHref (window_href (window r0)))
    then replaceState nextPage (set_preserveURL opts) r0
    else
      match previousPage r0 with
      | Some previous =>
          if String.eqb nextHref (loc_href (page_location previous))
          then
            backWithoutFallback
              (setInternalPages
                 (Js.assign (pageIndex r0 - 1)
                    (withPageVisit nextPage (page_visit previous))
                    (internalPages r0))
                 r0)
          else pushState nextPage r0
      | None => pushState nextPage r0
      end in
  bindOutcome
    (if set_preserveScroll opts then Returns r1 else resetScrollPositions r1)
    (fun r2 => Returns (r2, nextPage, initialVisit)))).

(** [await this.emit('navigate', ...)] *)
Definition setPageNavigate (r : State) : State :=
  let visit := page r ≫= page_visit in
  snd (emit "navigate" visit (mkDetail (visit ≫= visitOf r) (page r) None)
         None r).

(** The end of [setPage]: deferred properties are reloaded by a timer. *)
Definition setPageDeferred (r : State) : State :=
  match page r with
  | Some current =>
      let deferredProperties := getDeferredPageProperties current in
      if negb (window_isSSR (window r))
         && (0 <? length (getKeys deferredProperties))
      then
        setTimeout
          (ReloadDeferred
             (map (transformClientPropertyKey r) (getKeys deferredProperties)))
          r
      else r
  | None => r
  end.

(** [await this.setPage(page, options)] *)
Definition setPage (page : Page) (opts : SetPageOptions) (r : State)
  : Outcome (State * Page) :=
  bindOutcome (setPageCommit page opts r)
    (fun committed =>
       let '(r1, nextPage, initialVisit) := committed in
       let r2 := if initialVisit then r1 else setPageNavigate r1 in
       Returns (setPageDeferred r2, nextPage)).

(** [this.setPage(page, options)] without [await] *)
Definition setPageDetached (page : Page) (opts : SetPageOptions) (r : State)
  : Outcome State :=
  bindOutcome (setPageCommit page opts r)
    (fun committed =>
       let '(r1, _, initialVisit) := committed in
       if initialVisit then Returns (setPageDeferred r1)
       else Returns (suspend AfterNavigateEmitted (setPageNavigate r1))).

(** One microtask, and the queue run to its end. *)
Definition resume (k : Continuation) (r : State) : State :=
  match k with
  | AfterCancelEmitted ref => cancelVisitResume ref r
  | AfterNavigateEmitted => setPageDeferred r
  end.

Definition drain (r : State) : State :=
  fold_left (fun r k => resume k r) (microtasks r) (setMicrotasks [] r).


(** *** [createLocation], [resolveRoutable] *)

(** [new URL(href, base)] with a base given as text: a relative [href]
    needs an absolute base.  The other reasons for which the parser
    throws (an empty or malformed host, a bad port) are not modelled. *)
Definition newURL (href base : string) : Outcome Url.URL :=
  if Url.hasHost href then Returns (Url.parse href Url.localhost)
  else if Url.hasHost base
  then Returns (Url.parse href (Url.parse base Url.localhost))
  else Throws "TypeError: Invalid URL".

Definition createLocation (href : string) (r : State) : Outcome RouterLocation :=
  match location r with
  | None => Throws "TypeError: Cannot read properties of undefined (reading 'location')"
  | Some current =>
      bindOutcome (newURL href (loc_href current))
        (fun url =>
           let urlWithoutHash := Url.setHash "" url in
           Returns
             (mkLocation (Url.href urlWithoutHash) (Url.host url)
                (Url.hostname url) (Url.origin url) (Url.pathname url)
                (Url.port url) (Url.protocol url) (Url.search url)
                (Url.hash url)))
  end.

(** [Route#options] *)
Record RouteOptions : Type := mkRouteOptions {
  route_properties : option (list string);
  route_headers : option (Js.object Value)
}.

(** Modelled from the spec: the [Route] class of [Route.ts], whose source
    is not part of the core ("route resolution (outside core scope)"); a
    route brings its method, its components, its options and the function
    that computes its href for the current location. *)
Record Route : Type := mkRoute {
  route_method : RouteMethod;
  route_getHref : RouterLocation -> option QueryStringArrayFormat -> string;
  route_components : list Component;
  route_options : RouteOptions
}.

Inductive Routable : Type :=
| RoutableURL (href : string)
| RoutableRoute (route : Route)
| RoutableObject (getHref : RouterLocation -> option QueryStringArrayFormat -> string)
| RoutableString (href : string).

Record ResolveOptions : Type := mkResolveOptions {
  resolve_method : option string;
  resolve_forceFormData : option bool;
  resolve_queryStringArrayFormat : option QueryStringArrayFormat
}.

Record ResolvedRoutable : Type := mkResolved {
  resolved_method : RouteMethod;
  resolved_location : RouterLocation;
  resolved_data : VisitData;
  resolved_components : list Component;
  resolved_options : RouteOptions
}.

(** [mergeDataIntoQueryString]'s default for its last parameter *)
Definition arrayFormatOr (format : option QueryStringArrayFormat)
  : QueryStringArrayFormat := default Indices format.

Definition resolveRoutable (routable : Routable) (data : VisitData)
  (opts : ResolveOptions) (r : State) : Outcome (State * ResolvedRoutable) :=
  match location r with
  | None => Throws "TypeError: Cannot read properties of undefined (reading 'location')"
  | Some current =>
      let finalHref :=
        match routable with
        | RoutableURL href => href
        | RoutableRoute route =>
            route_getHref route current (resolve_queryStringArrayFormat opts)
        | RoutableObject getHref =>
            getHref current (resolve_queryStringArrayFormat opts)
        | RoutableString href => href
        end in
      let method :=
        match routable with
        | RoutableRoute route => route_method route
        | _ => mapRouteMethod (resolve_method opts)
        end in
      let components :=
        match routable with
        | RoutableRoute route => route_components route
        | _ => []
        end in
      let routeOptions :=
        match routable with
        | RoutableRoute route => route_options route
        | _ => mkRouteOptions None None
        end in
      if Str.isEmpty finalHref
      then Throws "Navigare: the routable could not be resolved properly."
      else
        let r1 :=
          match routable with
          | RoutableObject _ => record ConsoleWarn r
          | _ => r
          end in
        let finalData :=
          match data with
          | DataRecord source =>
              if hasFiles (window_isSSR (window r)) data
                 || default false (resolve_forceFormData opts)
              then DataForm (objectToFormData source [] None)
              else data
          | DataForm _ => data
          end in
        match finalData with
        | DataForm form =>
            bindOutcome (createLocation finalHref r1)
              (fun location =>
                 Returns
                   (r1,
                    mkResolved POST location
                      (DataForm
                         (form ++ [("_method", EntryString (RouteMethod_value method))]))
                      components routeOptions))
        | DataRecord source =>
            let merged :=
              mergeDataIntoQueryString method finalHref source
                (arrayFormatOr (resolve_queryStringArrayFormat opts)) in
            bindOutcome (createLocation (merged_href merged) r1)
              (fun location =>
                 Returns
                   (r1,
                    mkResolved method location
                      (DataRecord
                         (transformPropertyKeys (merged_data merged)
                            (transformClientPropertyKey r1)))
                      components routeOptions))
        end
  end.

(** *** [createVisit], [visit] *)

(** The members a caller of [createVisit] may give. *)
Record PartialVisit : Type := mkPartialVisit {
  partial_location : RouterLocation;
  partial_method : option RouteMethod;
  partial_data : option VisitData;
  partial_replace : option bool;
  partial_background : option bool;
  partial_preserveScroll : option VisitPreserveOption;
  partial_preserveState : option VisitPreserveOption;
  partial_properties : option (list string);
  partial_headers : option (Js.object Value);
  partial_errorBag : option string;
  partial_forceFormData : option bool;
  partial_queryStringArrayFormat : option QueryStringArrayFormat;
  partial_events : option VisitEvents
}.

(** [createVisit]; [id] is [Math.random().toString(36)]. *)
Definition createVisit (id : string) (visit : PartialVisit)
  : Visit * VisitEvents :=
  (mkVisit id (partial_location visit)
     (default GET (partial_method visit))
     (default (DataRecord []) (partial_data visit))
     (default false (partial_replace visit))
     (default false (partial_background visit))
     (default (PreserveBool false) (partial_preserveScroll visit))
     (default (PreserveBool false) (partial_preserveState visit))
     false
     (default [] (partial_properties visit))
     (default [] (partial_headers visit))
     (partial_errorBag visit)
     (default false (partial_forceFormData visit))
     (default Indices (partial_queryStringArrayFormat visit))
     false false false None,
   default [] (partial_events visit)).

(** A new visit object in the store. *)
Definition allocate (visit : Visit * VisitEvents) (r : State) : VisitRef * State :=
  let ref := fresh (dom (visits r)) in
  (ref, setVisits (<[ref := visit]> (visits r)) r).

Record VisitOptions : Type := mkVisitOptions {
  visit_option_method : option string;
  visit_option_data : option VisitData;
  visit_option_replace : option bool;
  visit_option_background : option bool;
  visit_option_preserveScroll : option VisitPreserveOption;
  visit_option_preserveState : option VisitPreserveOption;
  visit_option_preserveURL : option VisitPreserveOption;
  visit_option_fragmentName : option string;
  visit_option_properties : option (list string);
  visit_option_headers : option (Js.object Value);
  visit_option_errorBag : option string;
  visit_option_events : option VisitEvents;
  visit_option_forceFormData : option bool;
  visit_option_queryStringArrayFormat : option QueryStringArrayFormat
}.

(** [VisitOptions = {}] *)
Definition noVisitOptions : VisitOptions :=
  mkVisitOptions None None None None None None None None None None None None
    None None.

(** An HTTP response: its headers (by lower-case name) and, when the body
    is a page, that page. *)
Record AxiosResponse : Type := mkResponse {
  response_status : Z;
  response_headers : Js.object Value;
  response_data : option Page
}.

(** How the request of a visit ends. *)
Inductive AxiosResult : Type :=
| Fulfilled (response : AxiosResponse)
| RejectedWithResponse (response : AxiosResponse)
| RejectedWithoutResponse
| RejectedWithOther.

(** What the surroundings decide during one visit. *)
Record Environment : Type := mkEnvironment {
  env_random : string;
  env_result : AxiosResult
}.

(** [getHeader(headers, name)] with [name] already in lower case *)
Definition getHeader (headers : Js.object Value) (name : string) : Value :=
  default VUndefined (Js.get name headers).

Definition isRedirectResponse (response : AxiosResponse) : bool :=
  (response_status response =? 409)%Z.

Definition isNavigareResponse (response : AxiosResponse) : bool :=
  truthy (getHeader (response_headers response) "x-navigare").

(** [Object.keys(value).length] *)
Definition keyCount (value : Value) : nat :=
  match value with
  | VObject fields => length fields
  | VArray items => length items
  | VString s => String.length s
  | VFileList files => length files
  | _ => 0
  end.

(** [page.properties.__errors || {}] *)
Definition errorsOf (page : Page) : Value :=
  match Js.get "__errors" (page_properties page) with
  | Some errors => if truthy errors then errors else VObject []
  | None => VObject []
  end.

Definition resolvePreserveOption (value : VisitPreserveOption) (page : Page)
  : bool :=
  match value with
  | PreserveWhen f => f page
  | PreserveErrors => 0 <? keyCount (errorsOf page)
  | PreserveBool b => b
  end.

(** [String(value)] of a header *)
Definition headerText (value : Value) : string :=
  match value with
  | VString s => s
  | VUndefined => "undefined"
  | VNull => "null"
  | VBool b => if b then "true" else "false"
  | VNumber n => pretty n
  | _ => "[object Object]"
  end.

(** [Object.entries(value)] of an error bag *)
Definition entriesOf (value : Value) : list (string * Value) :=
  match value with
  | VObject fields => fields
  | VArray items => imap (fun index item => (pretty index, item)) items
  | _ => []
  end.

(** The errors an [error] event carries: keys transformed, messages as
    arrays. *)
Definition scopedErrors (r : State) (errorBag : string) (errors : Value)
  : Properties :=
  let bag :=
    if Str.isEmpty errorBag then errors
    else match Js.get errorBag (entriesOf errors) with
         | Some scoped => if truthy scoped then scoped else VObject []
         | None => VObject []
         end in
  Js.fromEntries
    (map (fun e =>
            (transformServerPropertyKey r (fst e),
             match snd e with
             | VArray items => VArray items
             | message => VArray [message]
             end))
       (entriesOf bag)).

Definition withHash (location : RouterLocation) (hash : string)
  : RouterLocation :=
  mkLocation (loc_href location) (loc_host location) (loc_hostname location)
    (loc_origin location) (loc_pathname location) (loc_port location)
    (loc_protocol location) (loc_search location) hash.

(** The headers of the request *)
Definition requestHeaders (r : State) (headers : Js.object Value)
  (properties : list string) (errorBag : string) : Js.object Value :=
  let standard :=
    Js.spread headers
      [("Accept", VString "text/html, application/xhtml+xml");
       ("X-Requested-With", VString "XMLHttpRequest");
       ("X-Navigare", VBool true)] in
  let withProperties :=
    if 0 <? length properties
    then Js.set "X-Navigare-Properties" (VArray (map VString properties)) standard
    else standard in
  let withErrorBag :=
    if negb (Str.isEmpty errorBag)
    then Js.set "X-Navigare-Error-Bag" (VString errorBag) withProperties
    else withProperties in
  match page r ≫= page_version with
  | Some version =>
      if Str.isEmpty version then withErrorBag
      else Js.set "X-Navigare-Version" (VString version) withErrorBag
  | None => withErrorBag
  end.


(** The block [if (!visit.background) { ... }] of [visit]: the active
    visit is interrupted, the scroll positions are saved, the visit gets
    its cancel token and becomes the active visit. *)
Definition visitActivate (ref : VisitRef) (r : State) : Outcome State :=
  match visitOf r ref with
  | None => Returns r
  | Some visit =>
      if visit_background visit then Returns r
      else
        let r1 :=
          match activeVisit r ≫= visitOf r with
          | Some active => cancelVisitDetached (visit_id active) true r
          | None => r
          end in
        bindOutcome (saveScrollPositions r1)
          (fun r2 =>
             Returns
               (setActiveVisit (Some ref)
                  (setVisits
                     (alter
                        (fun entry =>
                           (withLifecycle (visit_completed (fst entry))
                              (visit_cancelled (fst entry))
                              (visit_interrupted (fst entry))
                              (Some (mkCancelToken false)) (fst entry),
                            snd entry))
                        ref (visits r2))
                     r2)))
  end.

(** [await this.emit('start', { visit }, events?.start)] *)
Definition visitStart (ref : VisitRef) (r : State) : State :=
  snd (emit "start" (Some ref) (visitDetail r ref)
         (Js.get "start" (eventsOf r ref)) r).

(** [redirect(location, preserveScroll)] *)
Definition redirect (location : RouterLocation) (preserveScroll : bool)
  (r : State) : State :=
  setWindowHref (loc_href location)
    (record (LocationAssign (loc_href location) preserveScroll) r).

(** The options of a visit that its response handling reads. *)
Record Handling : Type := mkHandling {
  handling_location : RouterLocation;
  handling_replace : bool;
  handling_background : bool;
  handling_preserveScroll : VisitPreserveOption;
  handling_preserveState : VisitPreserveOption;
  handling_preserveURL : VisitPreserveOption;
  handling_fragmentName : option string;
  handling_errorBag : string
}.

Definition emitException (ref : VisitRef) (r : State) : State :=
  snd (emit "exception" (Some ref) (visitDetail r ref)
         (Js.get "exception" (eventsOf r ref)) r).

(** The [try] block after the response arrived with a page for a visit
    that is not in the background. *)
Definition applyResponse (ref : VisitRef) (h : Handling) (data : Page)
  (r : State) : Outcome State :=
  let nextPage := withPageVisit data (Some ref) in
  let preserveScroll := resolvePreserveOption (handling_preserveScroll h) nextPage in
  let preserveState := resolvePreserveOption (handling_preserveState h) nextPage in
  let location := handling_location h in
  let nextPage' :=
    if negb (Str.isEmpty (loc_hash location))
       && Str.isEmpty (loc_hash (page_location nextPage))
       && String.eqb (loc_href location) (loc_href (page_location nextPage))
    then withLocation nextPage
           (withHash (page_location nextPage) (loc_hash location))
    else nextPage in
  bindOutcome
    (setPage nextPage'
       (mkSetPageOptions (handling_replace h) preserveScroll preserveState
          (resolvePreserveOption (handling_preserveURL h) nextPage')
          (handling_fragmentName h))
       r)
    (fun set =>
       let r1 := fst set in
       match page r1 with
       | None => Throws "TypeError: Cannot read properties of undefined (reading 'properties')"
       | Some current =>
           let errors := errorsOf current in
           if 0 <? keyCount errors
           then
             Returns
               (snd (emit "error" (Some ref)
                       (mkDetail (visitOf r1 ref) None
                          (Some (scopedErrors r1 (handling_errorBag h) errors)))
                       (Js.get "error" (eventsOf r1 ref)) r1))
           else
             Returns
               (snd (emit "success" (Some ref)
                       (mkDetail (visitOf r1 ref) (Some current) None)
                       (Js.get "success" (eventsOf r1 ref)) r1))
       end).

(** [try { ... } catch (error) { ... }] of [visit], once the request has
    ended.  An exception thrown while the page is set is caught with the
    router as it was before that call. *)
Definition handleResult (ref : VisitRef) (h : Handling) (result : AxiosResult)
  (r : State) : Outcome State :=
  match result with
  | Fulfilled response =>
      if negb (handling_background h) then
        if negb (isNavigareResponse response) then Returns (emitException ref r)
        else
          match response_data response with
          | None => Returns (emitException ref r)
          | Some data =>
              match applyResponse ref h data r with
              | Returns r1 => Returns r1
              | Throws _ => Returns (emitException ref r)
              | OutOfFuel => OutOfFuel
              end
          end
      else
        Returns
          (snd (emit "success" (Some ref)
                  (mkDetail (visitOf r ref) (page r) None)
                  (Js.get "success" (eventsOf r ref)) r))
  | RejectedWithResponse response =>
      if isNavigareResponse response then
        match response_data response with
        | Some data =>
            match setPageDetached data noSetPageOptions r with
            | Returns r1 => Returns r1
            | Throws _ => Returns r
            | OutOfFuel => OutOfFuel
            end
        | None => Returns r
        end
      else if isRedirectResponse response then
        let redirectHref :=
          headerText (getHeader (response_headers response) "x-navigare-location") in
        if Str.isEmpty redirectHref
        then Throws "X-Navigare-Location header is missing in response"
        else
          bindOutcome (createLocation redirectHref r)
            (fun redirectLocation =>
               let location := handling_location h in
               let redirectLocation' :=
                 if negb (Str.isEmpty (loc_hash location))
                    && Str.isEmpty (loc_hash redirectLocation)
                    && String.eqb (loc_href location) (loc_href redirectLocation)
                 then withHash redirectLocation (loc_hash location)
                 else redirectLocation in
               Returns
                 (redirect redirectLocation'
                    (match handling_preserveScroll h with
                     | PreserveBool true => true
                     | _ => false
                     end)
                    r))
      else if handling_background h then
        Returns
          (snd (emit "error" (Some ref)
                  (mkDetail (visitOf r ref) None (Some []))
                  (Js.get "error" (eventsOf r ref)) r))
      else
        let '(shown, r1) :=
          emit "invalid" (Some ref) (visitDetail r ref)
            (Js.get "invalid" (eventsOf r ref)) r in
        let r2 := if truthy shown then record ModalShow r1 else r1 in
        Returns (emitException ref r2)
  | RejectedWithoutResponse => Returns (emitException ref r)
  | RejectedWithOther => Returns (emitException ref r)
  end.

(** What [visit] has resolved before it emits [before]. *)
Record Prepared : Type := mkPrepared {
  prepared_method : RouteMethod;
  prepared_data : VisitData;
  prepared_properties : list string;
  prepared_headers : Js.object Value;
  prepared_events : VisitEvents;
  prepared_handling : Handling
}.

(** The head of [visit]: the routable is resolved, the options get their
    defaults, the visit is created. *)
Definition visitCreate (routable : Routable) (opts : VisitOptions)
  (env : Environment) (r : State) : Outcome (State * VisitRef * Prepared) :=
  let forceFormData := default false (visit_option_forceFormData opts) in
  let queryStringArrayFormat :=
    default Indices (visit_option_queryStringArrayFormat opts) in
  bindOutcome
    (resolveRoutable routable
       (default (DataRecord []) (visit_option_data opts))
       (mkResolveOptions (visit_option_method opts) (Some forceFormData)
          (Some queryStringArrayFormat))
       r)
    (fun resolution =>
  let '(r0, resolved) := resolution in
  let location := resolved_location resolved in
  let method := resolved_method resolved in
  let data := resolved_data resolved in
  let routeOptions := resolved_options resolved in
  let preserveScroll :=
    default (PreserveBool false) (visit_option_preserveScroll opts) in
  let preserveState :=
    default (PreserveBool false) (visit_option_preserveState opts) in
  let preserveURL :=
    default (PreserveBool false) (visit_option_preserveURL opts) in
  let replace := default false (visit_option_replace opts) in
  let properties :=
    default (default [] (route_properties routeOptions))
      (visit_option_properties opts) in
  let headers :=
    default (default [] (route_headers routeOptions))
      (visit_option_headers opts) in
  let errorBag := default "" (visit_option_errorBag opts) in
  let events := default [] (visit_option_events opts) in
  let background := default false (visit_option_background opts) in
  let '(ref, r1) :=
    allocate
      (createVisit (env_random env)
         (mkPartialVisit location (Some method) (Some data) (Some replace)
            (Some background) (Some preserveScroll) (Some preserveState)
            (Some properties) (Some headers) (Some errorBag)
            (Some forceFormData) (Some queryStringArrayFormat) (Some events)))
      r0 in
  Returns
    (r1, ref,
     mkPrepared method data properties headers events
       (mkHandling location replace background preserveScroll preserveState
          preserveURL (visit_option_fragmentName opts) errorBag))).

(** The request and what follows it.  The calls that were not awaited
    resume when [visit] itself awaits: after [start] is dispatched and
    while the request is in flight. *)
Definition visitSettle (ref : VisitRef) (prepared : Prepared)
  (env : Environment) (r : State) : Outcome State :=
  let h := prepared_handling prepared in
  let r1 := drain r in
  let r2 :=
    record
      (AxiosRequest ref (prepared_method prepared)
         (loc_href (handling_location h)) (prepared_data prepared)
         (requestHeaders r1 (prepared_headers prepared)
            (prepared_properties prepared) (handling_errorBag h)))
      r1 in
  let r3 := drain r2 in
  bindOutcome (handleResult ref h (env_result env) r3)
    (fun r4 => Returns (finishVisit ref r4)).

(** [visit(routable, options)], from the call to the end of its promise,
    with nothing else running in between: no other call of the router
    while the visit awaits its events or its request. *)
Definition visit (routable : Routable) (opts : VisitOptions)
  (env : Environment) (r : State) : Outcome (State * VisitRef) :=
  bindOutcome (visitCreate routable opts env r)
    (fun created =>
       let '(r1, ref, prepared) := created in
       let '(proceed, r2) :=
         emit "before" (Some ref) (visitDetail r1 ref)
           (Js.get "before" (prepared_events prepared)) r1 in
       if negb (truthy proceed) then Returns (r2, ref)
       else
         bindOutcome (visitActivate ref r2)
           (fun r3 =>
              bindOutcome (visitSettle ref prepared env (visitStart ref r3))
                (fun r4 => Returns (r4, ref)))).

(** [reload(options)] *)
Definition reload (opts : VisitOptions) (env : Environment) (r : State)
  : Outcome (State * VisitRef) :=
  match location r with
  | None => Throws "TypeError: Cannot read properties of undefined (reading 'location')"
  | Some current =>
      visit (RoutableString (loc_href current))
        (mkVisitOptions (visit_option_method opts) (visit_option_data opts)
           (Some true) (visit_option_background opts)
           (Some (PreserveBool true)) (Some (PreserveBool true))
           (visit_option_preserveURL opts) (visit_option_fragmentName opts)
           (visit_option_properties opts) (visit_option_headers opts)
           (visit_option_errorBag opts) (visit_option_events opts)
           (visit_option_forceFormData opts)
           (visit_option_queryStringArrayFormat opts))
        env r
  end.

(** [await back(fallback)]; outside a browser there is no [history]. *)
Definition back (fallback : option Routable) (env : Environment) (r : State)
  : Outcome State :=
  let historyBack :=
    if window_isSSR (window r)
    then Throws "ReferenceError: history is not defined"
    else Returns (record HistoryBack r) in
  if (Z.of_nat (pageIndex r) - 1 <? 0)%Z then
    match fallback with
    | Some routable =>
        bindOutcome (visit routable noVisitOptions env r)
          (fun visited => Returns (fst visited))
    | None => historyBack
    end
  else historyBack.

(** *** The constructor *)

(** The events the emitter is created with; [cancelable] where given. *)
Definition routerEvents : Js.object (EventConfig) :=
  [("before", mkEventConfig (Some true));
   ("cancel", mkEventConfig (Some true));
   ("error", mkEventConfig None);
   ("exception", mkEventConfig (Some true));
   ("finish", mkEventConfig None);
   ("navigate", mkEventConfig None);
   ("progress", mkEventConfig None);
   ("start", mkEventConfig None);
   ("success", mkEventConfig None)].

(** [this.on(name, listener)] *)
Definition on (name : string) (listener : option (Listener Detail)) (r : State)
  : State :=
  match listener with
  | Some l => setEmitter (Utilities.on (emitter r) name l) r
  | None => r
  end.

(** [this.off(name, listener)] *)
Definition off (name : string) (listener : Listener Detail) (r : State)
  : State :=
  setEmitter (Utilities.off (emitter r) name (Some listener)) r.

(** The listener that logs exceptions: it returns nothing. *)
Definition logException : Listener Detail :=
  mkListener 0 (fun _ => (VUndefined, false)).

(** [new Router(options)]: the initial visit is created and made active,
    the initial page is set, the listeners of the options are attached.
    [id] is the random id of the initial visit. *)
Definition construct (opts : RouterOptions) (initialPage : Page)
  (listeners : Js.object (Listener Detail)) (win : Window) (id : string)
  : Outcome State :=
  let empty :=
    mkState opts ∅ None [] 0 (createEmitter routerEvents) win [] [] [] in
  let '(ref, r1) :=
    allocate
      (createVisit id
         (mkPartialVisit (page_location initialPage) None None None None None
            None None None None None None None))
      empty in
  let r2 := setActiveVisit (Some ref) r1 in
  bindOutcome
    (setPageDetached (withPageVisit initialPage (Some ref)) noSetPageOptions r2)
    (fun r3 =>
       Returns
         (on "exception" (Some logException)
            (fold_left
               (fun r name => on name (Js.get name listeners) r)
               ["before"; "start"; "progress"; "navigate"; "finish"; "cancel";
                "success"; "error"; "invalid"; "exception"]
               r3))).


(** *** [restoreScrollPositions], [handlePopstateEvent], [remember] *)

(** [restoreScrollPositions]: the regions of the document take the
    positions the current page holds, index by index; a region without a
    position stays where it is.  Outside a browser there is no
    [document]. *)
Definition restoreScrollPositions (r : State) : Outcome State :=
  match page r with
  | None =>
      Throws "TypeError: Cannot read properties of undefined (reading 'scrollRegions')"
  | Some current =>
      match page_scrollRegions current with
      | None => Returns r
      | Some positions =>
          if window_isSSR (window r)
          then Throws "ReferenceError: document is not defined"
          else
            Returns
              (setWindow
                 (mkWindow (window_isSSR (window r)) (window_href (window r))
                    (window_hash (window r))
                    (imap
                       (fun index region => default region (positions !! index))
                       (window_scrollRegions (window r))))
                 r)
      end
  end.

(** [safeParse(event.state)] as far as the handler reads it: the id of
    the visit of the page of the history entry, when that page has a
    visit. *)
Record HistoryState : Type := mkHistoryState {
  state_visitId : option string
}.

(** [this.internalPages.findIndex((page) => page.visit.id ===
    nextPage.visit.id)], from [index] on: [findIndex] calls the function
    on holes too. *)
Fixpoint findPageIndex (r : State) (nextPage : HistoryState) (index : nat)
  (stack : Js.array Page) : Outcome (option nat) :=
  match stack with
  | [] => Returns None
  | None :: _ =>
      Throws "TypeError: Cannot read properties of undefined (reading 'visit')"
  | Some candidate :: rest =>
      match page_visit candidate ≫= visitOf r with
      | None =>
          Throws "TypeError: Cannot read properties of undefined (reading 'id')"
      | Some candidateVisit =>
          match state_visitId nextPage with
          | None =>
              Throws "TypeError: Cannot read properties of undefined (reading 'id')"
          | Some id =>
              if String.eqb (visit_id candidateVisit) id
              then Returns (Some index)
              else findPageIndex r nextPage (S index) rest
          end
      end
  end.

(** [handlePopstateEvent(event)], with [safeParse(event.state)] as
    [state].  The boolean of the result says whether
    [window.location.reload()] was called. *)
Definition handlePopstateEvent (state : option HistoryState) (r : State)
  : Outcome (State * bool) :=
  match state with
  | None =>
      if window_isSSR (window r)
      then Throws "ReferenceError: history is not defined"
      else Returns (record HistoryBack r, false)
  | Some nextPage =>
      let r1 :=
        match activeVisit r ≫= visitOf r with
        | Some active => cancelVisitDetached (visit_id active) true r
        | None => r
        end in
      bindOutcome (findPageIndex r1 nextPage 0 (internalPages r1))
        (fun nextPageIndex =>
           bindOutcome
             (match nextPageIndex with
              | None =>
                  if window_isSSR (window r1)
                  then Throws "ReferenceError: window is not defined"
                  else Returns (r1, true)
              | Some index =>
                  bindOutcome (restoreScrollPositions (setPageIndex index r1))
                    (fun r2 => Returns (r2, false))
              end)
             (fun moved =>
                let '(r2, reloaded) := moved in
                match page r2 with
                | None =>
                    Throws "TypeError: Cannot read properties of undefined (reading 'visit')"
                | Some current =>
                    Returns
                      (snd (emit "navigate" (page_visit current)
                              (mkDetail (page_visit current ≫= visitOf r2)
                                 (Some current) None)
                              None r2),
                       reloaded)
                end))
  end.

(** [remember(data, key)] *)
Definition remember (data : Value) (key : string) (r : State) : Outcome State :=
  match page r with
  | None =>
      Throws "TypeError: Cannot read properties of undefined (reading 'rememberedState')"
  | Some current =>
      Returns
        (replaceState
           (withRememberedState current
              (Some
                 (Js.set key (cloneDeep data)
                    (default [] (page_rememberedState current)))))
           false r)
  end.

End Router.

(** ** Pages as shared objects

    The getters [page], [previousPage] and [pages] hand page objects to
    the caller.  Here a page is an object in a store, its members are
    primitive values or references to further objects, and the router
    holds references. *)

Module Objects.

Abbreviation Address := nat.

Inductive Cell : Type :=
| Primitive (value : Value)
| Reference (address : Address).

Abbreviation Store := (gmap Address (Js.object Cell)).

Record Router : Type := mkRouter {
  store : Store;
  internalPages : Js.array Address;
  pageIndex : nat
}.

Definition internalPage (r : Router) : option Address :=
  Js.at_ (Z.of_nat (pageIndex r)) (internalPages r).

(** [get page()] *)
Definition page (r : Router) : option Address :=
  Utilities.clonePage (internalPage r).

Definition internalPreviousPage (r : Router) : option Address :=
  Js.at_ (Z.of_nat (pageIndex r) - 1) (internalPages r).

(** [get previousPage()] *)
Definition previousPage (r : Router) : option Address :=
  Utilities.clonePage (internalPreviousPage r).

(** [{ ...clonePage(page), obsolete: index > this.pageIndex }]: a new
    object with the own properties of the page. *)
Definition snapshot (r : Router) (index : nat) (σ : Store) (page : Address)
  : Address * Store :=
  let copy :=
    Js.set "obsolete" (Primitive (VBool (pageIndex r <? index)))
      (default [] (σ !! Utilities.clonePage page)) in
  let address := fresh (dom σ) in
  (address, <[address := copy]> σ).

Fixpoint snapshots (r : Router) (index : nat) (pages : Js.array Address)
  (σ : Store) : Js.array Address * Store :=
  match pages with
  | [] => ([], σ)
  | None :: rest =>
      let '(copies, σ') := snapshots r (S index) rest σ in
      (None :: copies, σ')
  | Some page :: rest =>
      let '(copy, σ1) := snapshot r index σ page in
      let '(copies, σ2) := snapshots r (S index) rest σ1 in
      (Some copy :: copies, σ2)
  end.

(** [get pages()] *)
Definition pages (r : Router) : Js.array Address * Store :=
  snapshots r 0 (internalPages r) (store r).

(** The object reached from [start] along the members [path]. *)
Fixpoint follow (σ : Store) (start : Address) (path : list string)
  : option Address :=
  match path with
  | [] => Some start
  | member :: rest =>
      match σ !! start ≫= Js.get member with
      | Some (Reference next) => follow σ next rest
      | _ => None
      end
  end.

(** What a caller does to an object it was given:
    [object.path.key = value]. *)
Record Mutation : Type := mkMutation {
  mutation_path : list string;
  mutation_key : string;
  mutation_value : Cell
}.

Definition mutate (m : Mutation) (object : Address) (σ : Store) : Store :=
  match follow σ object (mutation_path m) with
  | Some target =>
      alter (Js.set (mutation_key m) (mutation_value m)) target σ
  | None => σ
  end.

(** The page objects the router holds, as they are in a store. *)
Definition internalObjects (r : Router) (σ : Store)
  : list (option (Js.object Cell)) :=
  map (fun slot => slot ≫= (σ !!.)) (internalPages r).

End Objects.

(** ** Vocabulary of the statements *)

(** [value.k1.k2...]: the member reached along a path of keys. *)
Fixpoint memberAt (path : list string) (value : Value) : option Value :=
  match path with
  | [] => Some value
  | key :: rest =>
      match value with
      | VObject fields => Js.get key fields ≫= memberAt rest
      | _ => None
      end
  end.

(** No two keys of an object on the path are renamed to the same key. *)
Fixpoint distinctAlong (rename : string -> string) (path : list string)
  (value : Value) : bool :=
  match path with
  | [] => true
  | key :: rest =>
      match value with
      | VObject fields =>
          bool_decide (NoDup (map rename (Js.keys fields)))
          && match Js.get key fields with
             | Some member => distinctAlong rename rest member
             | None => true
             end
      | _ => true
      end
  end.


(** The listeners registered for an event, in registration order. *)
Definition registered {Detail} (control : Utilities.Emitter Detail)
  (name : string) : list (Utilities.Listener Detail) :=
  default [] (Js.get name (Utilities.emitter_all control)).

(** [visitId] is the id of the active visit, and that visit is neither
    completed nor cancelled. *)
Definition pendingActive (r : Router.State) (visitId : string) : Prop :=
  exists ref visit events,
    Router.activeVisit r = Some ref
    /\ Router.visits r !! ref = Some (visit, events)
    /\ Router.visit_id visit = visitId
    /\ Router.visit_completed visit = false
    /\ Router.visit_cancelled visit = false.

(** The fragment that takes the place of [previous]: [next] with the
    properties of [previous] under its own and, on its page, the visit of
    [previous]. *)
Definition carriedOver (previous next : Fragment) (page : FragmentPage)
  : Fragment :=
  Utilities.withPage
    (Utilities.withProperties next
       (Js.spread (fragment_properties previous) (fragment_properties next)))
    (Utilities.withVisit page (fragment_page previous ≫= fp_visit)).

(** [mergeFragments] applied to one incoming map after the other. *)
Definition mergeInOrder (options : Js.object FragmentOptions)
  (start : Fragments) (incoming : list Fragments) : Outcome Fragments :=
  fold_left
    (fun current next =>
       bindOutcome current
         (fun fragments => Utilities.mergeFragments fragments next options))
    incoming (Returns start).

(** The stack of a region; [None] when the region is absent or [null]. *)
Definition stackOf (name : string) (fragments : Fragments)
  : option (list (option Fragment)) :=
  mjoin (Js.get name fragments).

Definition stackSize (name : string) (merged : Outcome Fragments) : option nat :=
  match merged with
  | Returns fragments => option_map length (stackOf name fragments)
  | _ => None
  end.


(** The current index is inside the page stack. *)
Definition indexed (r : Router.State) : Prop :=
  Router.pageIndex r < length (Router.internalPages r).

(** The router after a visit that returned. *)
Definition routerAfter (visited : Outcome (Router.State * VisitRef))
  : option Router.State :=
  match visited with
  | Returns (r, _) => Some r
  | _ => None
  end.

(** A value holds a file: it is a [File] or a [Blob], a [FileList] with a
    file, or an array or object with such a value somewhere inside. *)
Inductive containsFile : Value -> Prop :=
| file_itself file : containsFile (VFile file)
| blob_itself content : containsFile (VBlob content)
| file_in_list file files : containsFile (VFileList (file :: files))
| file_in_array items item :
    item ∈ items -> containsFile item -> containsFile (VArray items)
| file_in_object fields key value :
    (key, value) ∈ fields -> containsFile value ->
    containsFile (VObject fields).

(** The data of a visit holds a file. *)
Definition dataContainsFile (data : VisitData) : Prop :=
  match data with
  | DataRecord record => exists key value, (key, value) ∈ record /\ containsFile value
  | DataForm form => exists key name content, (key, EntryFile name content) ∈ form
  end.

(** The method a call of [resolveRoutable] asks for: the method of the
    route, or the method of the options. *)
Definition requestedMethod (routable : Router.Routable)
  (opts : Router.ResolveOptions) : RouteMethod :=
  match routable with
  | Router.RoutableRoute route => Router.route_method route
  | _ => Utilities.mapRouteMethod (Router.resolve_method opts)
  end.

(** The href a routable stands for at the location [current]. *)
Definition requestedHref (routable : Router.Routable)
  (current : RouterLocation) (opts : Router.ResolveOptions) : string :=
  match routable with
  | Router.RoutableURL href => href
  | Router.RoutableRoute route =>
      Router.route_getHref route current
        (Router.resolve_queryStringArrayFormat opts)
  | Router.RoutableObject getHref =>
      getHref current (Router.resolve_queryStringArrayFormat opts)
  | Router.RoutableString href => href
  end.

(** The data of a visit as form data. *)
Definition formOf (data : VisitData) : FormData :=
  match data with
  | DataRecord record => Utilities.objectToFormData record [] None
  | DataForm form => form
  end.

(** The form data has a file entry. *)
Definition holdsFile (form : FormData) : bool :=
  existsb (fun e => Utilities.isFileEntry (snd e)) form.

(** The pages of the router are in a row without holes, and the index is
    on one of them. *)
Definition wellStacked (r : Router.State) : Prop :=
  Router.pageIndex r < length (Router.internalPages r)
  /\ Forall is_Some (Router.internalPages r).

(** Two routers with the same pages and the same index. *)
Definition samePages (r r' : Router.State) : Prop :=
  Router.internalPages r' = Router.internalPages r
  /\ Router.pageIndex r' = Router.pageIndex r.

(** No event among the effects. *)
Definition silent (effects : list Router.Effect) : Prop :=
  forall name visit snapshot, Router.Emitted name visit snapshot ∉ effects.

(** Only calls of [history.replaceState] among the effects. *)
Definition onlyReplaces (effects : list Router.Effect) : Prop :=
  Forall (fun effect => exists page url, effect = Router.HistoryReplaceState page url)
    effects.

(** A visit is in one of the states of its life: it is not both completed
    and cancelled, and it is interrupted only when it is cancelled. *)
Definition orderly (visit : Router.Visit) : Prop :=
  Router.visit_completed visit && Router.visit_cancelled visit = false
  /\ (Router.visit_interrupted visit = true ->
      Router.visit_cancelled visit = true).

Definition orderlyVisits (r : Router.State) : Prop :=
  forall ref visit events,
    Router.visits r !! ref = Some (visit, events) -> orderly visit.

(** The active visit, when there is one, is a visit the router holds. *)
Definition activeKnown (r : Router.State) : Prop :=
  forall ref, Router.activeVisit r = Some ref -> is_Some (Router.visits r !! ref).

(** Two routers with the same visits and the same active visit. *)
Definition sameVisits (r r' : Router.State) : Prop :=
  Router.visits r' = Router.visits r
  /\ Router.activeVisit r' = Router.activeVisit r.

(** The header names the router sets on a request. *)
Definition protocolHeaders : list string :=
  ["Accept"; "X-Requested-With"; "X-Navigare"; "X-Navigare-Properties";
   "X-Navigare-Error-Bag"; "X-Navigare-Version"].


(** The id of the visit of the page in a slot of the page stack. *)
Definition slotVisitId (r : Router.State) (slot : option Page) : option string :=
  match slot with
  | Some page =>
      match page_visit page ≫= Router.visitOf r with
      | Some visit => Some (Router.visit_id visit)
      | None => None
      end
  | None => None
  end.

(** Every slot of [stack] holds a page of a visit whose id is not [id]. *)
Definition otherVisits (r : Router.State) (id : string)
  (stack : Js.array Page) : Prop :=
  Forall (fun slot => exists other, slotVisitId r slot = Some other /\ other <> id)
    stack.

(** The active visit is [ref], and it is neither completed nor cancelled. *)
Definition pendingVisit (r : Router.State) (ref : VisitRef) : Prop :=
  Router.activeVisit r = Some ref
  /\ exists visit events,
       Router.visits r !! ref = Some (visit, events)
       /\ Router.visit_completed visit = false
       /\ Router.visit_cancelled visit = false.


(** The router after the user scrolled the regions of the document to
    [positions]. *)
Definition scrolledTo (positions : list ScrollPosition) (r : Router.State)
  : Router.State :=
  Router.setWindow
    (Router.mkWindow (Router.window_isSSR (Router.window r))
       (Router.window_href (Router.window r))
       (Router.window_hash (Router.window r)) positions)
    r.


(** The tasks that were pushed, in the order of the calls. *)
Definition pushedTasks {Task} (steps : list (Utilities.QueueStep Task))
  : list Task :=
  omap (fun step =>
          match step with
          | Utilities.Pushes task => Some task
          | Utilities.Runs => None
          end) steps.


(** The priority listeners of an emission in the order they are given:
    none, the one listener, or the members of the array that are not
    [undefined]. *)
Definition priorityListeners {Detail}
  (priority : Utilities.PriorityListeners Detail)
  : list (Utilities.Listener Detail) :=
  match priority with
  | Utilities.NoPriority => []
  | Utilities.OnePriority listener => [listener]
  | Utilities.ManyPriority listeners =>
      flat_map (fun member =>
                  match member with
                  | Some listener => [listener]
                  | None => []
                  end) listeners
  end.


(** An integer-like key: the decimal text of an array index, [0] to
    [2^32 - 2], without leading zeros.  An object lists these keys first,
    in numeric order, whenever they were added; every other key is listed
    in the order it was added. *)
Definition isDigit (c : ascii) : bool :=
  (48 <=? nat_of_ascii c) && (nat_of_ascii c <=? 57).

Fixpoint digitsValue (value : N) (text : string) : option N :=
  match text with
  | EmptyString => Some value
  | String c rest =>
      if isDigit c
      then digitsValue (10 * value + N.of_nat (nat_of_ascii c - 48)) rest
      else None
  end.

Definition isIndexKey (key : string) : bool :=
  match key with
  | EmptyString => false
  | String c rest =>
      match digitsValue 0 key with
      | Some value =>
          (Str.isEmpty rest || negb (Ascii.eqb c "0"))
          && (value <? 4294967295)%N
      | None => false
      end
  end.

(** None of the keys is integer-like: the keys are listed in the order
    they were added. *)
Definition orderedKeys (keys : list string) : Prop :=
  Forall (fun key => isIndexKey key = false) keys.


(** A value of which [cloneDeep] has no clone. *)
Definition uncloneable (value : Value) : bool :=
  match value with
  | VFunction | VBlob _ | VFile _ | VFileList _ => true
  | _ => false
  end.


(** The router a call returned. *)
Definition routerOf (outcome : Outcome Router.State) : option Router.State :=
  match outcome with
  | Returns r => Some r
  | _ => None
  end.






(** *** Plain references

    The hrefs on which the model of the [URL] class is the class itself:
    the parser takes them as they are and never fails. *)

Definition isLowercase (c : ascii) : bool :=
  (97 <=? nat_of_ascii c) && (nat_of_ascii c <=? 122).

Definition isLetter (c : ascii) : bool :=
  isLowercase c || ((65 <=? nat_of_ascii c) && (nat_of_ascii c <=? 90)).

(** A letter, a digit, [-] or [_]. *)
Definition plainChar (c : ascii) : bool :=
  isLetter c || isDigit c || Ascii.eqb c "-" || Ascii.eqb c "_".

Fixpoint allChars (allowed : ascii -> bool) (text : string) : bool :=
  match text with
  | EmptyString => true
  | String c rest => allowed c && allChars allowed rest
  end.

(** A path and query relative to the origin: one leading [/], then plain
    characters and [/], [?], [&], [=]. *)
Definition plainReference (href : string) : bool :=
  Js.startsWith "/" href && negb (Js.startsWith "//" href)
  && allChars
       (fun c =>
          plainChar c || Ascii.eqb c "/" || Ascii.eqb c "?"
          || Ascii.eqb c "&" || Ascii.eqb c "=")
       href.

(** An absolute location: [http://] or [https://], a host of lowercase
    letters, and nothing more or a plain reference. *)
Definition plainAbsolute (href : string) : bool :=
  let plainRest (rest : string) :=
    let '(host, path) := Str.cut "/" rest in
    negb (Str.isEmpty host) && allChars isLowercase host
    && match path with
       | Some p => plainReference (String "/" p)
       | None => true
       end in
  if Js.startsWith "http://" href then plainRest (Str.drop 7 href)
  else if Js.startsWith "https://" href then plainRest (Str.drop 8 href)
  else false.


(** *** Plain query strings

    The paths, keys and values that [URL], [qs] and [lodash.mergewith]
    take and give back as they are: nothing in them is decoded, encoded,
    normalised, dropped or moved. *)

(** The names of the members of [Object.prototype] that start with a
    letter: [qs.parse] drops a key with such a name. *)
Definition prototypeNames : list string :=
  ["constructor"; "hasOwnProperty"; "isPrototypeOf"; "propertyIsEnumerable";
   "toLocaleString"; "toString"; "valueOf"].

(** A key of plain characters that starts with a letter and is not the
    name of a member of [Object.prototype]. *)
Definition plainKey (key : string) : bool :=
  match key with
  | String c _ =>
      isLetter c && allChars plainChar key
      && negb (Js.includes key prototypeNames)
  | EmptyString => false
  end.

(** A path of plain characters and [/] with one leading [/]. *)
Definition plainPath (path : string) : bool :=
  Js.startsWith "/" path && negb (Js.startsWith "//" path)
  && allChars (fun c => plainChar c || Ascii.eqb c "/") path.

(** The text of a value in a query string, for the values that are
    written as they are: a string of plain characters, a whole number
    that a JavaScript number holds exactly, a boolean. *)
Definition queryText (value : Value) : option string :=
  match value with
  | VString text => if allChars plainChar text then Some text else None
  | VNumber n =>
      if (Z.abs n <=? 9007199254740991)%Z && allChars plainChar (pretty n)
      then Some (pretty n)
      else None
  | VBool b => Some (if b then "true" else "false")
  | _ => None
  end.

Definition plainPairs (pairs : list (string * string)) : Prop :=
  Forall (fun pair =>
            plainKey (fst pair) = true /\ allChars plainChar (snd pair) = true)
    pairs.

Definition plainData (data : Js.object Value) : Prop :=
  Forall (fun entry =>
            plainKey (fst entry) = true /\ is_Some (queryText (snd entry)))
    data.

(** The data as pairs of texts. *)
Definition queryPairs (data : Js.object Value) : list (string * string) :=
  map (fun entry => (fst entry, default "" (queryText (snd entry)))) data.

(** The text of one pair: [key=value]. *)
Definition pairText (pair : string * string) : string :=
  fst pair +:+ "=" +:+ snd pair.

(** The text of a query: [key=value] pairs joined by [&]. *)
Definition queryString (pairs : list (string * string)) : string :=
  String.concat "&" (map pairText pairs).

(** The pairs of a query with further pairs merged into them: a key that
    is there keeps its place and takes the new value, and the new keys
    follow in their order. *)
Definition mergedPairs (existing added : list (string * string))
  : list (string * string) :=
  map (fun pair => (fst pair, default (snd pair) (Js.get (fst pair) added)))
    existing
  ++ List.filter (fun pair => negb (Js.has (fst pair) existing)) added.

(** ** Sample data *)

Module Samples.

(** A key transform: mark every key it is given. *)
Definition shout (key : string) : string := "X" +:+ key.

Definition sampleProperties : Properties :=
  [("first_name", VString "Ada");
   ("__errors", VObject [("user_name", VArray [VObject [("a_b", VNull)]])])].

(** A location given by its href alone. *)
Definition locationAt (href : string) : RouterLocation :=
  mkLocation href "" "" "" "" "" "" "" "".

(** A fragment for region [name], rendered by component [component], that
    comes from a page at [href] with visit [visit]. *)
Definition fragmentAt (name component href : string) (visit : VisitRef)
  : Fragment :=
  mkFragment name (mkComponent component (component +:+ ".vue")) []
    (Some (mkFragmentPage (locationAt href) [] (Some visit) None None None None))
    false.

(** The fragment options of [createApp]: [modal: { stacked: true }]. *)
Definition stackedModal : Js.object FragmentOptions :=
  [("modal",
    mkFragmentOptions (OptionValue true) OptionUndefined OptionUndefined
      OptionUndefined)].

(** The same region configured with the [modal] option. *)
Definition legacyModal : Js.object FragmentOptions :=
  [("modal",
    mkFragmentOptions OptionUndefined (OptionValue true) OptionUndefined
      OptionUndefined)].

Definition mainFragment : Fragment := fragmentAt "main" "Home" "http://localhost/home" 1.

Definition modalFragment : Fragment :=
  fragmentAt "modal" "Dialog" "http://localhost/home/edit" 2.

(** A placeholder fragment: [fallback] is set. *)
Definition fallbackAt (name component href : string) (visit : VisitRef)
  : Fragment :=
  mkFragment name (mkComponent component (component +:+ ".vue")) []
    (Some (mkFragmentPage (locationAt href) [] (Some visit) None None None None))
    true.

Definition firstDialog : Fragment := fragmentAt "modal" "A" "http://localhost/a" 1.
Definition secondDialog : Fragment := fragmentAt "modal" "B" "http://localhost/b" 2.
Definition thirdDialog : Fragment := fragmentAt "modal" "C" "http://localhost/c" 3.
Definition fourthDialog : Fragment := fragmentAt "modal" "D" "http://localhost/c" 4.
Definition loadingDialog : Fragment := fallbackAt "modal" "Loading" "http://localhost/b" 2.

(** An incoming fragments map with one fragment for [modal]. *)
Definition onlyModal (fragment : Fragment) : Fragments :=
  [("modal", Some [Some fragment])].

(** A router that holds two pages; each page object refers to its
    location object. *)
Definition sharedStore : Objects.Store :=
  <[0 := [("location", Objects.Reference 2);
          ("layout", Objects.Primitive (VString "app"))]]>
  (<[1 := [("location", Objects.Reference 3);
           ("layout", Objects.Primitive (VString "app"))]]>
  (<[2 := [("href", Objects.Primitive (VString "http://localhost/home"))]]>
  (<[3 := [("href", Objects.Primitive (VString "http://localhost/users"))]]> ∅))).

Definition sharedRouter : Objects.Router :=
  Objects.mkRouter sharedStore [Some 0; Some 1] 1.

(** [snapshot.layout = 'changed'] *)
Definition changeLayout : Objects.Mutation :=
  Objects.mkMutation [] "layout" (Objects.Primitive (VString "changed")).

(** [snapshot.location.href = 'http://localhost/elsewhere'] *)
Definition changeHref : Objects.Mutation :=
  Objects.mkMutation ["location"] "href"
    (Objects.Primitive (VString "http://localhost/elsewhere")).

(** A page at [href] without properties and fragments. *)
Definition pageAt (href : string) : Page :=
  mkPage (locationAt href) [] [] None None None None None None.

(** A browser window that shows [href]. *)
Definition browserAt (href : string) : Router.Window :=
  Router.mkWindow false href "" [].

(** The headers of a response of the protocol. *)
Definition navigareHeaders : Js.object Value := [("x-navigare", VBool true)].

(** A response of the protocol that carries a page. *)
Definition pageResponse (status : Z) (page : Page) : Router.AxiosResponse :=
  Router.mkResponse status navigareHeaders (Some page).

(** [new Router({ initialPage })] in a browser at the home page. *)
Definition freshRouter : Outcome Router.State :=
  Router.construct (Router.mkOptions None None None)
    (pageAt "http://localhost/home") [] (browserAt "http://localhost/home")
    "0.initial".

(** [visit(href, { replace: true })] *)
Definition replaceOptions : Router.VisitOptions :=
  Router.mkVisitOptions None None (Some true) None None None None None None
    None None None None None.

(** A router without pages, as it is before the constructor sets the
    initial page. *)
Definition blankRouter : Router.State :=
  Router.mkState (Router.mkOptions None None None) ∅ None [] 0
    (Utilities.createEmitter Router.routerEvents)
    (browserAt "http://localhost/home") [] [] [].

(** The router of [freshRouter]. *)
Definition homeRouter : Router.State :=
  match freshRouter with
  | Returns r => r
  | _ => blankRouter
  end.

(** The request fails with status 401 and the login page as a page of
    the protocol. *)
Definition loginRequired : Router.Environment :=
  Router.mkEnvironment "0.reload"
    (Router.RejectedWithResponse
       (pageResponse 401 (pageAt "http://localhost/login"))).

(** The request succeeds with the users page. *)
Definition usersArrive : Router.Environment :=
  Router.mkEnvironment "0.users"
    (Router.Fulfilled (pageResponse 200 (pageAt "http://localhost/users"))).

(** The request succeeds with the home page. *)
Definition homeArrives : Router.Environment :=
  Router.mkEnvironment "0.home"
    (Router.Fulfilled (pageResponse 200 (pageAt "http://localhost/home"))).

(** The visit the constructor creates for the initial page. *)
Definition initialVisit : Router.Visit :=
  fst (Router.createVisit "0.initial"
         (Router.mkPartialVisit (locationAt "http://localhost/home") None None
            None None None None None None None None None None)).

(** The router after [visit('http://localhost/users')] succeeded. *)
Definition usersRouter : Router.State :=
  match
    Router.visit (Router.RoutableString "http://localhost/users")
      Router.noVisitOptions usersArrive homeRouter
  with
  | Returns (r, _) => r
  | _ => blankRouter
  end.


(** [new Router({ initialPage })] during server-side rendering: there is
    no [window]. *)
Definition serverRouter : Router.State :=
  match
    Router.construct (Router.mkOptions None None None)
      (pageAt "http://localhost/home") [] (Router.mkWindow true "" "" [])
      "0.initial"
  with
  | Returns r => r
  | _ => blankRouter
  end.

(** [{ file: new Blob(['binary']) }] *)
Definition upload : VisitData := DataRecord [("file", VBlob "binary")].

(** [{ method: 'POST' }] *)
Definition postOptions : Router.ResolveOptions :=
  Router.mkResolveOptions (Some "POST") None None.

(** [visit('/form', { method: 'POST', data: { file } })] *)
Definition uploadOptions : Router.VisitOptions :=
  Router.mkVisitOptions (Some "POST") (Some upload) None None None None None
    None None None None None None None.


(** A property the server defers, and one that was already requested. *)
Definition deferredValue : Value := VObject [("__deferred", VBool true)].

Definition requestedValue : Value :=
  VObject [("__deferred", VBool true); ("__requested", VBool true)].

(** A page with a plain, a deferred and a requested property. *)
Definition deferringPage : Page :=
  mkPage (locationAt "http://localhost/home")
    [("title", VString "Home"); ("users", deferredValue);
     ("posts", requestedValue)]
    [] None None None None None None.


(** [visit(href, { background: true })] *)
Definition backgroundOptions : Router.VisitOptions :=
  Router.mkVisitOptions None None None (Some true) None None None None None
    None None None None None.

(** A listener of [before] that stops the visit. *)
Definition refuse : Utilities.Listener Router.Detail :=
  Utilities.mkListener 1 (fun _ => (VUndefined, true)).

(** [visit(href, { events: { before: refuse } })] *)
Definition refusedOptions : Router.VisitOptions :=
  Router.mkVisitOptions None None None None None None None None None None None
    (Some [("before", refuse)]) None None.


(** The router and the page of
    [setPage(pageAt('http://localhost/users'))] on the home router. *)
Definition usersPushed : Router.State * Page :=
  match
    Router.setPage (pageAt "http://localhost/users") Router.noSetPageOptions
      homeRouter
  with
  | Returns pushed => pushed
  | _ => (blankRouter, pageAt "")
  end.

(** The router and the page of [setPage(pageAt('http://localhost/home'))]
    on the router that went from the home page to the users page. *)
Definition homeAgain : Router.State * Page :=
  match
    Router.setPage (pageAt "http://localhost/home") Router.noSetPageOptions
      usersRouter
  with
  | Returns returned => returned
  | _ => (blankRouter, pageAt "")
  end.


(** The router and the flag of a [popstate] event on the home router,
    with the page of the initial visit as its state. *)
Definition homePopped : Router.State * bool :=
  match
    Router.handlePopstateEvent
      (Some (Router.mkHistoryState (Some "0.initial"))) homeRouter
  with
  | Returns popped => popped
  | _ => (blankRouter, false)
  end.


(** The home router in a document with two scroll regions. *)
Definition scrollingRouter : Router.State :=
  scrolledTo [mkScroll 120 0; mkScroll 0 40] homeRouter.

(** The home router after the scroll positions were saved. *)
Definition scrollSaved : Router.State :=
  match Router.saveScrollPositions scrollingRouter with
  | Returns r => r
  | _ => blankRouter
  end.


(** The router and the visit of [reload()] on the home router. *)
Definition homeReloaded : Router.State * VisitRef :=
  match Router.reload Router.noVisitOptions homeArrives homeRouter with
  | Returns reloaded => reloaded
  | _ => (blankRouter, 0)
  end.

(** [{ sort: 'name' }] *)
Definition sorting : Js.object Value := [("sort", VString "name")].


(** The current page and the page that comes in, for [mergePages]: both
    have the property [count], only the current page has [user]. *)
Definition shownPage : Page :=
  mkPage (locationAt "http://localhost/home")
    [("user", VString "Ada"); ("count", VNumber 1)] [] (Some 0) None None
    None None None.

Definition incomingPage : Page :=
  mkPage (locationAt "http://localhost/users") [("count", VNumber 2)] []
    (Some 1) None None None None None.

(** The pages after [mergePages(shownPage, incomingPage)]. *)
Definition mergedPages : option Page * Page :=
  match Utilities.mergePages (Some shownPage) incomingPage [] with
  | Returns pages => pages
  | _ => (None, incomingPage)
  end.



End Samples.

Import Samples.

(** * Properties of the embedding *)

(** ** Objects *)

Section JsObjects.
Context {V : Type}.
Implicit Types (o : Js.object V) (k : string) (v : V).

Lemma get_set_eq k v o : Js.get k (Js.set k v o) = Some v.
Proof.
  induction o as [|[k' v'] o IH]; simpl.
  - by rewrite String.eqb_refl.
  - destruct (String.eqb k k') eqn:E; simpl; rewrite E; auto.
Qed.

Lemma get_set_ne k k' v o : k <> k' -> Js.get k' (Js.set k v o) = Js.get k' o.
Proof.
  intros Hne. induction o as [|[k0 v0] o IH]; simpl.
  - destruct (String.eqb k' k) eqn:E; auto.
    apply String.eqb_eq in E. congruence.
  - destruct (String.eqb k k0) eqn:E; simpl.
    + apply String.eqb_eq in E. subst k0.
      destruct (String.eqb k' k) eqn:E'; auto.
      apply String.eqb_eq in E'. congruence.
    + by rewrite IH.
Qed.

Lemma get_None_not_in k o : Js.get k o = None <-> k ∉ Js.keys o.
Proof.
  induction o as [|[k' v'] o IH]; simpl.
  - split; [intros _; apply not_elem_of_nil | done].
  - rewrite not_elem_of_cons. simpl. destruct (String.eqb k k') eqn:E.
    + apply String.eqb_eq in E. subst. split; [discriminate | tauto].
    + apply String.eqb_neq in E. rewrite IH. tauto.
Qed.

Lemma get_Some_in k v o : Js.get k o = Some v -> k ∈ Js.keys o.
Proof.
  intros H. destruct (decide (k ∈ Js.keys o)) as [|Hn]; [done|].
  apply get_None_not_in in Hn. congruence.
Qed.

Lemma set_same k v o : Js.get k o = Some v -> NoDup (Js.keys o) -> Js.set k v o = o.
Proof.
  induction o as [|[k' v'] o IH]; simpl; [discriminate|].
  intros Hget Hnd. destruct (String.eqb k k') eqn:E.
  - congruence.
  - f_equal. apply IH; [done|]. by apply NoDup_cons in Hnd as [_ ?].
Qed.

Lemma set_fresh k v o : k ∉ Js.keys o -> Js.set k v o = o ++ [(k, v)].
Proof.
  induction o as [|[k' v'] o IH]; simpl; [done|].
  rewrite not_elem_of_cons. simpl. intros [Hne Hnot].
  destruct (String.eqb k k') eqn:E.
  - apply String.eqb_eq in E. congruence.
  - f_equal. by apply IH.
Qed.

Lemma keys_set k v o :
  Js.keys (Js.set k v o) = if Js.has k o then Js.keys o else Js.keys o ++ [k].
Proof.
  unfold Js.has. induction o as [|[k' v'] o IH]; simpl; [done|].
  destruct (String.eqb k k') eqn:E; simpl; [done|].
  rewrite IH. by destruct (Js.get k o).
Qed.

(** Entries with distinct keys already are an object. *)
Lemma spread_fresh (a b : Js.object V) :
  NoDup (Js.keys a ++ Js.keys b) -> Js.spread a b = a ++ b.
Proof.
  unfold Js.spread. revert a.
  induction b as [|[k v] b IH]; intros a Hnd; simpl.
  - by rewrite app_nil_r.
  - apply NoDup_app in Hnd as (Ha & Hab & Hb). simpl in Hb.
    apply NoDup_cons in Hb as [Hk Hb].
    rewrite set_fresh.
    + rewrite IH; [by rewrite <- app_assoc|].
      unfold Js.keys in *. rewrite map_app. simpl.
      apply NoDup_app. split; [|split; [|done]].
      * apply NoDup_app. split; [done|]. split; [|apply NoDup_singleton].
        intros x Hx. rewrite list_elem_of_singleton. intros ->.
        apply (Hab k Hx). simpl. apply elem_of_cons. by left.
      * intros x Hx Hxb. apply elem_of_app in Hx as [Hx|Hx].
        -- apply (Hab x Hx). simpl. apply elem_of_cons. by right.
        -- apply list_elem_of_singleton in Hx. by subst.
    + intros Hin. apply (Hab k Hin). simpl. apply elem_of_cons. by left.
Qed.

Lemma fromEntries_distinct (entries : list (string * V)) :
  NoDup (Js.keys entries) -> Js.fromEntries entries = entries.
Proof. intros Hnd. unfold Js.fromEntries. by rewrite spread_fresh. Qed.

Lemma get_elem_of k v o : NoDup (Js.keys o) -> (k, v) ∈ o -> Js.get k o = Some v.
Proof.
  induction o as [|[k' v'] o IH]; simpl.
  - intros _ H. by apply elem_of_nil in H.
  - intros Hnd Hin. apply NoDup_cons in Hnd as [Hnot Hnd].
    apply elem_of_cons in Hin as [Heq|Hin].
    + inversion Heq; subst. by rewrite String.eqb_refl.
    + destruct (String.eqb k k') eqn:E; [|by apply IH].
      apply String.eqb_eq in E. subst. exfalso. apply Hnot.
      change k' with (fst (k', v)). by apply list_elem_of_fmap_2.
Qed.

(** [{...a, ...a}] is [a]. *)
Lemma spread_same (a : Js.object V) : NoDup (Js.keys a) -> Js.spread a a = a.
Proof.
  intros Hnd. unfold Js.spread.
  assert (H : forall b, (forall k v, (k, v) ∈ b -> Js.get k a = Some v) ->
            fold_left (fun acc e => Js.set (fst e) (snd e) acc) b a = a).
  { induction b as [|[k v] b IH]; intros Hb; simpl; [done|].
    rewrite set_same; [|apply Hb; apply elem_of_cons; by left|done].
    apply IH. intros k' v' Hin. apply Hb. apply elem_of_cons. by right. }
  apply H. intros k v Hin. by apply get_elem_of.
Qed.

End JsObjects.

(** ** [transformPropertyKeys] *)

Section TransformPropertyKeys.
Variable transform : string -> string.

Lemma transformKey_reserved key :
  Js.startsWith "__" key = true -> Utilities.transformKey transform key = key.
Proof. unfold Utilities.transformKey. by intros ->. Qed.

Lemma transformKey_other key :
  Js.startsWith "__" key = false ->
  Utilities.transformKey transform key = transform key.
Proof. unfold Utilities.transformKey. by intros ->. Qed.

Lemma transformPropertyValue_object fields :
  Utilities.transformPropertyValue transform (VObject fields)
  = VObject (Utilities.transformPropertyKeys fields transform).
Proof.
  unfold Utilities.transformPropertyKeys. simpl. do 2 f_equal.
  induction fields as [|[key v] fields IH]; simpl; [done|]. by rewrite IH.
Qed.

Lemma transformPropertyValue_array items :
  Utilities.transformPropertyValue transform (VArray items) = VArray items.
Proof. done. Qed.

Lemma get_renamed {A B} (rename : string -> string) (g : A -> B)
  (o : Js.object A) key member :
  NoDup (map rename (Js.keys o)) ->
  Js.get key o = Some member ->
  Js.get (rename key) (map (fun e => (rename (fst e), g (snd e))) o)
  = Some (g member).
Proof.
  induction o as [|[k0 v0] o IH]; simpl; [discriminate|].
  intros Hnd Hget. apply NoDup_cons in Hnd as [Hnot Hnd].
  destruct (String.eqb key k0) eqn:E.
  - apply String.eqb_eq in E. subst. rewrite String.eqb_refl. congruence.
  - destruct (String.eqb (rename key) (rename k0)) eqn:E'; [|by apply IH].
    apply String.eqb_eq in E'. exfalso. apply Hnot. rewrite <- E'.
    apply list_elem_of_fmap_2. by eapply get_Some_in.
Qed.

Lemma transformPropertyKeys_get properties key member :
  NoDup (map (Utilities.transformKey transform) (Js.keys properties)) ->
  Js.get key properties = Some member ->
  Js.get (Utilities.transformKey transform key)
    (Utilities.transformPropertyKeys properties transform)
  = Some (Utilities.transformPropertyValue transform member).
Proof.
  intros Hnd Hget. unfold Utilities.transformPropertyKeys.
  rewrite fromEntries_distinct.
  - by apply get_renamed.
  - unfold Js.keys in *. by rewrite map_map in *.
Qed.

Lemma transformPropertyValue_memberAt path : forall value member,
  distinctAlong (Utilities.transformKey transform) path value = true ->
  memberAt path value = Some member ->
  memberAt (map (Utilities.transformKey transform) path)
    (Utilities.transformPropertyValue transform value)
  = Some (Utilities.transformPropertyValue transform member).
Proof.
  induction path as [|key rest IH]; intros value member Hd Hm.
  - simpl in *. congruence.
  - destruct value; try discriminate.
    rewrite transformPropertyValue_object.
    cbn [memberAt distinctAlong map] in *.
    apply andb_true_iff in Hd as [Hnd Hd]. apply bool_decide_eq_true in Hnd.
    destruct (Js.get key fields) as [next|] eqn:Hget; [|discriminate].
    rewrite (transformPropertyKeys_get _ _ _ Hnd Hget). simpl in *.
    by apply IH.
Qed.

End TransformPropertyKeys.

(** C10 as it stands fails: the recursion stops at arrays (the guard
    [!isArray(value)]), so the key [a_b] of an object inside an array is
    not transformed, although it does not start with [__]. *)
Lemma transformPropertyKeys_skips_objects_in_arrays :
  Utilities.transformPropertyKeys
    [("items", VArray [VObject [("a_b", VNull)]])] shout
  = [("Xitems", VArray [VObject [("a_b", VNull)]])]
  /\ Js.startsWith "__" "a_b" = false
  /\ shout "a_b" <> "a_b".
Proof. by repeat split. Qed.

(** C10 (amended).  For every properties object, every transform and
    every path of keys that leads through nested objects to a member of
    the object, the transformed object holds that member under the path
    whose keys are kept when they start with [__] and transformed
    otherwise; this holds at every depth and also below keys that start
    with [__].  The member itself is transformed by the same rule when it
    is an object; when it is an array it is kept as it is, with the keys
    of the objects inside it.  (Keys of one object must stay distinct
    after the renaming; otherwise the later entry replaces the
    earlier.) *)
Theorem transformPropertyKeys_keeps_reserved_keys
  (transform : string -> string) (properties : Properties)
  (path : list string) (member : Value) :
  distinctAlong (Utilities.transformKey transform) path (VObject properties)
    = true ->
  memberAt path (VObject properties) = Some member ->
  let renamed :=
    map (fun key => if Js.startsWith "__" key then key else transform key)
      path in
  let transformed :=
    VObject (Utilities.transformPropertyKeys properties transform) in
  memberAt renamed transformed
  = Some (Utilities.transformPropertyValue transform member)
  /\ (forall fields,
        member = VObject fields ->
        memberAt renamed transformed
        = Some (VObject (Utilities.transformPropertyKeys fields transform)))
  /\ (forall items,
        member = VArray items ->
        memberAt renamed transformed = Some (VArray items)).
Proof.
  intros Hd Hm renamed transformed.
  assert (Hfound : memberAt renamed transformed
                   = Some (Utilities.transformPropertyValue transform member)).
  { subst renamed transformed. rewrite <- transformPropertyValue_object.
    by apply (transformPropertyValue_memberAt transform path). }
  split; [exact Hfound|]. split.
  - intros fields ->. by rewrite Hfound, transformPropertyValue_object.
  - intros items ->. exact Hfound.
Qed.

Lemma transformPropertyKeys_keeps_reserved_keys_witness :
  memberAt ["__errors"; "Xuser_name"]
    (VObject (Utilities.transformPropertyKeys sampleProperties shout))
  = Some (Utilities.transformPropertyValue shout
            (VArray [VObject [("a_b", VNull)]]))
  /\ (forall fields,
        VArray [VObject [("a_b", VNull)]] = VObject fields ->
        memberAt ["__errors"; "Xuser_name"]
          (VObject (Utilities.transformPropertyKeys sampleProperties shout))
        = Some (VObject (Utilities.transformPropertyKeys fields shout)))
  /\ (forall items,
        VArray [VObject [("a_b", VNull)]] = VArray items ->
        memberAt ["__errors"; "Xuser_name"]
          (VObject (Utilities.transformPropertyKeys sampleProperties shout))
        = Some (VArray items)).
Proof.
  exact (transformPropertyKeys_keeps_reserved_keys shout sampleProperties
           ["__errors"; "user_name"] (VArray [VObject [("a_b", VNull)]])
           eq_refl eq_refl).
Defined.

Example transformPropertyKeys_sample :
  Utilities.transformPropertyKeys sampleProperties shout
  = [("Xfirst_name", VString "Ada");
     ("__errors", VObject [("Xuser_name", VArray [VObject [("a_b", VNull)]])])].
Proof. reflexivity. Qed.

(** ** [createEmitter] *)

Section EmitterFacts.
Context {Detail : Type}.
Import Utilities.
Implicit Types (event : CustomEvent Detail) (listener : Listener Detail)
  (control : Emitter Detail).


Lemma on_other control name name' listener :
  name <> name' ->
  registered (on control name listener) name' = registered control name'.
Proof.
  intros Hne. unfold registered, on. simpl.
  destruct (Js.get name (emitter_all control)); simpl; by rewrite get_set_ne.
Qed.




End EmitterFacts.


(** ** [cancelVisit] *)

(** C8.  [cancelVisit(id, interrupt)] returns the router as it is, with
    no event emitted, unless [id] is the id of the active visit and that
    visit is neither completed nor cancelled.  Otherwise the cancel token
    of the visit (when it has one) is cancelled, the visit gets
    [completed = false], [cancelled = true] and [interrupted = interrupt]
    and keeps its other members, [cancel] and then [finish] are emitted
    for it with the visit in that state, and nothing else changes. *)
Theorem cancelVisit_contract (r : Router.State) (visitId : string)
  (interrupt : bool) :
  (~ pendingActive r visitId /\ Router.cancelVisit visitId interrupt r = r)
  \/ (exists ref visit events,
        Router.activeVisit r = Some ref
        /\ Router.visits r !! ref = Some (visit, events)
        /\ Router.visit_id visit = visitId
        /\ Router.visit_completed visit = false
        /\ Router.visit_cancelled visit = false
        /\ let cancelled :=
             Router.mkVisit (Router.visit_id visit)
               (Router.visit_location visit) (Router.visit_method visit)
               (Router.visit_data visit) (Router.visit_replace visit)
               (Router.visit_background visit)
               (Router.visit_preserveScroll visit)
               (Router.visit_preserveState visit)
               (Router.visit_preserveURL visit)
               (Router.visit_properties visit) (Router.visit_headers visit)
               (Router.visit_errorBag visit)
               (Router.visit_forceFormData visit)
               (Router.visit_queryStringArrayFormat visit)
               false true interrupt
               match Router.visit_cancelToken visit with
               | Some _ => Some (Router.mkCancelToken true)
               | None => None
               end in
           let after := <[ref := (cancelled, events)]> (Router.visits r) in
           Router.cancelVisit visitId interrupt r
           = Router.mkState (Router.options r) after (Router.activeVisit r)
               (Router.internalPages r) (Router.pageIndex r)
               (Router.emitter r) (Router.window r)
               (Router.trace r
                  ++ match Router.visit_cancelToken visit with
                     | Some _ => [Router.CancelTokenCancel ref]
                     | None => []
                     end
                  ++ [Router.Emitted "cancel" (Some ref) (fst <$> after);
                      Router.Emitted "finish" (Some ref) (fst <$> after)])
               (Router.microtasks r) (Router.timers r)).
Proof.
  unfold Router.cancelVisit, Router.cancelVisitBegin.
  destruct (Router.activeVisit r) as [ref|] eqn:Hactive.
  2:{ left. split; [|done]. intros (ref & ? & ? & ? & _). congruence. }
  destruct (Router.visits r !! ref) as [[visit events]|] eqn:Hvisit.
  2:{ left. split; [|done]. intros (ref' & ? & ? & ? & ? & _). congruence. }
  destruct (String.eqb (Router.visit_id visit) visitId) eqn:Hid; cbn [negb].
  2:{ left. split; [|done].
      intros (ref' & v' & e' & Ha & Hv & Hi & _).
      apply String.eqb_neq in Hid. congruence. }
  apply String.eqb_eq in Hid.
  destruct (Router.visit_completed visit) eqn:Hcompleted; cbn [orb].
  { left. split; [|done].
    intros (ref' & v' & e' & Ha & Hv & _ & Hc & _). congruence. }
  destruct (Router.visit_cancelled visit) eqn:Hcancelled.
  { left. split; [|done].
    intros (ref' & v' & e' & Ha & Hv & _ & _ & Hc). congruence. }
  right. exists ref, visit, events. repeat split; try done.
  destruct r as [o vs a ps i em w tr ms ts]. cbn in *. subst a.
  destruct (Router.visit_cancelToken visit); destruct interrupt;
    cbn; unfold Router.cancelVisitResume, Router.emit, Router.record;
    cbn; rewrite <- ?app_assoc; reflexivity.
Qed.

(** ** [mergeFragments] *)

Section Uniq.

Lemma includes_elem_of x l : Js.includes x l = true <-> x ∈ l.
Proof.
  unfold Js.includes. rewrite existsb_exists. split.
  - intros (y & Hin & Heq). apply String.eqb_eq in Heq. subst.
    by apply list_elem_of_In.
  - intros Hin. exists x. split; [by apply list_elem_of_In|].
    apply String.eqb_refl.
Qed.

Lemma uniqFrom_spec l : forall seen,
  NoDup (Js.uniqFrom seen l)
  /\ forall x, x ∈ Js.uniqFrom seen l <-> x ∈ l /\ x ∉ seen.
Proof.
  induction l as [|y l IH]; intros seen; simpl.
  - split; [constructor|]. intros x. rewrite elem_of_nil. tauto.
  - destruct (Js.includes y seen) eqn:E.
    + apply includes_elem_of in E. destruct (IH seen) as [Hnd Hin].
      split; [done|]. intros x. rewrite Hin, elem_of_cons.
      split; [tauto|]. intros [[->|H] Hn]; tauto.
    + assert (Hy : y ∉ seen).
      { intros H. apply includes_elem_of in H. congruence. }
      destruct (IH (y :: seen)) as [Hnd Hin]. split.
      * apply NoDup_cons. split; [|done]. rewrite Hin, elem_of_cons. tauto.
      * intros x. rewrite !elem_of_cons, Hin, not_elem_of_cons.
        destruct (decide (x = y)) as [->|Hne]; tauto.
Qed.

Lemma uniq_NoDup l : NoDup (Js.uniq l).
Proof. apply uniqFrom_spec. Qed.

Lemma uniq_elem_of l x : x ∈ Js.uniq l <-> x ∈ l.
Proof.
  unfold Js.uniq. destruct (uniqFrom_spec l []) as [_ H]. rewrite H.
  rewrite elem_of_nil. tauto.
Qed.

End Uniq.

Section MergeFragments.
Import Utilities.
Variables (allCurrentFragments allNextFragments : Fragments).
Variable options : Js.object FragmentOptions.

Local Abbreviation step :=
  (fun allCumulatedFragments name =>
     bindOutcome allCumulatedFragments
       (fun cumulated =>
          mergeRegion allCurrentFragments allNextFragments options cumulated
            name)).

Lemma fold_not_returned names (start : Outcome Fragments) result :
  (forall fragments, start <> Returns fragments) ->
  fold_left step names start <> Returns result.
Proof.
  revert start. induction names as [|n names IH]; intros start Hstart; simpl.
  - apply Hstart.
  - apply IH. intros fragments. destruct start; simpl; try done.
    exfalso. by eapply Hstart.
Qed.

(** An [undefined] result means the region had no entry before. *)
Lemma cumulate_undefined cumulated name :
  cumulate allCurrentFragments allNextFragments options cumulated name
  = Returns None ->
  cumulated = None.
Proof.
  unfold cumulate.
  destruct (firstFragment (Js.get name allNextFragments)); try discriminate.
  - destruct (negb _); [discriminate|]. congruence.
  - destruct cumulated as [[stack|]|]; try discriminate.
    + destruct (mergeStack _ _ _ _ _ _); discriminate.
    + destruct (fragment_fallback fragment); discriminate.
Qed.

(** Each region of the result is the body of the reducer, run once on the
    region as it is in the current fragments. *)
Lemma fold_regions names : forall start result,
  NoDup names ->
  fold_left step names (Returns start) = Returns result ->
  forall name,
    (name ∉ names -> Js.get name result = Js.get name start)
    /\ (name ∈ names ->
        cumulate allCurrentFragments allNextFragments options
          (Js.get name start) name
        = Returns (Js.get name result)).
Proof.
  induction names as [|n names IH]; intros start result Hnd Hfold name.
  - simpl in Hfold. inversion Hfold; subst. split; [done|].
    intros H. by apply elem_of_nil in H.
  - apply NoDup_cons in Hnd as [Hn Hnd]. simpl in Hfold.
    destruct (mergeRegion allCurrentFragments allNextFragments options start n)
      as [next| |] eqn:Hregion.
    2,3: exfalso; revert Hfold; by apply fold_not_returned.
    destruct (IH next result Hnd Hfold name) as [Hout Hin].
    destruct (IH next result Hnd Hfold n) as [Hsame _].
    specialize (Hsame Hn).
    unfold mergeRegion in Hregion.
    destruct (cumulate allCurrentFragments allNextFragments options
                (Js.get n start) n) as [[region|]| |] eqn:Hbody;
      simpl in Hregion; inversion Hregion; subst next; clear Hregion.
    + split.
      * rewrite not_elem_of_cons. intros [Hne Hnot].
        rewrite Hout by done. by apply get_set_ne.
      * rewrite elem_of_cons. intros [->|Hmem].
        -- by rewrite Hbody, Hsame, get_set_eq.
        -- assert (n <> name) by (intros ->; tauto).
           rewrite <- Hin by done. by rewrite get_set_ne.
    + split.
      * rewrite not_elem_of_cons. intros [Hne Hnot]. by apply Hout.
      * rewrite elem_of_cons. intros [->|Hmem].
        -- rewrite Hbody, Hsame.
           by rewrite (cumulate_undefined _ _ Hbody).
        -- by apply Hin.
Qed.

Lemma mergeFragments_region result name :
  mergeFragments allCurrentFragments allNextFragments options = Returns result ->
  name ∈ getKeys allCurrentFragments ++ getKeys allNextFragments ->
  cumulate allCurrentFragments allNextFragments options
    (Js.get name allCurrentFragments) name
  = Returns (Js.get name result).
Proof.
  intros Hmerge Hname. unfold mergeFragments in Hmerge.
  eapply fold_regions in Hmerge as [_ H]; [|apply uniq_NoDup].
  apply H. by apply uniq_elem_of.
Qed.

Lemma mergeFragments_untouched result name :
  mergeFragments allCurrentFragments allNextFragments options = Returns result ->
  name ∉ getKeys allCurrentFragments ++ getKeys allNextFragments ->
  Js.get name result = None.
Proof.
  intros Hmerge Hname. unfold mergeFragments in Hmerge.
  eapply fold_regions in Hmerge as [H _]; [|apply uniq_NoDup].
  rewrite H.
  - apply get_None_not_in. intros Hin. apply Hname.
    apply elem_of_app. by left.
  - by rewrite uniq_elem_of.
Qed.

(** A region without an incoming fragment keeps what it has when [inert]
    resolves to [true], and becomes [null] otherwise. *)
Lemma cumulate_no_incoming cumulated name :
  firstFragment (Js.get name allNextFragments) = NextUndefined ->
  cumulate allCurrentFragments allNextFragments options cumulated name
  = Returns
      (if inertFor allCurrentFragments allNextFragments options name
       then cumulated else Some None).
Proof.
  intros Hnext. unfold cumulate. rewrite Hnext.
  by destruct (inertFor _ _ _ _).
Qed.

(** Without an [inert] option, the default looks at the [modal] option
    of the incoming regions, and at no [stacked] option. *)
Lemma inertFor_default name :
  optionOf options name option_inert = OptionUndefined ->
  inertFor allCurrentFragments allNextFragments options name
  = existsb
      (fun nextFragmentName =>
         resolveOption (mkContext name allCurrentFragments allNextFragments)
           (optionOf options nextFragmentName option_modal) false)
      (Js.keys allNextFragments).
Proof. unfold inertFor. by intros ->. Qed.

End MergeFragments.

Section MergeStack.
Import Utilities.
Variables (lazy : bool) (nextFragment : Fragment).

Lemma sameOptionString_refl a : sameOptionString a a = true.
Proof. destruct a; simpl; [apply String.eqb_refl | done]. Qed.

Lemma replacesPrevious_itself stacked :
  replacesPrevious stacked nextFragment (Some nextFragment) = true.
Proof.
  unfold replacesPrevious. rewrite sameOptionString_refl.
  destruct stacked, (fragment_fallback nextFragment); done.
Qed.

Lemma mergeStack_replace fuel stacked stack index currentFragment :
  stack !! index = Some currentFragment ->
  replacesPrevious stacked nextFragment currentFragment = true ->
  mergeStack (S fuel) stacked lazy nextFragment stack index
  = replaceAt lazy nextFragment currentFragment stack index.
Proof. intros Hlookup Hreplace. cbn [mergeStack]. by rewrite Hlookup, Hreplace. Qed.

(** Entries that are not replaced are passed one by one, each with a push
    of the next fragment. *)
Lemma mergeStack_skip pre : forall done rest fuel,
  Forall (fun current => replacesPrevious true nextFragment current = false) pre ->
  mergeStack (length pre + fuel) true lazy nextFragment (done ++ pre ++ rest)
    (length done)
  = mergeStack fuel true lazy nextFragment
      (done ++ pre ++ rest ++ replicate (length pre) (Some nextFragment))
      (length done + length pre).
Proof.
  induction pre as [|current pre IH]; intros done rest fuel Hpre.
  - simpl. by rewrite app_nil_r, Nat.add_0_r.
  - inversion Hpre as [|? ? Hcurrent Hpre']; subst.
    cbn [length Nat.add mergeStack].
    rewrite lookup_app_r by lia. replace (length done - length done) with 0 by lia.
    cbn [app lookup list_lookup]. rewrite Hcurrent. cbn [negb].
    replace ((done ++ current :: pre ++ rest) ++ [Some nextFragment])
      with ((done ++ [current]) ++ pre ++ (rest ++ [Some nextFragment]))
      by (repeat (rewrite <- app_assoc; simpl); reflexivity).
    replace (S (length done)) with (length (done ++ [current]))
      by (rewrite length_app; simpl; lia).
    rewrite IH by done. f_equal.
    + repeat (rewrite <- app_assoc; simpl). reflexivity.
    + rewrite length_app. simpl. lia.
Qed.

(** When no entry is replaced, the loop reaches the first copy it
    pushed. *)
Lemma mergeStack_reaches_itself stack :
  stack <> [] ->
  Forall (fun current => replacesPrevious true nextFragment current = false) stack ->
  mergeStack (S (length stack)) true lazy nextFragment stack 0
  = replaceAt lazy nextFragment (Some nextFragment)
      (stack ++ replicate (length stack) (Some nextFragment)) (length stack).
Proof.
  intros Hne Hall.
  pose proof (mergeStack_skip stack [] [] 1 Hall) as Hskip.
  rewrite Nat.add_1_r in Hskip. cbn [app length Nat.add] in Hskip.
  rewrite app_nil_r in Hskip. rewrite Hskip.
  apply mergeStack_replace; [|apply replacesPrevious_itself].
  rewrite lookup_app_r by lia. replace (length stack - length stack) with 0 by lia.
  by destruct stack.
Qed.

(** A stacked region whose entries all stay: the next fragment ends up
    once, on top. *)
Lemma mergeStack_push stack page :
  stack <> [] ->
  Forall (fun current => replacesPrevious true nextFragment current = false) stack ->
  fragment_page nextFragment = Some page ->
  mergeStack (S (length stack)) true lazy nextFragment stack 0
  = Returns (stack ++ [Some (carriedOver nextFragment nextFragment page)]).
Proof.
  intros Hne Hall Hpage. rewrite mergeStack_reaches_itself by done.
  unfold replaceAt. rewrite !sameOptionString_refl, orb_true_r.
  cbn [withProperties fragment_page]. rewrite Hpage.
  rewrite take_app_length. unfold carriedOver. by rewrite Hpage.
Qed.

(** A stacked region with an entry that is replaced: the stack is cut
    there and the next fragment takes its place. *)
Lemma mergeStack_cut pre currentFragment post :
  Forall (fun current => replacesPrevious true nextFragment current = false) pre ->
  replacesPrevious true nextFragment currentFragment = true ->
  mergeStack (S (length (pre ++ currentFragment :: post))) true lazy nextFragment
    (pre ++ currentFragment :: post) 0
  = replaceAt lazy nextFragment currentFragment
      (pre ++ currentFragment :: post ++ replicate (length pre) (Some nextFragment))
      (length pre).
Proof.
  intros Hpre Hcurrent.
  pose proof (mergeStack_skip pre [] (currentFragment :: post)
                (S (S (length post))) Hpre) as Hskip.
  cbn [app length Nat.add] in Hskip.
  replace (S (length (pre ++ currentFragment :: post)))
    with (length pre + S (S (length post)))
    by (rewrite length_app; simpl; lia).
  rewrite Hskip. apply mergeStack_replace; [|done].
  rewrite lookup_app_r by lia. by replace (length pre - length pre) with 0 by lia.
Qed.

Lemma first_replaced stacked (stack : list (option Fragment)) :
  Forall (fun current => replacesPrevious stacked nextFragment current = false) stack
  \/ exists pre currentFragment post,
       stack = pre ++ currentFragment :: post
       /\ Forall (fun current =>
                    replacesPrevious stacked nextFragment current = false) pre
       /\ replacesPrevious stacked nextFragment currentFragment = true.
Proof.
  induction stack as [|current stack IH]; [by left|].
  destruct (replacesPrevious stacked nextFragment current) eqn:Hcurrent.
  - right. by exists [], current, stack.
  - destruct IH as [Hall|(pre & c & post & -> & Hpre & Hc)].
    + left. by constructor.
    + right. exists (current :: pre), c, post. repeat split; [|done].
      by constructor.
Qed.

Lemma replaceAt_finishes currentFragment stack index :
  replaceAt lazy nextFragment currentFragment stack index <> OutOfFuel.
Proof.
  unfold replaceAt. destruct (_ || _); [|done].
  by destruct (fragment_page _).
Qed.

(** The loop ends within the fuel it is given. *)
Lemma mergeStack_finishes stacked stack :
  mergeStack (S (length stack)) stacked lazy nextFragment stack 0 <> OutOfFuel.
Proof.
  destruct (decide (stack = [])) as [->|Hne]; [done|].
  destruct stacked.
  - destruct (first_replaced true stack)
      as [Hall|(pre & c & post & Heq & Hpre & Hc)].
    + rewrite mergeStack_reaches_itself by done. apply replaceAt_finishes.
    + rewrite Heq, mergeStack_cut by done. apply replaceAt_finishes.
  - destruct stack as [|first stack]; [done|].
    rewrite (mergeStack_replace _ false _ _ first); [|done|].
    + apply replaceAt_finishes.
    + unfold replacesPrevious. cbn [negb]. by rewrite orb_true_r.
Qed.

End MergeStack.

Lemma cumulate_finishes (allCurrentFragments allNextFragments : Fragments)
  (options : Js.object FragmentOptions) cumulated name :
  Utilities.cumulate allCurrentFragments allNextFragments options cumulated name
  <> OutOfFuel.
Proof.
  unfold Utilities.cumulate.
  destruct (Utilities.firstFragment _); try done.
  - by destruct (negb _).
  - destruct cumulated as [[stack|]|]; try done.
    + pose proof (mergeStack_finishes
                    (Utilities.lazyFor allCurrentFragments allNextFragments
                       options name)
                    fragment
                    (Utilities.stackedFor allCurrentFragments
                       allNextFragments options name)
                    stack) as Hstack.
      by destruct (Utilities.mergeStack _ _ _ _ _ _).
    + by destruct (fragment_fallback fragment).
Qed.

(** [mergeFragments] returns or throws; its loops never run out of fuel. *)
Lemma mergeFragments_finishes (allCurrentFragments allNextFragments : Fragments)
  (options : Js.object FragmentOptions) :
  Utilities.mergeFragments allCurrentFragments allNextFragments options
  <> OutOfFuel.
Proof.
  unfold Utilities.mergeFragments.
  generalize (Js.uniq
                (Utilities.getKeys allCurrentFragments
                 ++ Utilities.getKeys allNextFragments)).
  assert (H : forall names start,
             start <> OutOfFuel ->
             fold_left
               (fun allCumulatedFragments name =>
                  bindOutcome allCumulatedFragments
                    (fun cumulated =>
                       Utilities.mergeRegion allCurrentFragments
                         allNextFragments options cumulated name))
               names start <> OutOfFuel).
  { induction names as [|n names IH]; intros start Hstart; [done|].
    cbn [fold_left]. apply IH.
    destruct start as [fragments| |]; cbn [bindOutcome]; try done.
    unfold Utilities.mergeRegion.
    pose proof (cumulate_finishes allCurrentFragments allNextFragments options
                  (Js.get n fragments) n) as Hbody.
    destruct (Utilities.cumulate _ _ _ _ _) as [[region|]| |];
      cbn [bindOutcome]; done. }
  intros names. by apply H.
Qed.

(** ** Inert regions *)

(** C2.  With the region [main] populated and the region [modal]
    configured as [stacked: true], an incoming map that holds only a
    [modal] fragment does not leave [main] as it is: [main] becomes
    [null].  The default of [inert] reads the [modal] option of the
    incoming regions, which this configuration does not set. *)
Theorem mergeFragments_stacked_modal_clears_main :
  Utilities.mergeFragments [("main", Some [Some mainFragment])]
    (onlyModal modalFragment) stackedModal
  = Returns [("main", None); ("modal", Some [Some modalFragment])].
Proof. reflexivity. Qed.

(** The same merge keeps [main] when the region is configured with the
    [modal] option. *)
Example mergeFragments_modal_option_keeps_main :
  Utilities.mergeFragments [("main", Some [Some mainFragment])]
    (onlyModal modalFragment) legacyModal
  = Returns [("main", Some [Some mainFragment]);
             ("modal", Some [Some modalFragment])].
Proof. reflexivity. Qed.

(** A region without an incoming fragment: kept when [inert] resolves to
    [true], [null] when it resolves to [false]. *)
Lemma mergeFragments_no_incoming
  (allCurrentFragments allNextFragments : Fragments)
  (options : Js.object FragmentOptions) (result : Fragments) (name : string) :
  Utilities.mergeFragments allCurrentFragments allNextFragments options
  = Returns result ->
  name ∈ Js.keys allCurrentFragments ->
  Utilities.firstFragment (Js.get name allNextFragments)
  = Utilities.NextUndefined ->
  Js.get name result
  = if Utilities.inertFor allCurrentFragments allNextFragments options name
    then Js.get name allCurrentFragments
    else Some None.
Proof.
  intros Hmerge Hname Hnext.
  pose proof (mergeFragments_region _ _ _ result name Hmerge) as Hregion.
  rewrite cumulate_no_incoming in Hregion by done.
  assert (Hin : name ∈ Utilities.getKeys allCurrentFragments
                       ++ Utilities.getKeys allNextFragments).
  { apply elem_of_app. by left. }
  specialize (Hregion Hin). by inversion Hregion.
Qed.

(** ** Stacked regions *)

Lemma carriedOver_itself (fragment : Fragment) (page : FragmentPage) :
  NoDup (Js.keys (fragment_properties fragment)) ->
  fragment_page fragment = Some page ->
  carriedOver fragment fragment page = fragment.
Proof.
  intros Hnd Hpage. unfold carriedOver. rewrite spread_same by done.
  destruct fragment as [n c ps pg fb]. simpl in *. subst pg.
  unfold Utilities.withPage, Utilities.withProperties, Utilities.withVisit.
  simpl. by destruct page.
Qed.

Lemma sameOptionString_differs (a b : string) :
  a <> b -> Utilities.sameOptionString (Some a) (Some b) = false.
Proof. intros H. simpl. by apply String.eqb_neq. Qed.

Lemma replacesPrevious_elsewhere (next current : Fragment)
  (nextPage currentPage : FragmentPage) :
  fragment_fallback next = false ->
  fragment_page next = Some nextPage ->
  fragment_page current = Some currentPage ->
  loc_href (fp_location currentPage) <> loc_href (fp_location nextPage) ->
  Utilities.replacesPrevious true next (Some current) = false.
Proof.
  intros Hfallback Hnext Hcurrent Hne. unfold Utilities.replacesPrevious.
  rewrite Hfallback. cbn [andb orb negb]. unfold Utilities.locationOf.
  rewrite Hnext, Hcurrent. by apply sameOptionString_differs.
Qed.

(** C3 (counterexample).  Three incoming fragments with pairwise distinct
    locations, merged one after the other into an empty stacked region:
    when the second is a fallback it replaces the stack, and the region
    ends with two entries, not three. *)
Lemma stacked_region_fallback_replaces_stack :
  stackSize "modal"
    (mergeInOrder stackedModal []
       [onlyModal firstDialog; onlyModal loadingDialog; onlyModal thirdDialog])
  = Some 2.
Proof. reflexivity. Qed.

(** A region that holds an empty array is passed over by the loop and
    stays empty, whatever comes in. *)
Example stacked_region_empty_array_stays_empty :
  Utilities.mergeFragments [("modal", Some [])] (onlyModal firstDialog)
    stackedModal
  = Returns [("modal", Some [])].
Proof. reflexivity. Qed.

(** C3 (amended).  For a region that resolves [stacked = true] and that
    has no entry or is [null], and for incoming fragments that are not
    fallbacks and carry their page: merging three fragments with pairwise
    distinct locations one after the other yields the stack of the three
    in submission order, and merging a fourth whose location is that of
    the top entry yields a stack of three whose top is the fourth
    fragment, carrying over the properties and the visit of the entry it
    replaces. *)
Theorem stacked_region_grows_then_replaces_top
  (options : Js.object FragmentOptions) (name : string)
  (start in1 in2 in3 in4 r1 r2 r3 r4 : Fragments)
  (f1 f2 f3 f4 : Fragment) (p1 p2 p3 p4 : FragmentPage) :
  (forall current next, Utilities.stackedFor current next options name = true) ->
  Js.get name start = None \/ Js.get name start = Some None ->
  Utilities.firstFragment (Js.get name in1) = Utilities.NextIs f1 ->
  Utilities.firstFragment (Js.get name in2) = Utilities.NextIs f2 ->
  Utilities.firstFragment (Js.get name in3) = Utilities.NextIs f3 ->
  Utilities.firstFragment (Js.get name in4) = Utilities.NextIs f4 ->
  fragment_page f1 = Some p1 -> fragment_page f2 = Some p2 ->
  fragment_page f3 = Some p3 -> fragment_page f4 = Some p4 ->
  fragment_fallback f1 = false -> fragment_fallback f2 = false ->
  fragment_fallback f3 = false -> fragment_fallback f4 = false ->
  NoDup (Js.keys (fragment_properties f2)) ->
  NoDup (Js.keys (fragment_properties f3)) ->
  loc_href (fp_location p1) <> loc_href (fp_location p2) ->
  loc_href (fp_location p1) <> loc_href (fp_location p3) ->
  loc_href (fp_location p2) <> loc_href (fp_location p3) ->
  loc_href (fp_location p4) = loc_href (fp_location p3) ->
  Utilities.mergeFragments start in1 options = Returns r1 ->
  Utilities.mergeFragments r1 in2 options = Returns r2 ->
  Utilities.mergeFragments r2 in3 options = Returns r3 ->
  Utilities.mergeFragments r3 in4 options = Returns r4 ->
  stackOf name r3 = Some [Some f1; Some f2; Some f3]
  /\ stackOf name r4 = Some [Some f1; Some f2; Some (carriedOver f3 f4 p4)].
Proof.
  intros Hstacked Hstart Hin1 Hin2 Hin3 Hin4 Hp1 Hp2 Hp3 Hp4 Hf1 Hf2 Hf3 Hf4
    Hnd2 Hnd3 H12 H13 H23 H43 Hm1 Hm2 Hm3 Hm4.
  assert (Hkey : forall incoming fragment,
             Utilities.firstFragment (Js.get name incoming)
             = Utilities.NextIs fragment ->
             forall current : Fragments,
               name ∈ Utilities.getKeys current ++ Utilities.getKeys incoming).
  { intros incoming fragment Hfirst current. apply elem_of_app. right.
    destruct (Js.get name incoming) eqn:Hget; [by eapply get_Some_in|].
    discriminate. }
  (* first merge *)
  pose proof (mergeFragments_region _ _ _ _ name Hm1 (Hkey _ _ Hin1 _)) as Hr1.
  unfold Utilities.cumulate in Hr1. rewrite Hin1 in Hr1.
  assert (Hs1 : Js.get name r1 = Some (Some [Some f1])).
  { destruct Hstart as [Hs|Hs]; rewrite Hs in Hr1.
    - by inversion Hr1.
    - rewrite Hf1 in Hr1. by inversion Hr1. }
  (* second merge *)
  pose proof (mergeFragments_region _ _ _ _ name Hm2 (Hkey _ _ Hin2 _)) as Hr2.
  unfold Utilities.cumulate in Hr2. rewrite Hin2, Hs1, Hstacked in Hr2.
  rewrite (mergeStack_push _ _ _ p2) in Hr2; [|done| |done].
  2:{ repeat constructor. by eapply replacesPrevious_elsewhere. }
  rewrite carriedOver_itself in Hr2 by done.
  assert (Hs2 : Js.get name r2 = Some (Some [Some f1; Some f2]))
    by (by inversion Hr2).
  (* third merge *)
  pose proof (mergeFragments_region _ _ _ _ name Hm3 (Hkey _ _ Hin3 _)) as Hr3.
  unfold Utilities.cumulate in Hr3. rewrite Hin3, Hs2, Hstacked in Hr3.
  rewrite (mergeStack_push _ _ _ p3) in Hr3; [|done| |done].
  2:{ repeat constructor; by eapply replacesPrevious_elsewhere. }
  rewrite carriedOver_itself in Hr3 by done.
  assert (Hs3 : Js.get name r3 = Some (Some [Some f1; Some f2; Some f3]))
    by (by inversion Hr3).
  (* fourth merge *)
  pose proof (mergeFragments_region _ _ _ _ name Hm4 (Hkey _ _ Hin4 _)) as Hr4.
  unfold Utilities.cumulate in Hr4. rewrite Hin4, Hs3, Hstacked in Hr4.
  assert (Hsame : Utilities.sameOptionString
                    (Utilities.locationOf (Some f3))
                    (Utilities.locationOf (Some f4)) = true).
  { unfold Utilities.locationOf. rewrite Hp3, Hp4. simpl.
    apply String.eqb_eq. congruence. }
  change [Some f1; Some f2; Some f3]
    with ([Some f1; Some f2] ++ Some f3 :: []) in Hr4.
  rewrite mergeStack_cut in Hr4.
  2:{ repeat constructor; eapply replacesPrevious_elsewhere; eauto; congruence. }
  2:{ unfold Utilities.replacesPrevious. rewrite Hsame.
      cbn [andb negb orb]. by rewrite orb_true_r. }
  unfold Utilities.replaceAt in Hr4. rewrite Hsame, orb_true_r in Hr4.
  cbn [Utilities.withProperties fragment_page] in Hr4. rewrite Hp4 in Hr4.
  cbn [take app length] in Hr4.
  assert (Hs4 : Js.get name r4
                = Some (Some [Some f1; Some f2; Some (carriedOver f3 f4 p4)])).
  { inversion Hr4 as [Hget]. unfold carriedOver. by rewrite Hp3. }
  unfold stackOf. by rewrite Hs3, Hs4.
Qed.

Lemma stacked_region_grows_then_replaces_top_witness :
  stackOf "modal"
    [("modal", Some [Some firstDialog; Some secondDialog; Some thirdDialog])]
  = Some [Some firstDialog; Some secondDialog; Some thirdDialog]
  /\ stackOf "modal"
       [("modal",
         Some [Some firstDialog; Some secondDialog;
               Some (carriedOver thirdDialog fourthDialog
                       (mkFragmentPage (locationAt "http://localhost/c") []
                          (Some 4) None None None None))])]
     = Some [Some firstDialog; Some secondDialog;
             Some (carriedOver thirdDialog fourthDialog
                     (mkFragmentPage (locationAt "http://localhost/c") []
                        (Some 4) None None None None))].
Proof.
  apply (stacked_region_grows_then_replaces_top stackedModal "modal" []
           (onlyModal firstDialog) (onlyModal secondDialog)
           (onlyModal thirdDialog) (onlyModal fourthDialog)
           [("modal", Some [Some firstDialog])]
           [("modal", Some [Some firstDialog; Some secondDialog])]
           _ _
           firstDialog secondDialog thirdDialog fourthDialog
           (mkFragmentPage (locationAt "http://localhost/a") [] (Some 1)
              None None None None)
           (mkFragmentPage (locationAt "http://localhost/b") [] (Some 2)
              None None None None)
           (mkFragmentPage (locationAt "http://localhost/c") [] (Some 3)
              None None None None)
           (mkFragmentPage (locationAt "http://localhost/c") [] (Some 4)
              None None None None));
    try reflexivity; try (by left); try constructor; try discriminate.
Defined.

(** ** Page snapshots *)

Section Snapshots.
Import Objects.

Lemma snapshots_spec (r : Router) (pages : Js.array Address) :
  forall index σ copies σ',
    snapshots r index pages σ = (copies, σ') ->
    length copies = length pages
    /\ (forall address, is_Some (σ !! address) -> σ' !! address = σ !! address)
    /\ (forall copy, Some copy ∈ copies -> σ !! copy = None)
    /\ (forall i, pages !! i = Some None -> copies !! i = Some None)
    /\ (forall i page,
          pages !! i = Some (Some page) -> is_Some (σ !! page) ->
          exists copy,
            copies !! i = Some (Some copy)
            /\ σ' !! copy
               = Some (Js.set "obsolete"
                         (Primitive (VBool (pageIndex r <? index + i)))
                         (default [] (σ !! page)))).
Proof.
  induction pages as [|[page|] pages IH]; intros index σ copies σ' Hrun.
  - simpl in Hrun. inversion Hrun; subst. repeat split; try done.
    intros copy H. by apply elem_of_nil in H.
  - cbn [snapshots] in Hrun. unfold snapshot in Hrun.
    set (address := fresh (dom σ)) in *.
    assert (Hfresh : σ !! address = None).
    { apply not_elem_of_dom. apply is_fresh. }
    destruct (snapshots r (S index) pages _) as [rest σ2] eqn:Hrest.
    inversion Hrun; subst copies σ'. clear Hrun.
    destruct (IH _ _ _ _ Hrest) as (Hlen & Hkeep & Hnew & Hholes & Hcopies).
    assert (Hold : forall a, is_Some (σ !! a) -> a <> address).
    { intros a [x Hx] ->. congruence. }
    repeat split.
    + simpl. by rewrite Hlen.
    + intros a Ha. rewrite Hkeep.
      * apply lookup_insert_ne. intros <-. by apply (Hold address).
      * rewrite lookup_insert_ne; [done|]. intros <-. by apply (Hold address).
    + intros copy Hcopy. apply elem_of_cons in Hcopy as [Heq|Hcopy].
      * by inversion Heq.
      * specialize (Hnew copy Hcopy).
        destruct (decide (address = copy)) as [<-|Hne]; [done|].
        by rewrite lookup_insert_ne in Hnew.
    + intros [|i] Hi; [discriminate|]. simpl in *. by apply Hholes.
    + intros [|i] page' Hi Hpage; simpl in *.
      * inversion Hi; subst page'. exists address. split; [done|].
        rewrite Hkeep; [|rewrite lookup_insert_eq; by eexists].
        rewrite lookup_insert_eq. unfold Utilities.clonePage.
        by rewrite Nat.add_0_r.
      * destruct (Hcopies i page' Hi) as (copy & Hc & Hcontent).
        { rewrite lookup_insert_ne; [done|]. intros <-.
          by apply (Hold address). }
        exists copy. split; [done|]. rewrite Hcontent.
        rewrite lookup_insert_ne by (intros <-; by apply (Hold address)).
        repeat f_equal; lia.
  - cbn [snapshots] in Hrun.
    destruct (snapshots r (S index) pages σ) as [rest σ2] eqn:Hrest.
    inversion Hrun; subst copies σ'. clear Hrun.
    destruct (IH _ _ _ _ Hrest) as (Hlen & Hkeep & Hnew & Hholes & Hcopies).
    repeat split.
    + simpl. by rewrite Hlen.
    + done.
    + intros copy Hcopy. apply elem_of_cons in Hcopy as [Heq|Hcopy];
        [discriminate|]. by apply Hnew.
    + intros [|i] Hi; [done|]. simpl in *. by apply Hholes.
    + intros [|i] page' Hi Hpage; [discriminate|]. simpl in *.
      destruct (Hcopies i page' Hi Hpage) as (copy & Hc & Hcontent).
      exists copy. split; [done|]. rewrite Hcontent.
      repeat f_equal; lia.
Qed.

End Snapshots.

(** C1 (counterexample).  The object that [page] returns is the page the
    router holds: after the caller assigns [layout] on it, the router's
    own pages are no longer what they were. *)
Lemma page_snapshot_is_the_internal_page :
  exists snapshot,
    Objects.page sharedRouter = Some snapshot
    /\ Objects.internalObjects sharedRouter
         (Objects.mutate changeLayout snapshot (Objects.store sharedRouter))
       <> Objects.internalObjects sharedRouter (Objects.store sharedRouter).
Proof.
  exists 1. split; [reflexivity|]. intros H. vm_compute in H. discriminate.
Qed.

(** [previousPage] hands out the previous internal page in the same way. *)
Example previousPage_snapshot_is_the_internal_page :
  Objects.previousPage sharedRouter = Some 0
  /\ Objects.internalObjects sharedRouter
       (Objects.mutate changeLayout 0 (Objects.store sharedRouter))
     <> Objects.internalObjects sharedRouter (Objects.store sharedRouter).
Proof. split; [reflexivity|]. intros H. vm_compute in H. discriminate. Qed.

(** An element of [pages] is a copy of the page object only: the objects
    the page refers to are shared, and an assignment inside them reaches
    the router's page. *)
Example pages_snapshot_shares_nested_objects :
  let '(copies, σ) := Objects.pages sharedRouter in
  exists copy,
    copies !! 0 = Some (Some copy)
    /\ Objects.mutate changeHref copy σ !! 2
       = Some [("href", Objects.Primitive (VString "http://localhost/elsewhere"))].
Proof. vm_compute. exists 4. split; reflexivity. Qed.

(** C1 (amended).  [page] and [previousPage] return the page objects the
    router holds, not copies.  [pages] returns a new array of new objects,
    one for each internal page, with the members of that page and the
    [obsolete] flag; every object that existed before stays as it was when
    [pages] is read and when the caller assigns a member of one of the
    returned objects. *)
Theorem pages_are_shallow_copies (r : Objects.Router) :
  Objects.page r = Objects.internalPage r
  /\ Objects.previousPage r = Objects.internalPreviousPage r
  /\ length (fst (Objects.pages r)) = length (Objects.internalPages r)
  /\ (forall i page,
        Objects.internalPages r !! i = Some (Some page) ->
        is_Some (Objects.store r !! page) ->
        exists copy,
          fst (Objects.pages r) !! i = Some (Some copy)
          /\ Objects.store r !! copy = None
          /\ snd (Objects.pages r) !! copy
             = Some (Js.set "obsolete"
                       (Objects.Primitive (VBool (Objects.pageIndex r <? i)))
                       (default [] (Objects.store r !! page))))
  /\ (forall copy key value address,
        Some copy ∈ fst (Objects.pages r) ->
        is_Some (Objects.store r !! address) ->
        Objects.mutate (Objects.mkMutation [] key value) copy
          (snd (Objects.pages r)) !! address
        = Objects.store r !! address).
Proof.
  split; [done|]. split; [done|].
  unfold Objects.pages.
  destruct (Objects.snapshots r 0 (Objects.internalPages r) (Objects.store r))
    as [copies σ'] eqn:Hrun.
  destruct (snapshots_spec _ _ _ _ _ _ Hrun)
    as (Hlen & Hkeep & Hnew & Hholes & Hcopies).
  cbn [fst snd]. split; [done|]. split.
  - intros i page Hi Hpage.
    destruct (Hcopies i page Hi Hpage) as (copy & Hc & Hcontent).
    exists copy. split; [done|]. split; [|done].
    apply Hnew. by eapply list_elem_of_lookup_2.
  - intros copy key value address Hcopy Haddress.
    unfold Objects.mutate. cbn.
    rewrite lookup_alter_ne.
    + by apply Hkeep.
    + intros <-. specialize (Hnew copy Hcopy). destruct Haddress. congruence.
Qed.

Lemma pages_are_shallow_copies_witness :
  Objects.mutate changeLayout 4 (snd (Objects.pages sharedRouter)) !! 0
  = Objects.store sharedRouter !! 0.
Proof.
  destruct (pages_are_shallow_copies sharedRouter) as (_ & _ & _ & _ & H).
  apply (H 4 "layout" (Objects.Primitive (VString "changed")) 0).
  - vm_compute. apply elem_of_cons. by left.
  - vm_compute. by eexists.
Defined.

(** ** The trace of a visit *)

(** The equation of a call that returned, taken apart. *)
Ltac returned :=
  let Hreturned := fresh "Hreturned" in
  intros Hreturned; inversion Hreturned; subst; clear Hreturned.

Section Trace.
Import Router.

(** The router only ever adds to its trace. *)
Definition grows (r r' : State) : Prop := trace r `prefix_of` trace r'.

#[local] Instance grows_preorder : PreOrder grows.
Proof.
  split.
  - intros r. unfold grows. reflexivity.
  - intros a b c Hab Hbc. unfold grows in *. by etrans.
Qed.

Lemma grows_same_trace r r' : trace r' = trace r -> grows r r'.
Proof. unfold grows. by intros ->. Qed.

Lemma grows_record e r : grows r (record e r).
Proof. unfold grows. simpl. by apply prefix_app_r. Qed.

Lemma grows_emit name visit details listener r :
  grows r (snd (emit name visit details listener r)).
Proof. apply grows_record. Qed.



Lemma grows_replaceState page preserveURL r :
  grows r (replaceState page preserveURL r).
Proof.
  unfold replaceState, grows. repeat case_match; simpl; try reflexivity;
    by apply prefix_app_r.
Qed.


Lemma grows_saveScrollPositions r r' :
  saveScrollPositions r = Returns r' -> grows r r'.
Proof.
  unfold saveScrollPositions. repeat case_match; returned.
  - reflexivity.
  - apply grows_replaceState.
Qed.

Lemma grows_resetScrollPositions r r' :
  resetScrollPositions r = Returns r' -> grows r r'.
Proof.
  unfold resetScrollPositions. case_match.
  - returned. reflexivity.
  - apply grows_saveScrollPositions.
Qed.

Lemma grows_setPageDeferred r : grows r (setPageDeferred r).
Proof.
  unfold setPageDeferred. repeat case_match; by apply grows_same_trace.
Qed.

Lemma grows_setPageNavigate r : grows r (setPageNavigate r).
Proof. apply grows_emit. Qed.








End Trace.

(** ** Interrupting the active visit *)

Section Interruption.
Import Router.




Lemma resolveRoutable_state routable data opts r r0 resolved :
  resolveRoutable routable data opts r = Returns (r0, resolved) ->
  r0 = r \/ r0 = record ConsoleWarn r.
Proof.
  unfold resolveRoutable.
  destruct (location r) as [current|]; [|discriminate].
  destruct (Str.isEmpty _); [discriminate|].
  destruct (match data with
            | DataRecord source => _
            | DataForm _ => data
            end) as [source|form].
  - destruct (createLocation _ _); cbn [bindOutcome]; try discriminate.
    returned. destruct routable; auto.
  - destruct (createLocation _ _); cbn [bindOutcome]; try discriminate.
    returned. destruct routable; auto.
Qed.

Lemma visitCreate_spec routable opts env r r1 ref prepared :
  visitCreate routable opts env r = Returns (r1, ref, prepared) ->
  exists r0 visit,
    (r0 = r \/ r0 = record ConsoleWarn r)
    /\ ref = fresh (dom (visits r))
    /\ r1 = setVisits (<[ref := (visit, prepared_events prepared)]> (visits r0)) r0
    /\ visit_background visit = default false (visit_option_background opts)
    /\ visit_completed visit = false
    /\ visit_cancelled visit = false
    /\ handling_replace (prepared_handling prepared)
       = default false (visit_option_replace opts)
    /\ handling_background (prepared_handling prepared)
       = default false (visit_option_background opts).
Proof.
  unfold visitCreate.
  destruct (resolveRoutable _ _ _ r) as [[r0 resolved]| |] eqn:Hresolve;
    cbn [bindOutcome]; try discriminate.
  apply resolveRoutable_state in Hresolve.
  unfold allocate, createVisit. returned.
  eexists r0, _. split; [exact Hresolve|]. split.
  { by destruct Hresolve as [->| ->]. }
  split; [reflexivity|]. by repeat split.
Qed.





End Interruption.


(** The router interrupts the active visit only: a visit that was stopped
    by its [before] listener is neither completed nor cancelled, but it
    never became the active visit, and the next visit leaves it as it
    is. *)
Example stopped_visit_is_not_interrupted :
  exists r1 r2,
    Router.visit (Router.RoutableString "http://localhost/login")
      refusedOptions homeArrives homeRouter
    = Returns (r1, 1)
    /\ Router.visit_completed <$> Router.visitOf r1 1 = Some false
    /\ Router.visit_cancelled <$> Router.visitOf r1 1 = Some false
    /\ Router.visit_background <$> Router.visitOf r1 1 = Some false
    /\ Router.activeVisit r1 = Some 0
    /\ Router.visit (Router.RoutableString "http://localhost/users")
         Router.noVisitOptions usersArrive r1
       = Returns (r2, 2)
    /\ (exists snapshot,
           Router.Emitted "start" (Some 2) snapshot ∈ Router.trace r2)
    /\ Router.visit_cancelled <$> Router.visitOf r2 1 = Some false
    /\ Router.visit_interrupted <$> Router.visitOf r2 1 = Some false.
Proof.
  eexists _, _. split; [vm_compute; reflexivity|].
  do 4 (split; [by vm_compute|]).
  split; [vm_compute; reflexivity|].
  split; [|split; by vm_compute].
  eexists. vm_compute.
  repeat first [apply list_elem_of_here | apply list_elem_of_further].
Qed.



(** The run of the witness: the initial visit ends cancelled and
    interrupted, and its [cancel] comes before the [start] of the new
    visit. *)
Example visit_interrupts_initial_visit :
  Router.visitOf usersRouter 0
  = Some (Router.withLifecycle false true true None initialVisit)
  /\ omap (fun effect =>
             match effect with
             | Router.Emitted name visit _ => Some (name, visit)
             | _ => None
             end)
       (Router.trace usersRouter)
     = [("before", Some 1); ("cancel", Some 0); ("start", Some 1);
        ("finish", Some 0); ("navigate", Some 1); ("success", Some 1);
        ("finish", Some 1)].
Proof. split; vm_compute; reflexivity. Qed.

(** ** The page stack *)

Section PageStack.
Import Router.

(** From a router whose index is inside the stack, the stack keeps its
    length and the index stays. *)
Definition held (r r' : State) : Prop :=
  indexed r ->
  length (internalPages r') = length (internalPages r)
  /\ pageIndex r' = pageIndex r.

#[local] Instance held_preorder : PreOrder held.
Proof.
  split.
  - by intros r _.
  - intros a b c Hab Hbc Ha. destruct (Hab Ha) as [Hlen Hindex].
    destruct Hbc as [Hlen' Hindex'].
    + unfold indexed. rewrite Hlen, Hindex. exact Ha.
    + split; congruence.
Qed.

Lemma held_same r r' :
  internalPages r' = internalPages r -> pageIndex r' = pageIndex r -> held r r'.
Proof. intros Hpages Hindex _. by rewrite Hpages, Hindex. Qed.

Lemma assign_length {A} i (x : A) (a : Js.array A) :
  i < length a -> length (Js.assign i x a) = length a.
Proof.
  intros Hi. unfold Js.assign.
  destruct (i <? length a) eqn:E; [by rewrite length_insert|].
  apply Nat.ltb_ge in E. lia.
Qed.

Lemma held_assign page r :
  held r (setInternalPages (Js.assign (pageIndex r) page (internalPages r)) r).
Proof. intros Hr. simpl. split; [by apply assign_length | done]. Qed.

Lemma held_record e r : held r (record e r).
Proof. by apply held_same. Qed.

Lemma held_replaceState page preserveURL r :
  held r (replaceState page preserveURL r).
Proof.
  unfold replaceState. etrans; [apply (held_assign page)|].
  repeat case_match; by apply held_same.
Qed.

Lemma held_saveScrollPositions r r' :
  saveScrollPositions r = Returns r' -> held r r'.
Proof.
  unfold saveScrollPositions. repeat case_match; returned.
  - reflexivity.
  - apply held_replaceState.
Qed.

Lemma held_resetScrollPositions r r' :
  resetScrollPositions r = Returns r' -> held r r'.
Proof.
  unfold resetScrollPositions. case_match.
  - returned. reflexivity.
  - intros Hsave. apply held_saveScrollPositions in Hsave.
    etrans; [|exact Hsave]. by apply held_same.
Qed.

Lemma held_cancelVisitBegin visitId interrupt r :
  held r (fst (cancelVisitBegin visitId interrupt r)).
Proof.
  unfold cancelVisitBegin.
  destruct (activeVisit r) as [ref|]; [|reflexivity].
  destruct (visits r !! ref) as [[visit events]|]; [|reflexivity].
  destruct (negb _); [reflexivity|].
  destruct (_ || _); [reflexivity|].
  unfold emit. simpl. destruct (visit_cancelToken visit); by apply held_same.
Qed.

Lemma held_cancelVisitDetached visitId interrupt r :
  held r (cancelVisitDetached visitId interrupt r).
Proof.
  unfold cancelVisitDetached.
  pose proof (held_cancelVisitBegin visitId interrupt r) as Hbegin.
  destruct (cancelVisitBegin visitId interrupt r) as [r1 [ref|]];
    simpl in Hbegin; [|done].
  etrans; [exact Hbegin|]. by apply held_same.
Qed.

Lemma held_finishVisit ref r : held r (finishVisit ref r).
Proof.
  unfold finishVisit.
  destruct (visits r !! ref) as [[visit events]|]; [|reflexivity].
  destruct (_ || _); [reflexivity|]. by apply held_same.
Qed.

Lemma held_setPageDeferred r : held r (setPageDeferred r).
Proof. unfold setPageDeferred. repeat case_match; by apply held_same. Qed.

Lemma held_drain r : held r (drain r).
Proof.
  unfold drain.
  assert (H : forall ks r0, held r0 (fold_left (fun r k => resume k r) ks r0)).
  { induction ks as [|k ks IH]; intros r0; simpl; [reflexivity|].
    etrans; [|apply IH]. destruct k; simpl.
    - by apply held_same.
    - apply held_setPageDeferred. }
  etrans; [|apply H]. by apply held_same.
Qed.

Lemma held_visitActivate ref r r' :
  visitActivate ref r = Returns r' -> held r r'.
Proof.
  unfold visitActivate.
  destruct (visitOf r ref) as [visit|]; [|returned; reflexivity].
  destruct (visit_background visit); [returned; reflexivity|].
  match goal with
  | |- bindOutcome (saveScrollPositions ?s) _ = _ -> _ =>
      assert (Hcancel : held r s);
      [|destruct (saveScrollPositions s) as [r2| |] eqn:Hsave;
        cbn [bindOutcome]; try discriminate]
  end.
  { destruct (activeVisit r ≫= visitOf r); [|reflexivity].
    apply held_cancelVisitDetached. }
  returned. etrans; [exact Hcancel|].
  etrans; [by eapply held_saveScrollPositions|]. by apply held_same.
Qed.

(** With [replace], [setPage] puts the page in the place of the current
    one. *)
Lemma held_setPageCommit_replace page opts r r' next initial :
  set_replace opts = true ->
  setPageCommit page opts r = Returns (r', next, initial) -> held r r'.
Proof.
  intros Hreplace. unfold setPageCommit.
  destruct (match page_base page with
            | Some base => _
            | None => Returns page
            end) as [pageWithBase| |]; cbn [bindOutcome]; try discriminate.
  destruct (Utilities.mergePages _ _ _) as [merged| |]; cbn [bindOutcome];
    try discriminate.
  rewrite Hreplace, orb_true_r. cbn [orb].
  match goal with
  | |- bindOutcome (if _ then Returns ?a else resetScrollPositions ?a) _ = _ -> _ =>
      assert (Hcommit : held r a)
  end.
  { etrans; [|apply held_replaceState].
    destruct (fst merged); [apply held_assign | reflexivity]. }
  destruct (set_preserveScroll opts).
  - cbn [bindOutcome]. returned. exact Hcommit.
  - destruct (resetScrollPositions _) as [r2| |] eqn:Hreset;
      cbn [bindOutcome]; try discriminate.
    returned. etrans; [exact Hcommit|].
    by eapply held_resetScrollPositions.
Qed.

Lemma held_setPage_replace page opts r r' next :
  set_replace opts = true ->
  setPage page opts r = Returns (r', next) -> held r r'.
Proof.
  intros Hreplace. unfold setPage.
  destruct (setPageCommit page opts r) as [[[r1 next1] initial]| |] eqn:Hcommit;
    cbn [bindOutcome]; try discriminate.
  returned. apply held_setPageCommit_replace in Hcommit; [|done].
  etrans; [exact Hcommit|]. etrans; [|apply held_setPageDeferred].
  destruct initial; [reflexivity | by apply held_same].
Qed.

Lemma held_applyResponse ref h data r r' :
  handling_replace h = true ->
  applyResponse ref h data r = Returns r' -> held r r'.
Proof.
  intros Hreplace. unfold applyResponse.
  destruct (setPage _ _ r) as [[r1 next]| |] eqn:Hset; cbn [bindOutcome];
    try discriminate.
  apply held_setPage_replace in Hset; [|done]. cbn [fst].
  destruct (page r1) as [current|]; [|discriminate].
  destruct (0 <? keyCount (errorsOf current)); returned;
    (etrans; [exact Hset|]); by apply held_same.
Qed.

(** Every end of the request but an error response that carries a page
    leaves the stack alone when the visit replaces. *)
Lemma held_handleResult ref h result r r' :
  handling_replace h = true ->
  (forall response,
      result = RejectedWithResponse response ->
      isNavigareResponse response = false) ->
  handleResult ref h result r = Returns r' -> held r r'.
Proof.
  intros Hreplace Herror.
  unfold handleResult, emitException, redirect.
  destruct result as [response|response| |].
  - destruct (negb (handling_background h)).
    + destruct (negb (isNavigareResponse response)).
      { returned. by apply held_same. }
      destruct (response_data response) as [data|].
      2:{ returned. by apply held_same. }
      destruct (applyResponse ref h data r) as [r1| |] eqn:Happly;
        returned.
      * by eapply held_applyResponse.
      * by apply held_same.
    + returned. by apply held_same.
  - rewrite (Herror response eq_refl).
    destruct (isRedirectResponse response).
    { destruct (Str.isEmpty _); [discriminate|].
      destruct (createLocation _ r) as [location| |]; cbn [bindOutcome];
        try discriminate.
      returned. by apply held_same. }
    destruct (handling_background h).
    { returned. by apply held_same. }
    destruct (emit "invalid" _ _ _ r) as [shown r1] eqn:Hinvalid.
    returned. unfold emit in Hinvalid. inversion Hinvalid; subst.
    destruct (truthy _); by apply held_same.
  - returned. by apply held_same.
  - returned. by apply held_same.
Qed.

Lemma held_visitSettle ref prepared env r r' :
  handling_replace (prepared_handling prepared) = true ->
  (forall response,
      env_result env = RejectedWithResponse response ->
      isNavigareResponse response = false) ->
  visitSettle ref prepared env r = Returns r' -> held r r'.
Proof.
  intros Hreplace Herror. unfold visitSettle.
  destruct (handleResult _ _ _ _) as [r4| |] eqn:Hresult; cbn [bindOutcome];
    try discriminate.
  returned. apply held_handleResult in Hresult; try done.
  etrans; [apply held_drain|]. etrans; [apply held_record|].
  etrans; [apply held_drain|]. etrans; [exact Hresult|].
  apply held_finishVisit.
Qed.

Lemma held_visit_replace routable opts env r r' ref :
  visit_option_replace opts = Some true ->
  (forall response,
      env_result env = RejectedWithResponse response ->
      isNavigareResponse response = false) ->
  visit routable opts env r = Returns (r', ref) -> held r r'.
Proof.
  intros Hreplace Herror. unfold visit.
  destruct (visitCreate routable opts env r)
    as [[[r1 ref1] prepared]| |] eqn:Hcreate; cbn [bindOutcome];
    try discriminate.
  apply visitCreate_spec in Hcreate
    as (r0 & visitB & Hr0 & _ & Hr1 & _ & _ & _ & Hhandling & _).
  rewrite Hreplace in Hhandling. cbn in Hhandling.
  assert (Hheld1 : held r r1).
  { subst r1. destruct Hr0 as [->| ->]; by apply held_same. }
  unfold emit at 1.
  destruct (truthy _); cbn [negb].
  2:{ returned. etrans; [exact Hheld1|]. by apply held_same. }
  match goal with
  | |- bindOutcome (visitActivate ref1 ?s) _ = _ -> _ =>
      assert (Hheld2 : held r s) by (etrans; [exact Hheld1|]; by apply held_same);
      destruct (visitActivate ref1 s) as [r3| |] eqn:Hactivate;
        cbn [bindOutcome]; try discriminate
  end.
  destruct (visitSettle ref1 prepared env (visitStart ref1 r3))
    as [r4| |] eqn:Hsettle; cbn [bindOutcome]; try discriminate.
  returned.
  apply held_visitActivate in Hactivate.
  apply held_visitSettle in Hsettle; try done.
  etrans; [exact Hheld2|]. etrans; [exact Hactivate|].
  etrans; [|exact Hsettle]. by apply held_same.
Qed.

Lemma pages_length r : length (pages r) = length (internalPages r).
Proof. unfold pages. apply length_imap. Qed.

End PageStack.

(** C5 (counterexample).  The router shows the home page; [visit] with
    [replace: true] to that location ends with an error response that
    carries the login page; the page is set without the options of the
    visit, and the stack has two pages instead of one. *)
Lemma replace_visit_with_error_page_grows_stack :
  loc_href ∘ page_location <$> Router.page homeRouter
  = Some "http://localhost/home"
  /\ length (Router.pages homeRouter) = 1
  /\ option_map
       (fun r =>
          (loc_href ∘ Router.visit_location <$> Router.visitOf r 1,
           Router.visit_replace <$> Router.visitOf r 1,
           Router.visit_completed <$> Router.visitOf r 1,
           length (Router.pages r)))
       (routerAfter
          (Router.visit (Router.RoutableString "http://localhost/home")
             replaceOptions loginRequired homeRouter))
     = Some (Some "http://localhost/home", Some true, Some true, 2).
Proof. repeat split; vm_compute; reflexivity. Qed.

(** C5 (amended).  A visit with [replace: true] leaves the page stack at
    its length and the router at its index, whatever the location, unless
    the request ends with an error response that carries a page of the
    protocol. *)
Theorem replace_visit_keeps_stack_length
  (routable : Router.Routable) (opts : Router.VisitOptions)
  (env : Router.Environment) (r r' : Router.State) (ref : VisitRef) :
  indexed r ->
  Router.visit_option_replace opts = Some true ->
  (forall response,
      Router.env_result env = Router.RejectedWithResponse response ->
      Router.isNavigareResponse response = false) ->
  Router.visit routable opts env r = Returns (r', ref) ->
  length (Router.pages r') = length (Router.pages r)
  /\ Router.pageIndex r' = Router.pageIndex r.
Proof.
  intros Hindexed Hreplace Herror Hvisit. rewrite !pages_length.
  by apply (held_visit_replace routable opts env r r' ref).
Qed.

Lemma replace_visit_keeps_stack_length_witness :
  length
    (Router.pages
       (default blankRouter
          (routerAfter
             (Router.visit (Router.RoutableString "http://localhost/home")
                replaceOptions homeArrives homeRouter))))
  = length (Router.pages homeRouter)
  /\ Router.pageIndex
       (default blankRouter
          (routerAfter
             (Router.visit (Router.RoutableString "http://localhost/home")
                replaceOptions homeArrives homeRouter)))
     = Router.pageIndex homeRouter.
Proof.
  apply (replace_visit_keeps_stack_length
           (Router.RoutableString "http://localhost/home") replaceOptions
           homeArrives homeRouter _ 1).
  - vm_compute. lia.
  - reflexivity.
  - intros response H. vm_compute in H. discriminate.
  - vm_compute. reflexivity.
Defined.

(** ** Data merged into the query string *)

Section QueryString.

Lemma includesChar_app c a b :
  Str.includesChar c (a +:+ b) = Str.includesChar c a || Str.includesChar c b.
Proof.
  induction a as [|c' a IH]; simpl; [done|]. by rewrite IH, orb_assoc.
Qed.

Lemma append_empty s : s +:+ "" = s.
Proof.
  induction s as [|c s IH]; [done|].
  change (String c s +:+ "") with (String c (s +:+ "")). by rewrite IH.
Qed.

Lemma append_head s : "" +:+ s = s.
Proof. reflexivity. Qed.

Lemma cut_absent c s : Str.includesChar c s = false -> Str.cut c s = (s, None).
Proof.
  induction s as [|c' s IH]; simpl; [done|].
  intros H. apply orb_false_elim in H as [Hc Hs].
  by rewrite Hc, (IH Hs).
Qed.

Lemma cut_first c a b :
  Str.includesChar c a = false -> Str.cut c (a +:+ String c b) = (a, Some b).
Proof.
  induction a as [|c' a IH]; simpl.
  - intros _. by rewrite Ascii.eqb_refl.
  - intros H. apply orb_false_elim in H as [Hc Ha].
    by rewrite Hc, (IH Ha).
Qed.

Lemma startsWith_slash path :
  Js.startsWith "/" path = true -> exists rest, path = String "/" rest.
Proof.
  destruct path as [|c rest]; [discriminate|].
  unfold Js.startsWith. cbn [String.prefix].
  destruct (Ascii.ascii_dec "/" c) as [<-|]; [by exists rest | discriminate].
Qed.

Lemma hasHost_slash rest : Url.hasHost (String "/" rest) = false.
Proof. reflexivity. Qed.

Lemma startsWith_slash_self rest : Js.startsWith "/" (String "/" rest) = true.
Proof. by destruct rest. Qed.

Lemma startsWith_other c rest :
  c <> "/"%char -> Js.startsWith (String c "") (String "/" rest) = false.
Proof.
  intros Hc. unfold Js.startsWith. cbn [String.prefix].
  by destruct (Ascii.ascii_dec c "/").
Qed.

(** The search of a URL is what was last assigned to it. *)
Lemma search_setSearch value u u' :
  Url.search (Url.setSearch value u) = Url.search (Url.setSearch value u').
Proof. reflexivity. Qed.

Lemma parse_search query :
  Qs.parse (if Str.isEmpty query then "" else "?" +:+ query)
  = Qs.parse ("?" +:+ query).
Proof. by destruct query. Qed.

Lemma mergeWith_get_other k (existing data : Js.object Value) :
  k ∉ Js.keys data -> Js.get k (Qs.mergeWith existing data) = Js.get k existing.
Proof.
  unfold Qs.mergeWith. revert existing.
  induction data as [|[k' v] data IH]; intros existing; simpl; [done|].
  rewrite not_elem_of_cons. intros [Hne Hnot].
  rewrite IH by done. by apply get_set_ne.
Qed.

Lemma mergeWith_get k v (existing data : Js.object Value) :
  NoDup (Js.keys data) ->
  Js.get k data = Some v ->
  Js.get k (Qs.mergeWith existing data)
  = Some (Qs.mergeValue (Js.get k existing) v).
Proof.
  unfold Qs.mergeWith. revert existing.
  induction data as [|[k' v'] data IH]; intros existing; simpl; [discriminate|].
  intros Hnd. apply NoDup_cons in Hnd as [Hnot Hnd].
  destruct (String.eqb k k') eqn:E.
  - apply String.eqb_eq in E. subst k'. intros [= ->].
    fold (Qs.mergeWith (Js.set k (Qs.mergeValue (Js.get k existing) v) existing) data).
    rewrite mergeWith_get_other by done. apply get_set_eq.
  - apply String.eqb_neq in E. intros Hget.
    rewrite IH by done. rewrite get_set_ne; [done | congruence].
Qed.

Lemma mergeWith_keys (existing data : Js.object Value) :
  Js.keys existing `prefix_of` Js.keys (Qs.mergeWith existing data).
Proof.
  unfold Qs.mergeWith. revert existing.
  induction data as [|[k v] data IH]; intros existing; simpl; [done|].
  etrans; [|apply IH]. rewrite keys_set.
  destruct (Js.has k existing); [done | by apply prefix_app_r].
Qed.

Lemma splitOn_cons sep s : exists part parts, Str.splitOn sep s = part :: parts.
Proof.
  induction s as [|c s (part & parts & IH)]; simpl; [by eexists _, _|].
  destruct (Ascii.eqb c sep); [by eexists _, _|]. rewrite IH. by eexists _, _.
Qed.

Lemma splitOn_absent sep s :
  Str.includesChar sep s = false -> Str.splitOn sep s = [s].
Proof.
  induction s as [|c s IH]; simpl; [done|].
  intros H. apply orb_false_elim in H as [Hc Hs].
  rewrite Ascii.eqb_sym, Hc, (IH Hs). done.
Qed.

Lemma concat_cons sep part (parts : list string) :
  parts <> [] ->
  String.concat sep (part :: parts) = part +:+ sep +:+ String.concat sep parts.
Proof. by destruct parts. Qed.

Lemma append_assoc (a b c : string) : (a +:+ b) +:+ c = a +:+ (b +:+ c).
Proof.
  induction a as [|x a IH]; [done|].
  change (String x ((a +:+ b) +:+ c) = String x (a +:+ (b +:+ c))).
  by rewrite IH.
Qed.

Lemma concat_app sep (front back : list string) :
  front <> [] -> back <> [] ->
  String.concat sep (front ++ back)
  = String.concat sep front +:+ sep +:+ String.concat sep back.
Proof.
  intros Hfront Hback. induction front as [|part front IH]; [done|].
  destruct front as [|part' front].
  - simpl ([part] ++ back). by rewrite concat_cons.
  - change ((part :: part' :: front) ++ back)
      with (part :: (part' :: front) ++ back).
    rewrite !concat_cons by done. rewrite IH by done.
    by rewrite !append_assoc.
Qed.

Lemma splitOn_app sep a b :
  Str.splitOn sep (a +:+ String sep b) = Str.splitOn sep a ++ Str.splitOn sep b.
Proof.
  induction a as [|c a IH].
  - change ("" +:+ String sep b) with (String sep b). simpl.
    by rewrite Ascii.eqb_refl.
  - change (String c a +:+ String sep b) with (String c (a +:+ String sep b)).
    simpl. rewrite IH. destruct (Ascii.eqb c sep); [done|].
    destruct (splitOn_cons sep a) as (part & parts & ->). done.
Qed.

Lemma concat_splitOn sep s :
  String.concat (String sep "") (Str.splitOn sep s) = s.
Proof.
  induction s as [|c s IH]; [done|]. simpl.
  destruct (Ascii.eqb_spec c sep) as [->|_].
  - destruct (splitOn_cons sep s) as (part & parts & Hsplit).
    rewrite concat_cons by (rewrite Hsplit; done). by rewrite IH.
  - destruct (splitOn_cons sep s) as (part & parts & Hsplit).
    rewrite Hsplit in *. destruct parts as [|part' parts].
    + simpl in *. by subst.
    + rewrite concat_cons in IH by done. rewrite concat_cons by done.
      by rewrite <- IH.
Qed.

End QueryString.

(** The href that [mergeDataIntoQueryString] returns for a GET with data
    and an href that is a path followed by a query. *)
Lemma merged_href_shape (path query : string) (data : Js.object Value)
  (format : QueryStringArrayFormat) :
  Js.startsWith "/" path = true ->
  Str.includesChar "?" path = false ->
  Str.includesChar "#" path = false ->
  Str.includesChar "#" query = false ->
  data <> [] ->
  Utilities.merged_href
    (Utilities.mergeDataIntoQueryString GET (path +:+ "?" +:+ query) data format)
  = path
      +:+ Url.search
            (Url.setSearch
               (Qs.stringify format
                  (Qs.mergeWith (Qs.parse ("?" +:+ query)) data))
               Url.localhost).
Proof.
  intros Hslash Hquery Hhash Hhash' Hdata.
  apply startsWith_slash in Hslash as [rest ->].
  unfold Utilities.mergeDataIntoQueryString.
  assert (Hlen : (0 <? length (Js.keys data)) = true)
    by (destruct data; [done | reflexivity]).
  rewrite Hlen.
  assert (Hnohash :
            Str.includesChar "#" (String "/" rest +:+ "?" +:+ query) = false).
  { rewrite includesChar_app, Hhash.
    change ("?" +:+ query) with (String "?" query).
    cbn [Str.includesChar orb]. by rewrite Hhash'. }
  assert (Hparse :
            Url.parse (String "/" rest +:+ "?" +:+ query) Url.localhost
            = Url.mkURL "http:" "localhost" (String "/" rest) (Some query) None).
  { unfold Url.parse.
    rewrite (cut_absent "#") by exact Hnohash.
    change (String "/" rest +:+ "?" +:+ query)
      with (String "/" rest +:+ String "?" query).
    rewrite (cut_first "?" (String "/" rest) query Hquery).
    by rewrite hasHost_slash, startsWith_slash_self. }
  rewrite Hparse, Hnohash.
  change (String "/" rest +:+ "?" +:+ query)
    with (String "/" (rest +:+ "?" +:+ query)).
  rewrite hasHost_slash, startsWith_slash_self.
  rewrite !startsWith_other by discriminate.
  cbn [RouteMethod_eqb andb orb negb].
  rewrite orb_true_r.
  change (Url.search (Url.mkURL "http:" "localhost" (String "/" rest) (Some query) None))
    with (if Str.isEmpty query then "" else "?" +:+ query).
  rewrite parse_search.
  change (RouteMethod_eqb GET GET && true) with true.
  cbn [String.concat Utilities.merged_href Url.pathname Url.setSearch
         String.append].
  by rewrite !append_head, !append_empty.
Qed.

Section PlainQuery.

Lemma allChars_includes allowed c text :
  allChars allowed text = true -> allowed c = false ->
  Str.includesChar c text = false.
Proof.
  intros Hall Hc. induction text as [|c' text IH]; [done|].
  cbn in *. apply andb_true_iff in Hall as [Hc' Hall].
  rewrite IH by done. rewrite orb_false_r.
  destruct (Ascii.eqb_spec c c') as [->|_]; [congruence | done].
Qed.

Lemma allChars_app allowed a b :
  allChars allowed (a +:+ b) = allChars allowed a && allChars allowed b.
Proof.
  induction a as [|c a IH]; [done|].
  change (String c a +:+ b) with (String c (a +:+ b)). cbn.
  by rewrite IH, andb_assoc.
Qed.

Lemma allChars_weaken (allowed allowed' : ascii -> bool) text :
  (forall c, allowed c = true -> allowed' c = true) ->
  allChars allowed text = true -> allChars allowed' text = true.
Proof.
  intros Himpl. induction text as [|c text IH]; [done|]. cbn.
  intros H. apply andb_true_iff in H as [Hc Hall].
  by rewrite (Himpl c Hc), IH.
Qed.

Lemma plainChar_unreserved c : plainChar c = true -> Qs.isUnreserved c = true.
Proof.
  destruct c as [[] [] [] [] [] [] [] []]; vm_compute; congruence.
Qed.

Lemma encode_plain text : allChars plainChar text = true -> Qs.encode text = text.
Proof.
  induction text as [|c text IH]; [done|]. cbn.
  intros H. apply andb_true_iff in H as [Hc Hall].
  by rewrite (plainChar_unreserved c Hc), IH.
Qed.

Lemma plainKey_chars key : plainKey key = true -> allChars plainChar key = true.
Proof.
  destruct key as [|c key]; [done|]. unfold plainKey.
  intros H. apply andb_true_iff in H as [H _].
  by apply andb_true_iff in H as [_ H].
Qed.

Lemma plainKey_head key :
  plainKey key = true ->
  exists c rest, key = String c rest /\ isLetter c = true.
Proof.
  destruct key as [|c key]; [done|]. unfold plainKey.
  intros H. apply andb_true_iff in H as [H _].
  apply andb_true_iff in H as [H _]. by exists c, key.
Qed.

Lemma plainKey_without c key :
  plainKey key = true -> plainChar c = false -> Str.includesChar c key = false.
Proof.
  intros Hkey Hc. eapply allChars_includes; [|exact Hc].
  by apply plainKey_chars.
Qed.

Lemma splitOn_concat sep (parts : list string) :
  parts <> [] ->
  Forall (fun part => Str.includesChar sep part = false) parts ->
  Str.splitOn sep (String.concat (String sep "") parts) = parts.
Proof.
  intros Hparts Hall. induction Hall as [|part parts Hpart Hall IH]; [done|].
  destruct parts as [|next parts].
  - cbn. by apply splitOn_absent.
  - rewrite concat_cons by done.
    change (part +:+ String sep "" +:+ String.concat (String sep "") (next :: parts))
      with (part +:+ String sep (String.concat (String sep "") (next :: parts))).
    rewrite splitOn_app, (splitOn_absent sep part Hpart), IH by done. done.
Qed.

Lemma pairText_without c pair :
  plainKey (fst pair) = true -> allChars plainChar (snd pair) = true ->
  plainChar c = false -> c <> "="%char ->
  Str.includesChar c (pairText pair) = false.
Proof.
  intros Hkey Hvalue Hc Hne. unfold pairText.
  rewrite includesChar_app, (plainKey_without c _ Hkey Hc).
  change ("=" +:+ snd pair) with (String "=" (snd pair)).
  cbn. rewrite (allChars_includes plainChar c _ Hvalue Hc).
  by destruct (Ascii.eqb_spec c "=").
Qed.

Lemma parsePart_pair (obj : Js.object Value) pair :
  plainKey (fst pair) = true ->
  fst pair ∉ Js.keys obj ->
  Qs.parsePart obj (pairText pair) = obj ++ [(fst pair, VString (snd pair))].
Proof.
  intros Hkey Hfresh. unfold Qs.parsePart, pairText.
  change (fst pair +:+ "=" +:+ snd pair)
    with (fst pair +:+ String "=" (snd pair)).
  rewrite cut_first by (by apply plainKey_without).
  cbn [default].
  destruct (plainKey_head _ Hkey) as (c & rest & Hhead & _).
  rewrite Hhead. cbn [Str.isEmpty]. rewrite <- Hhead.
  apply get_None_not_in in Hfresh as Hnone. rewrite Hnone.
  by apply set_fresh.
Qed.

Lemma parseParts_pairs pairs : forall obj : Js.object Value,
  plainPairs pairs ->
  NoDup (Js.keys obj ++ map fst pairs) ->
  fold_left Qs.parsePart (map pairText pairs) obj
  = obj ++ map (fun pair => (fst pair, VString (snd pair))) pairs.
Proof.
  induction pairs as [|pair pairs IH]; intros obj Hplain Hnd.
  - cbn. by rewrite app_nil_r.
  - apply Forall_cons in Hplain as [[Hkey Hvalue] Hplain].
    cbn [map fold_left]. apply NoDup_app in Hnd as (Hobj & Hcross & Hpairs).
    apply NoDup_cons in Hpairs as [Hhead Hpairs].
    rewrite parsePart_pair; [|done|].
    2:{ intros Hin. apply (Hcross _ Hin). apply list_elem_of_here. }
    rewrite IH; [by rewrite <- app_assoc | done |].
    unfold Js.keys. rewrite map_app. cbn [map fst].
    rewrite <- app_assoc. cbn [app]. apply NoDup_app. split; [done|]. split.
    + intros key Hin. apply (Hcross _ Hin).
    + by apply NoDup_cons.
Qed.

Lemma queryString_head pair pairs :
  plainKey (fst pair) = true ->
  exists c rest,
    queryString (pair :: pairs) = String c rest /\ isLetter c = true.
Proof.
  intros Hkey. destruct (plainKey_head _ Hkey) as (c & rest & Hhead & Hc).
  unfold queryString. cbn [map]. destruct (map _ pairs) as [|next texts].
  - cbn. unfold pairText. rewrite Hhead. by eexists _, _.
  - rewrite concat_cons by done. unfold pairText. rewrite Hhead.
    by eexists _, _.
Qed.

Lemma parse_queryString pairs :
  plainPairs pairs -> NoDup (map fst pairs) ->
  Qs.parse ("?" +:+ queryString pairs)
  = map (fun pair => (fst pair, VString (snd pair))) pairs.
Proof.
  intros Hplain Hnd. unfold Qs.parse.
  change ("?" +:+ queryString pairs) with (String "?" (queryString pairs)).
  change (Js.startsWith "?" (String "?" (queryString pairs)))
    with (String.prefix "" (queryString pairs)).
  assert (Hprefix : String.prefix "" (queryString pairs) = true)
    by (by destruct (queryString pairs)).
  rewrite Hprefix. cbn [Str.drop].
  destruct pairs as [|pair pairs]; [done|].
  apply Forall_cons in Hplain as Hsplit. destruct Hsplit as [[Hkey _] _].
  destruct (queryString_head pair pairs Hkey) as (c & rest & Hhead & _).
  rewrite Hhead. cbn [Str.isEmpty]. rewrite <- Hhead.
  unfold queryString.
  rewrite splitOn_concat.
  - by rewrite parseParts_pairs.
  - done.
  - apply Forall_fmap. eapply Forall_impl; [exact Hplain|].
    intros entry [Hk Hv]. by apply pairText_without.
Qed.

Lemma get_app {V} key (a b : Js.object V) :
  Js.get key (a ++ b)
  = match Js.get key a with
    | Some value => Some value
    | None => Js.get key b
    end.
Proof.
  induction a as [|[k v] a IH]; [done|]. cbn.
  by destruct (String.eqb key k).
Qed.

Lemma has_set {V} key k (v : V) (a : Js.object V) :
  Js.has k a = true -> Js.has key (Js.set k v a) = Js.has key a.
Proof.
  unfold Js.has. intros Hk. destruct (decide (k = key)) as [->|Hne].
  - rewrite get_set_eq. by destruct (Js.get key a).
  - by rewrite get_set_ne.
Qed.

(** Where the value of a key is written when the key is there. *)
Lemma set_there {V} k (v : V) (a b : Js.object V) :
  NoDup (Js.keys a) -> k ∈ Js.keys a -> k ∉ Js.keys b ->
  map (fun e => (fst e, default (snd e) (Js.get (fst e) b))) (Js.set k v a)
  = map (fun e => (fst e, default (snd e) (Js.get (fst e) ((k, v) :: b)))) a.
Proof.
  intros Hnd Hin Hfresh. apply get_None_not_in in Hfresh as Hnone.
  induction a as [|[k0 v0] a IH]; [by apply elem_of_nil in Hin|].
  apply NoDup_cons in Hnd as [Hhead Hnd]. cbn [Js.set].
  destruct (String.eqb_spec k k0) as [<-|Hne].
  - cbn [map fst snd Js.get]. rewrite String.eqb_refl, Hnone. cbn [default].
    f_equal. apply map_ext_in. intros [k1 v1] Hin1. cbn [fst snd Js.get].
    destruct (String.eqb_spec k1 k) as [->|_]; [|done].
    exfalso. apply Hhead. apply list_elem_of_fmap. exists (k, v1).
    split; [done|]. by apply list_elem_of_In.
  - cbn [map fst snd Js.get].
    destruct (String.eqb_spec k0 k) as [Heq|_]; [congruence|].
    f_equal. apply IH; [done|].
    apply elem_of_cons in Hin as [Hin|Hin]; [cbn in Hin; congruence | done].
Qed.

Lemma spread_explicit {V} (b : Js.object V) : forall a : Js.object V,
  NoDup (Js.keys a) -> NoDup (Js.keys b) ->
  Js.spread a b
  = map (fun e => (fst e, default (snd e) (Js.get (fst e) b))) a
    ++ List.filter (fun e => negb (Js.has (fst e) a)) b.
Proof.
  unfold Js.spread.
  induction b as [|[k v] b IH]; intros a Ha Hb.
  - cbn. rewrite app_nil_r. induction a as [|[k v] a IHa]; [done|].
    apply NoDup_cons in Ha as [_ Ha]. cbn. f_equal. by apply IHa.
  - apply NoDup_cons in Hb as [Hfresh Hb]. cbn [fst] in Hfresh.
    cbn [fold_left fst snd].
    assert (Hkeys : NoDup (Js.keys (Js.set k v a))).
    { rewrite keys_set. destruct (Js.has k a) eqn:Hhas; [done|].
      apply NoDup_app. split; [done|]. split; [|apply NoDup_singleton].
      intros key Hin Hk. apply list_elem_of_singleton in Hk. subst key.
      apply get_None_not_in in Hin; [done|]. unfold Js.has in Hhas.
      by destruct (Js.get k a). }
    rewrite IH by done. cbn [List.filter fst].
    destruct (Js.has k a) eqn:Hhas; cbn [negb].
    + assert (Hin : k ∈ Js.keys a).
      { unfold Js.has in Hhas. destruct (Js.get k a) eqn:Hget; [|done].
        by eapply get_Some_in. }
      rewrite set_there by done. f_equal.
      apply filter_ext_in. intros [k1 v1] _. cbn [fst]. by rewrite has_set.
    + assert (Hout : k ∉ Js.keys a).
      { apply get_None_not_in. unfold Js.has in Hhas.
        by destruct (Js.get k a). }
      apply get_None_not_in in Hfresh as Hnone.
      rewrite set_fresh by done. rewrite map_app. cbn [map fst snd].
      rewrite Hnone. cbn [default]. rewrite <- app_assoc. cbn [app].
      f_equal.
      * apply map_ext_in. intros [k1 v1] Hin1. cbn [fst snd Js.get].
        destruct (String.eqb_spec k1 k) as [->|_]; [|done].
        exfalso. apply Hout. apply list_elem_of_fmap. exists (k, v1).
        split; [done|]. by apply list_elem_of_In.
      * f_equal. apply filter_ext_in. intros [k1 v1] Hin1. cbn [fst].
        unfold Js.has. rewrite get_app. cbn [Js.get].
        destruct (Js.get k1 a); [done|].
        destruct (String.eqb_spec k1 k) as [->|_]; [|done].
        exfalso. apply Hfresh. apply list_elem_of_fmap. exists (k, v1).
        split; [done|]. by apply list_elem_of_In.
Qed.

Lemma mergeValue_text dst value :
  is_Some (queryText value) -> Qs.mergeValue dst value = value.
Proof. destruct value; by intros [? [=]] || done. Qed.

Lemma mergeWith_spread (data : Js.object Value) : forall object,
  Forall (fun entry => is_Some (queryText (snd entry))) data ->
  Qs.mergeWith object data = Js.spread object data.
Proof.
  unfold Qs.mergeWith, Js.spread.
  induction data as [|[k v] data IH]; intros object Hdata; [done|].
  apply Forall_cons in Hdata as [Hv Hdata]. cbn [fold_left fst snd].
  rewrite (mergeValue_text _ v Hv). by apply IH.
Qed.

Lemma queryPairs_set k v (object : Js.object Value) :
  queryPairs (Js.set k v object)
  = Js.set k (default "" (queryText v)) (queryPairs object).
Proof.
  unfold queryPairs.
  induction object as [|[k0 v0] object IH]; [done|]. cbn.
  destruct (String.eqb k k0); [done|]. cbn. by rewrite IH.
Qed.

Lemma queryPairs_spread (data : Js.object Value) : forall object,
  queryPairs (Js.spread object data)
  = Js.spread (queryPairs object) (queryPairs data).
Proof.
  unfold Js.spread.
  induction data as [|[k v] data IH]; intros object; [done|].
  cbn [fold_left fst snd queryPairs map]. rewrite IH.
  by rewrite queryPairs_set.
Qed.

Lemma queryPairs_strings pairs :
  plainPairs pairs ->
  queryPairs (map (fun pair => (fst pair, VString (snd pair))) pairs) = pairs.
Proof.
  unfold queryPairs.
  induction 1 as [|[k v] pairs [_ Hvalue] _ IH]; [done|].
  cbn in *. by rewrite Hvalue, IH.
Qed.

Lemma set_texts k v (object : Js.object Value) :
  is_Some (queryText v) ->
  Forall (fun entry => is_Some (queryText (snd entry))) object ->
  Forall (fun entry => is_Some (queryText (snd entry))) (Js.set k v object).
Proof.
  intros Hv. induction 1 as [|[k0 v0] object H0 Hrest IH]; cbn.
  - by repeat constructor.
  - destruct (String.eqb k k0); by constructor.
Qed.

Lemma spread_texts (data : Js.object Value) : forall object,
  Forall (fun entry => is_Some (queryText (snd entry))) object ->
  Forall (fun entry => is_Some (queryText (snd entry))) data ->
  Forall (fun entry => is_Some (queryText (snd entry))) (Js.spread object data).
Proof.
  unfold Js.spread.
  induction data as [|[k v] data IH]; intros object Hobject Hdata; [done|].
  apply Forall_cons in Hdata as [Hv Hdata]. cbn [fold_left fst snd].
  apply IH; [|done]. by apply set_texts.
Qed.

Lemma stringifyValue_text format key value text :
  queryText value = Some text ->
  Qs.stringifyValue format key value = [pairText (key, text)].
Proof.
  unfold pairText. cbn [fst snd].
  destruct value as [| |b|n|s| | | | | | |]; try discriminate; cbn.
  - by intros [= <-].
  - destruct (_ && _) eqn:Hn; [|discriminate].
    apply andb_true_iff in Hn as [_ Hn]. intros [= <-].
    by rewrite encode_plain.
  - destruct (allChars plainChar s) eqn:Hs; [|discriminate].
    intros [= <-]. by rewrite encode_plain.
Qed.

Lemma stringify_texts format (object : Js.object Value) :
  Forall (fun entry => is_Some (queryText (snd entry))) object ->
  Qs.stringify format object = queryString (queryPairs object).
Proof.
  intros Hobject. unfold Qs.stringify, queryString. f_equal.
  induction Hobject as [|[k v] object [text Hv] _ IH]; [done|].
  cbn [snd] in Hv. unfold queryPairs in *.
  cbn [flat_map map fst snd].
  rewrite (stringifyValue_text format k v text Hv), Hv. cbn [default app].
  by rewrite IH.
Qed.

Lemma queryString_without c pairs :
  plainPairs pairs -> plainChar c = false -> c <> "="%char -> c <> "&"%char ->
  Str.includesChar c (queryString pairs) = false.
Proof.
  intros Hplain Hc Hequals Hamp. unfold queryString.
  induction Hplain as [|pair pairs [Hkey Hvalue] Hplain IH]; [done|].
  cbn [map]. destruct pairs as [|next pairs].
  - cbn. by apply pairText_without.
  - rewrite concat_cons by done.
    rewrite includesChar_app, (pairText_without c pair Hkey Hvalue Hc Hequals).
    change ("&" +:+ String.concat "&" (map pairText (next :: pairs)))
      with (String "&" (String.concat "&" (map pairText (next :: pairs)))).
    cbn [Str.includesChar orb]. rewrite IH.
    by destruct (Ascii.eqb_spec c "&").
Qed.

Lemma search_assigned text u :
  (exists c rest, text = String c rest /\ isLetter c = true) ->
  Url.search (Url.setSearch text u) = "?" +:+ text.
Proof.
  intros (c & rest & -> & Hc). unfold Url.search, Url.setSearch.
  cbn [Url.query Str.isEmpty]. unfold Js.startsWith. cbn [String.prefix].
  destruct (Ascii.ascii_dec "?" c) as [<-|_]; [discriminate|]. done.
Qed.

Lemma filter_new_of_nothing (added : list (string * string)) :
  List.filter (fun pair => negb (Js.has (fst pair) (@nil (string * string))))
    added
  = added.
Proof.
  induction added as [|pair added IH]; [done|].
  cbn [List.filter]. unfold Js.has at 1. cbn [Js.get negb]. by rewrite IH.
Qed.

Lemma mergedPairs_head existing (data : Js.object Value) :
  plainPairs existing -> plainData data -> data <> [] ->
  exists c rest,
    queryString (mergedPairs existing (queryPairs data)) = String c rest
    /\ isLetter c = true.
Proof.
  intros Hexisting Hdata Hsome. unfold mergedPairs.
  destruct existing as [|pair existing].
  - cbn [map app]. rewrite filter_new_of_nothing.
    destruct data as [|[k v] data]; [done|].
    apply Forall_cons in Hdata as [[Hkey _] _].
    by apply queryString_head.
  - apply Forall_cons in Hexisting as [[Hkey _] _].
    cbn [map app]. by apply queryString_head.
Qed.

End PlainQuery.

(** C6.  For a GET visit with data whose href is a path followed by a
    query string, the data are merged into the query rather than
    replacing it.  Take a path of plain characters, a query of at most
    1000 [key=value] pairs with distinct plain keys and plain values, and
    data with plain keys whose values are plain strings, whole numbers or
    booleans: [mergeDataIntoQueryString] returns the path, [?], and the
    pairs of the query, each in its place and with the value of the data
    when the data have its key, followed by the pairs of the other keys
    of the data in their order; it returns no data, and GET.  At
    ['/users?page=2'] and [{sort: 'name'}] this gives
    ['/users?page=2&sort=name']. *)
Theorem mergeDataIntoQueryString_merges_into_query
  (path : string) (existing : list (string * string))
  (data : Js.object Value) (format : QueryStringArrayFormat) :
  plainPath path = true ->
  plainPairs existing ->
  NoDup (map fst existing) ->
  length existing <= 1000 ->
  data <> [] ->
  plainData data ->
  NoDup (Js.keys data) ->
  Utilities.mergeDataIntoQueryString GET
    (path +:+ "?" +:+ queryString existing) data format
  = Utilities.mkMergedQuery
      (path +:+ "?" +:+ queryString (mergedPairs existing (queryPairs data)))
      [] GET.
Proof.
  intros Hpath Hexisting Hkeys _ Hsome Hdata Hnd.
  unfold plainPath in Hpath.
  apply andb_true_iff in Hpath as [Hpath Hchars].
  apply andb_true_iff in Hpath as [Hslash _].
  assert (Htexts : Forall (fun entry => is_Some (queryText (snd entry))) data).
  { eapply Forall_impl; [exact Hdata|]. by intros entry [_ Htext]. }
  assert (Hhref :
            Utilities.merged_href
              (Utilities.mergeDataIntoQueryString GET
                 (path +:+ "?" +:+ queryString existing) data format)
            = path +:+ "?"
                +:+ queryString (mergedPairs existing (queryPairs data))).
  { rewrite merged_href_shape; try done.
    - rewrite parse_queryString by done.
      rewrite mergeWith_spread by done.
      rewrite stringify_texts.
      2:{ apply spread_texts; [|done]. apply Forall_fmap.
          eapply Forall_impl; [exact Hexisting|].
          intros pair [_ Hvalue]. cbn. rewrite Hvalue. by eexists. }
      rewrite queryPairs_spread, queryPairs_strings by done.
      rewrite spread_explicit; [|done|].
      2:{ unfold queryPairs, Js.keys. rewrite map_map. exact Hnd. }
      fold (mergedPairs existing (queryPairs data)).
      by rewrite search_assigned by (by apply mergedPairs_head).
    - by apply (allChars_includes _ _ _ Hchars).
    - by apply (allChars_includes _ _ _ Hchars).
    - by apply queryString_without. }
  destruct (Utilities.mergeDataIntoQueryString GET _ data format)
    as [href rest method] eqn:Hmerged.
  cbn [Utilities.merged_href] in Hhref. subst href.
  assert (Hrest : Utilities.merged_data
                    (Utilities.mergeDataIntoQueryString GET
                       (path +:+ "?" +:+ queryString existing) data format)
                  = [])
    by (unfold Utilities.mergeDataIntoQueryString; cbn; by destruct data).
  assert (Hmethod : Utilities.merged_method
                      (Utilities.mergeDataIntoQueryString GET
                         (path +:+ "?" +:+ queryString existing) data format)
                    = GET) by reflexivity.
  rewrite Hmerged in Hrest, Hmethod. cbn in Hrest, Hmethod. by subst.
Qed.

Lemma mergeDataIntoQueryString_merges_into_query_witness :
  Utilities.mergeDataIntoQueryString GET "/users?page=2"
    [("sort", VString "name")] Indices
  = Utilities.mkMergedQuery "/users?page=2&sort=name" [] GET.
Proof.
  apply (mergeDataIntoQueryString_merges_into_query
           "/users" [("page", "2")] [("sort", VString "name")] Indices).
  - reflexivity.
  - by repeat constructor.
  - apply NoDup_singleton.
  - cbn. lia.
  - discriminate.
  - repeat constructor. by eexists.
  - apply NoDup_singleton.
Defined.

(** A key that the query and the data share keeps its place in the query
    and takes the value of the data. *)
Example mergeDataIntoQueryString_overrides_in_place :
  Utilities.mergeDataIntoQueryString GET "/users?page=2&sort=age"
    [("sort", VString "name"); ("limit", VNumber 10)] Indices
  = Utilities.mkMergedQuery "/users?page=2&sort=name&limit=10" [] GET.
Proof. reflexivity. Qed.

(** ** Files in the data of a visit *)

Section Files.

Lemma hasFilesIn_containsFile value :
  containsFile value -> Utilities.hasFilesIn value = true.
Proof.
  induction 1 as [| | |items item Hin _ IH|fields key value Hin _ IH]; simpl;
    try reflexivity.
  - apply existsb_exists. exists item. by rewrite <- list_elem_of_In.
  - apply existsb_exists. exists (key, value). by rewrite <- list_elem_of_In.
Qed.

Lemma hasFiles_dataContainsFile data :
  dataContainsFile data -> Utilities.hasFiles false data = true.
Proof.
  destruct data as [record|form]; simpl.
  - intros (key & value & Hin & Hfile). apply existsb_exists.
    exists (key, value). rewrite <- list_elem_of_In.
    by split; [|apply hasFilesIn_containsFile].
  - intros (key & name & content & Hin). apply existsb_exists.
    exists (key, EntryFile name content). by rewrite <- list_elem_of_In.
Qed.

Lemma newURL_returns href base :
  Url.hasHost href || Url.hasHost base = true ->
  exists url, Router.newURL href base = Returns url.
Proof.
  unfold Router.newURL. destruct (Url.hasHost href); simpl; [by eexists|].
  intros ->. by eexists.
Qed.

Lemma createLocation_returns href r current :
  Router.location r = Some current ->
  Url.hasHost href || Url.hasHost (loc_href current) = true ->
  exists location, Router.createLocation href r = Returns location.
Proof.
  intros Hcurrent Hhost. unfold Router.createLocation. rewrite Hcurrent.
  destruct (newURL_returns _ _ Hhost) as [url ->]. by eexists.
Qed.

Lemma location_record e r : Router.location (Router.record e r) = Router.location r.
Proof. reflexivity. Qed.

Lemma plainAbsolute_hasHost href :
  plainAbsolute href = true -> Url.hasHost href = true.
Proof.
  unfold plainAbsolute, Url.hasHost.
  destruct (Js.startsWith "http://" href); [done|].
  by destruct (Js.startsWith "https://" href).
Qed.

Lemma plainReference_not_empty href :
  plainReference href = true -> Str.isEmpty href = false.
Proof. by destruct href. Qed.

End Files.

(** C7 (counterexample).  During server-side rendering [hasFiles] answers
    [false]: a POST with a [Blob] in its data keeps its data as a plain
    object, and no [_method] field is added. *)
Lemma resolveRoutable_keeps_files_on_the_server :
  Router.window_isSSR (Router.window serverRouter) = true
  /\ dataContainsFile upload
  /\ requestedMethod (Router.RoutableString "/form") postOptions = POST
  /\ (fun resolved =>
        (Router.resolved_method resolved, Router.resolved_data resolved))
     <$> (match
            Router.resolveRoutable (Router.RoutableString "/form") upload
              postOptions serverRouter
          with
          | Returns (_, resolved) => Some resolved
          | _ => None
          end)
     = Some (POST, upload).
Proof.
  split; [reflexivity|]. split; [|split; vm_compute; reflexivity].
  exists "file", (VBlob "binary"). split; [apply list_elem_of_here | constructor].
Qed.

(** C7 (amended).  In a browser, when the data of a visit holds a file and
    the method asked for is POST, [resolveRoutable] returns the data as
    form data followed by the field [_method=POST], and the method POST,
    whenever it returns; and it returns when the current location is an
    absolute [http(s)] location with a plain host and the href of the
    routable is a plain path and query. *)
Theorem resolveRoutable_posts_files_as_form_data
  (routable : Router.Routable) (data : VisitData)
  (opts : Router.ResolveOptions) (r : Router.State) :
  Router.window_isSSR (Router.window r) = false ->
  dataContainsFile data ->
  requestedMethod routable opts = POST ->
  (forall r' resolved,
      Router.resolveRoutable routable data opts r = Returns (r', resolved) ->
      Router.resolved_method resolved = POST
      /\ Router.resolved_data resolved
         = DataForm (formOf data ++ [("_method", EntryString "POST")]))
  /\ (forall current,
        Router.location r = Some current ->
        plainAbsolute (loc_href current) = true ->
        plainReference (requestedHref routable current opts) = true ->
        exists r' resolved,
          Router.resolveRoutable routable data opts r = Returns (r', resolved)).
Proof.
  intros Hbrowser Hfile Hmethod.
  apply hasFiles_dataContainsFile in Hfile.
  split.
  - intros r' resolved. unfold Router.resolveRoutable.
    destruct (Router.location r) as [current|]; [|discriminate].
    rewrite Hbrowser.
    fold (requestedHref routable current opts).
    fold (requestedMethod routable opts). rewrite Hmethod.
    destruct (Str.isEmpty (requestedHref routable current opts));
      [discriminate|].
    destruct data as [record|form].
    + rewrite Hfile. cbn [orb].
      destruct (Router.createLocation _ _) as [location| |];
        cbn [bindOutcome]; try discriminate.
      by intros [= <- <-].
    + destruct (Router.createLocation _ _) as [location| |];
        cbn [bindOutcome]; try discriminate.
      by intros [= <- <-].
  - intros current Hcurrent Hlocation Hhref.
    unfold Router.resolveRoutable. rewrite Hcurrent, Hbrowser.
    fold (requestedHref routable current opts).
    fold (requestedMethod routable opts). rewrite Hmethod.
    rewrite (plainReference_not_empty _ Hhref).
    set (r1 := match routable with
               | Router.RoutableObject _ => Router.record Router.ConsoleWarn r
               | _ => r
               end).
    assert (Hcurrent1 : Router.location r1 = Some current)
      by (subst r1; by destruct routable).
    destruct (createLocation_returns (requestedHref routable current opts)
                r1 current Hcurrent1) as [location Hreturns].
    { rewrite (plainAbsolute_hasHost _ Hlocation). apply orb_true_r. }
    destruct data as [record|form].
    + rewrite Hfile. cbn [orb]. rewrite Hreturns. cbn [bindOutcome].
      by eexists _, _.
    + rewrite Hreturns. cbn [bindOutcome]. by eexists _, _.
Qed.

Lemma resolveRoutable_posts_files_as_form_data_witness :
  exists r' resolved,
    Router.resolveRoutable (Router.RoutableString "/form") upload postOptions
      homeRouter
    = Returns (r', resolved)
    /\ Router.resolved_method resolved = POST
    /\ Router.resolved_data resolved
       = DataForm
           [("file", EntryFile "blob" "binary"); ("_method", EntryString "POST")].
Proof.
  destruct (resolveRoutable_posts_files_as_form_data
              (Router.RoutableString "/form") upload postOptions homeRouter)
    as [Hresult Hreturns].
  - reflexivity.
  - exists "file", (VBlob "binary").
    split; [apply list_elem_of_here | constructor].
  - reflexivity.
  - destruct (Hreturns (locationAt "http://localhost/home"))
      as (r' & resolved & Hcall); [by vm_compute | reflexivity | reflexivity |].
    exists r', resolved. split; [exact Hcall|]. by apply (Hresult r').
Defined.

(** The scenario of the form upload: the request of
    [visit('/form', { method: 'POST', data: { file } })] is a POST with
    the file and [_method=POST] as form data. *)
Example visit_uploads_form_data :
  (fun r =>
     omap (fun effect =>
             match effect with
             | Router.AxiosRequest _ method href data _ => Some (method, href, data)
             | _ => None
             end) (Router.trace r))
  <$> routerAfter
        (Router.visit (Router.RoutableString "/form") uploadOptions homeArrives
           homeRouter)
  = Some
      [(POST, "http://localhost/form",
        DataForm
          [("file", EntryFile "blob" "binary");
           ("_method", EntryString "POST")])].
Proof. vm_compute. reflexivity. Qed.

(** * Further properties of the code *)

(** ** Listeners: [on] and [off] *)

Section OnOff.
Context {Detail : Type}.
Implicit Types (control : Utilities.Emitter Detail)
  (listener : Utilities.Listener Detail).

Lemma indexOf_absent listener listeners :
  (forall other, other ∈ listeners ->
     Utilities.listener_id other <> Utilities.listener_id listener) ->
  Utilities.indexOf listener listeners = None.
Proof.
  induction listeners as [|l ls IH]; intros Hnot; simpl; [done|].
  destruct (Nat.eqb_spec (Utilities.listener_id l) (Utilities.listener_id listener))
    as [Heq|_].
  - exfalso. by apply (Hnot l); [apply list_elem_of_here|].
  - rewrite IH; [done|]. intros other Hin. apply Hnot. by apply list_elem_of_further.
Qed.

Lemma indexOf_last listener listeners :
  (forall other, other ∈ listeners ->
     Utilities.listener_id other <> Utilities.listener_id listener) ->
  Utilities.indexOf listener (listeners ++ [listener]) = Some (length listeners).
Proof.
  induction listeners as [|l ls IH]; intros Hnot; simpl.
  - by rewrite Nat.eqb_refl.
  - destruct (Nat.eqb_spec (Utilities.listener_id l) (Utilities.listener_id listener))
      as [Heq|_].
    + exfalso. by apply (Hnot l); [apply list_elem_of_here|].
    + rewrite IH; [done|]. intros other Hin. apply Hnot.
      by apply list_elem_of_further.
Qed.

Lemma delete_last {A} (l : list A) (x : A) : delete (length l) (l ++ [x]) = l.
Proof. induction l as [|y l IH]; simpl; [done|]. by rewrite IH. Qed.

Lemma registered_set control name name' listeners :
  registered
    (Utilities.mkEmitter (Utilities.emitter_events control)
       (Js.set name listeners (Utilities.emitter_all control))) name'
  = if String.eqb name name' then listeners else registered control name'.
Proof.
  unfold registered. simpl. destruct (String.eqb_spec name name') as [<-|Hne].
  - by rewrite get_set_eq.
  - by rewrite get_set_ne.
Qed.

Lemma registered_on control name name' listener :
  registered (Utilities.on control name listener) name'
  = if String.eqb name name'
    then registered control name ++ [listener]
    else registered control name'.
Proof.
  unfold Utilities.on.
  destruct (Js.get name (Utilities.emitter_all control)) as [listeners|] eqn:Hget;
    rewrite registered_set; destruct (String.eqb name name'); try done;
    unfold registered; by rewrite Hget.
Qed.

Lemma registered_off control name name' listener :
  registered (Utilities.off control name (Some listener)) name'
  = if String.eqb name name'
    then
      match Utilities.indexOf listener (registered control name) with
      | Some index =>
          if (N.of_nat index <? N.of_nat (length (registered control name)))%N
          then delete index (registered control name)
          else registered control name
      | None =>
          if (4294967295 <? N.of_nat (length (registered control name)))%N
          then delete (N.to_nat 4294967295) (registered control name)
          else registered control name
      end
    else registered control name'.
Proof.
  unfold Utilities.off.
  destruct (Js.get name (Utilities.emitter_all control)) as [listeners|] eqn:Hget.
  - rewrite registered_set. destruct (String.eqb name name'); [|done].
    unfold registered. rewrite Hget. simpl.
    destruct (Utilities.indexOf listener listeners) as [index|]; simpl;
      [by rewrite Nat2N.id | done].
  - destruct (String.eqb_spec name name') as [<-|_]; [|done].
    unfold registered. by rewrite Hget.
Qed.

End OnOff.

(** X1.  A listener that is registered with [on] and removed with [off]
    leaves the listeners of every event as they were, when it was not
    registered for that event before. *)
Theorem off_undoes_on {Detail : Type} (control : Utilities.Emitter Detail)
  (name name' : string) (listener : Utilities.Listener Detail) :
  (forall other, other ∈ registered control name ->
     Utilities.listener_id other <> Utilities.listener_id listener) ->
  registered
    (Utilities.off (Utilities.on control name listener) name (Some listener))
    name'
  = registered control name'.
Proof.
  intros Hnew. rewrite registered_off, !registered_on, String.eqb_refl.
  destruct (String.eqb_spec name name') as [<-|_]; [|done].
  rewrite indexOf_last by done. rewrite length_app. simpl.
  destruct (N.ltb_spec (N.of_nat (length (registered control name)))
              (N.of_nat (length (registered control name) + 1))) as [_|Hge];
    [apply delete_last | lia].
Qed.

Lemma off_undoes_on_witness :
  registered
    (Utilities.off
       (Utilities.on (Utilities.createEmitter Router.routerEvents) "finish"
          Router.logException)
       "finish" (Some Router.logException))
    "finish"
  = registered (Utilities.createEmitter Router.routerEvents) "finish".
Proof.
  apply (off_undoes_on (Utilities.createEmitter Router.routerEvents) "finish"
           "finish" Router.logException).
  intros other Hin. by apply elem_of_nil in Hin.
Defined.

(** X2.  [off] with a listener that is not registered for the event
    removes nothing: [indexOf] answers [-1], [-1 >>> 0] is [4294967295],
    and [splice] from there leaves the array as it is (an array has at
    most [4294967295] elements). *)
Theorem off_of_unknown_listener {Detail : Type}
  (control : Utilities.Emitter Detail) (name name' : string)
  (listener : Utilities.Listener Detail) :
  (forall other, other ∈ registered control name ->
     Utilities.listener_id other <> Utilities.listener_id listener) ->
  (N.of_nat (length (registered control name)) <= 4294967295)%N ->
  registered (Utilities.off control name (Some listener)) name'
  = registered control name'.
Proof.
  intros Hnew Hlength. rewrite registered_off.
  destruct (String.eqb_spec name name') as [<-|_]; [|done].
  rewrite indexOf_absent by done.
  destruct (N.ltb_spec 4294967295
              (N.of_nat (length (registered control name)))) as [Hlt|_];
    [lia | done].
Qed.

Lemma off_of_unknown_listener_witness :
  registered
    (Utilities.off
       (Utilities.on (Utilities.createEmitter Router.routerEvents) "finish"
          Router.logException)
       "finish" (Some (Utilities.mkListener 7 (fun _ => (VBool true, false)))))
    "finish"
  = [Router.logException].
Proof.
  apply (off_of_unknown_listener
           (Utilities.on (Utilities.createEmitter Router.routerEvents) "finish"
              Router.logException)
           "finish" "finish"
           (Utilities.mkListener 7 (fun _ => (VBool true, false)))).
  - intros other Hin. apply list_elem_of_singleton in Hin. by subst.
  - vm_compute. discriminate.
Defined.

(** ** Form data *)

Section FormData.

(** Induction on values, through arrays and objects. *)
Lemma Value_nested_ind (P : Value -> Prop) :
  P VUndefined -> P VNull -> (forall b, P (VBool b)) ->
  (forall n, P (VNumber n)) -> (forall s, P (VString s)) ->
  (forall items, Forall P items -> P (VArray items)) ->
  (forall fields, Forall (fun e => P (snd e)) fields -> P (VObject fields)) ->
  (forall content, P (VBlob content)) -> (forall file, P (VFile file)) ->
  (forall files, P (VFileList files)) -> (forall iso, P (VDate iso)) ->
  P VFunction ->
  forall value, P value.
Proof.
  intros Hundefined Hnull Hbool Hnumber Hstring Harray Hobject Hblob Hfile
    Hlist Hdate Hfunction.
  fix IH 1. intros [| |b|n|s|items|fields|content|file|files|iso|].
  - exact Hundefined.
  - exact Hnull.
  - apply Hbool.
  - apply Hnumber.
  - apply Hstring.
  - apply Harray. revert items. fix IHitems 1.
    intros [|item items]; constructor; [apply IH | apply IHitems].
  - apply Hobject. revert fields. fix IHfields 1.
    intros [|[key item] fields]; constructor; [apply IH | apply IHfields].
  - apply Hblob.
  - apply Hfile.
  - apply Hlist.
  - apply Hdate.
  - exact Hfunction.
Qed.

Lemma appendToFormData_app value : forall form key,
  Utilities.appendToFormData form key value
  = form ++ Utilities.appendToFormData [] key value.
Proof.
  induction value as [| | | | |items IH|fields IH| | |files| |]
    using Value_nested_ind; intros form key; cbn [Utilities.appendToFormData];
    try done; try by rewrite app_nil_r.
  - generalize 0. revert form.
    induction IH as [|item items Hitem _ IHitems]; intros form index.
    + by rewrite app_nil_r.
    + rewrite IHitems, Hitem.
      rewrite (IHitems (Utilities.appendToFormData [] _ item)).
      by rewrite app_assoc.
  - revert form.
    induction IH as [|[name item] fields Hitem _ IHfields]; intros form.
    + by rewrite app_nil_r.
    + simpl in Hitem. rewrite IHfields, Hitem.
      rewrite (IHfields (Utilities.appendToFormData [] _ item)).
      by rewrite app_assoc.
  - generalize 0. revert form.
    induction files as [|file files IHfiles]; intros form index.
    + by rewrite app_nil_r.
    + rewrite IHfiles. rewrite (IHfiles ([] ++ _)). by rewrite app_assoc.
Qed.

Lemma objectToFormData_cons key value source form parentKey :
  Utilities.objectToFormData ((key, value) :: source) form parentKey
  = Utilities.objectToFormData source
      (Utilities.appendToFormData form (Utilities.composeKey parentKey key) value)
      parentKey.
Proof. reflexivity. Qed.

Lemma objectToFormData_app source : forall form parentKey,
  Utilities.objectToFormData source form parentKey
  = form ++ Utilities.objectToFormData source [] parentKey.
Proof.
  induction source as [|[key value] source IH]; intros form parentKey.
  - by rewrite app_nil_r.
  - rewrite !objectToFormData_cons, IH, appendToFormData_app.
    rewrite (IH (Utilities.appendToFormData [] _ value)).
    by rewrite app_assoc.
Qed.

Lemma holdsFile_app a b : holdsFile (a ++ b) = holdsFile a || holdsFile b.
Proof. apply existsb_app. Qed.

Lemma appendToFormData_files value : forall key,
  holdsFile (Utilities.appendToFormData [] key value)
  = Utilities.hasFilesIn value.
Proof.
  induction value as [| | | | |items IH|fields IH| | |files| |]
    using Value_nested_ind; intros key;
    cbn [Utilities.appendToFormData Utilities.hasFilesIn]; try done.
  - assert (H : forall index form,
               holdsFile
                 ((fix each (form : FormData) (index : nat) (vs : list Value)
                     : FormData :=
                     match vs with
                     | [] => form
                     | v :: rest =>
                         each
                           (Utilities.appendToFormData form
                              (Utilities.composeKey (Some key) (pretty index)) v)
                           (S index) rest
                     end) form index items)
               = holdsFile form || existsb Utilities.hasFilesIn items).
    { induction IH as [|item items Hitem _ IHitems]; intros index form.
      - simpl. by rewrite orb_false_r.
      - rewrite IHitems, appendToFormData_app, holdsFile_app, Hitem.
        simpl. by rewrite orb_assoc. }
    by rewrite H.
  - assert (H : forall form,
               holdsFile
                 ((fix each (form : FormData) (es : list (string * Value))
                     : FormData :=
                     match es with
                     | [] => form
                     | (k, v) :: rest =>
                         each
                           (Utilities.appendToFormData form
                              (Utilities.composeKey (Some key) k) v) rest
                     end) form fields)
               = holdsFile form
                 || existsb (fun e => Utilities.hasFilesIn (snd e)) fields).
    { induction IH as [|[name item] fields Hitem _ IHfields]; intros form.
      - simpl. by rewrite orb_false_r.
      - simpl in Hitem.
        rewrite IHfields, appendToFormData_app, holdsFile_app, Hitem.
        simpl. by rewrite orb_assoc. }
    by rewrite H.
  - assert (H : forall index form,
               holdsFile
                 ((fix each (form : FormData) (index : nat) (fs : list File)
                     : FormData :=
                     match fs with
                     | [] => form
                     | file :: rest =>
                         each
                           (form
                            ++ [(Utilities.composeKey (Some key) (pretty index),
                                 EntryFile (file_name file) (file_content file))])
                           (S index) rest
                     end) form index files)
               = holdsFile form || (0 <? length files)).
    { induction files as [|file files IHfiles]; intros index form.
      - simpl. by rewrite orb_false_r.
      - rewrite IHfiles, holdsFile_app. simpl.
        by rewrite !orb_true_r. }
    by rewrite H.
Qed.

End FormData.

(** X3.  [objectToFormData] only appends: the entries the form already
    has stay first and in order, and what is appended does not depend on
    them. *)
Theorem objectToFormData_appends (source : Js.object Value) (form : FormData)
  (parentKey : option string) :
  Utilities.objectToFormData source form parentKey
  = form ++ Utilities.objectToFormData source [] parentKey.
Proof. apply objectToFormData_app. Qed.

(** X4.  In a browser [hasFiles] answers [true] for a plain object
    exactly when the form data [objectToFormData] builds from it has a
    file entry. *)
Theorem hasFiles_agrees_with_objectToFormData (source : Js.object Value) :
  Utilities.hasFiles false (DataRecord source)
  = Utilities.hasFiles false
      (DataForm (Utilities.objectToFormData source [] None)).
Proof.
  cbn [Utilities.hasFiles]. fold (holdsFile (Utilities.objectToFormData source [] None)).
  induction source as [|[key value] source IH]; [done|].
  rewrite objectToFormData_cons, objectToFormData_app, holdsFile_app.
  rewrite appendToFormData_files, <- IH. reflexivity.
Qed.

(** ** Dotted property keys *)

Section PropertyKey.

(** With or without a dot, the key is cut at its dots and every part is
    transformed. *)
Lemma transformPropertyKey_parts property transform :
  Utilities.transformPropertyKey property transform
  = String.concat "." (map transform (Str.splitOn "." property)).
Proof.
  unfold Utilities.transformPropertyKey.
  destruct (Str.includesChar "." property) eqn:Hdot; [done|].
  by rewrite splitOn_absent.
Qed.

End PropertyKey.

(** X5.  [transformPropertyKey] transforms a dotted key part by part: the
    key [a.b] becomes the transformed [a], a dot, and the transformed
    [b], whatever dots [a] and [b] have themselves. *)
Theorem transformPropertyKey_by_parts (a b : string)
  (transform : string -> string) :
  Utilities.transformPropertyKey (a +:+ "." +:+ b) transform
  = Utilities.transformPropertyKey a transform
      +:+ "." +:+ Utilities.transformPropertyKey b transform.
Proof.
  rewrite !transformPropertyKey_parts.
  change (a +:+ "." +:+ b) with (a +:+ String "." b).
  rewrite splitOn_app, map_app. apply concat_app.
  - destruct (splitOn_cons "." a) as (part & parts & ->). done.
  - destruct (splitOn_cons "." b) as (part & parts & ->). done.
Qed.

(** X6.  Without a transform (the default is the identity)
    [transformPropertyKey] returns the key as it is: cutting a key at its
    dots and joining the parts with dots gives the key back. *)
Theorem transformPropertyKey_identity (property : string) :
  Utilities.transformPropertyKey property (fun value => value) = property.
Proof.
  rewrite transformPropertyKey_parts, map_id. apply (concat_splitOn ".").
Qed.

(** ** Regions after a merge *)

Section Regions.
Import Utilities.

Lemma replaceAt_shape lazy nextFragment currentFragment stack index merged :
  replaceAt lazy nextFragment currentFragment stack index = Returns merged ->
  exists top,
    merged = take index stack ++ [Some top]
    /\ fragment_name top = fragment_name nextFragment
    /\ fragment_component top = fragment_component nextFragment.
Proof.
  unfold replaceAt. destruct (_ || _).
  - cbn [withProperties fragment_page].
    destruct (fragment_page nextFragment); [|discriminate].
    intros [= <-]. by eexists.
  - intros [= <-]. by eexists.
Qed.

Lemma mergeStack_shape stacked lazy nextFragment stack merged :
  stack <> [] ->
  mergeStack (S (length stack)) stacked lazy nextFragment stack 0
  = Returns merged ->
  exists kept top,
    merged = kept ++ [Some top]
    /\ kept `prefix_of` stack
    /\ (stacked = false -> kept = [])
    /\ fragment_name top = fragment_name nextFragment
    /\ fragment_component top = fragment_component nextFragment.
Proof.
  intros Hne. destruct stacked.
  - destruct (first_replaced nextFragment true stack)
      as [Hall|(pre & c & post & -> & Hpre & Hc)].
    + rewrite mergeStack_reaches_itself by done. intros Hreplace.
      apply replaceAt_shape in Hreplace as (top & -> & Hname & Hcomponent).
      exists stack, top. by rewrite take_app_length.
    + rewrite mergeStack_cut by done. intros Hreplace.
      apply replaceAt_shape in Hreplace as (top & -> & Hname & Hcomponent).
      exists pre, top. rewrite take_app_length.
      repeat split; try done. by apply prefix_app_r.
  - destruct stack as [|first stack]; [done|].
    rewrite (mergeStack_replace _ _ _ false _ _ first); [|done|].
    + intros Hreplace.
      apply replaceAt_shape in Hreplace as (top & -> & Hname & Hcomponent).
      exists [], top. repeat split; try done. apply prefix_nil.
    + unfold replacesPrevious. cbn [negb]. by rewrite orb_true_r.
Qed.

Lemma fold_keys allCurrentFragments allNextFragments options names :
  forall start result,
    fold_left
      (fun allCumulatedFragments name =>
         bindOutcome allCumulatedFragments
           (fun cumulated =>
              mergeRegion allCurrentFragments allNextFragments options
                cumulated name))
      names (Returns start)
    = Returns result ->
    Js.keys start `prefix_of` Js.keys result
    /\ forall name, name ∈ Js.keys result -> name ∈ Js.keys start \/ name ∈ names.
Proof.
  induction names as [|n names IH]; intros start result Hfold.
  - simpl in Hfold. injection Hfold as <-. split; [done | by left].
  - simpl in Hfold.
    destruct (mergeRegion allCurrentFragments allNextFragments options start n)
      as [next| |] eqn:Hregion.
    2,3: exfalso; revert Hfold; by apply fold_not_returned.
    destruct (IH next result Hfold) as [Hprefix Hkeys].
    unfold mergeRegion in Hregion.
    destruct (cumulate _ _ _ _ _) as [[region|]| |]; simpl in Hregion;
      inversion Hregion; subst next; clear Hregion.
    + rewrite keys_set in Hprefix, Hkeys. split.
      * etrans; [|exact Hprefix].
        destruct (Js.has n start); [done | by apply prefix_app_r].
      * intros name Hname. destruct (Hkeys name Hname) as [Hin|Hin].
        -- destruct (Js.has n start); [by left|].
           apply elem_of_app in Hin as [Hin|Hin]; [by left|].
           apply list_elem_of_singleton in Hin as ->. right. apply list_elem_of_here.
        -- right. by apply list_elem_of_further.
    + split; [done|]. intros name Hname.
      destruct (Hkeys name Hname) as [Hin|Hin]; [by left|].
      right. by apply list_elem_of_further.
Qed.

End Regions.

(** X7.  [mergeFragments] never drops a region: when no region name is
    integer-like (such names would be listed first), the names of the
    current regions are the first names of the result, in their order (a
    cleared region stays, with [null]); and, whatever the names, every
    current region is a region of the result and every other region of
    the result is an incoming region. *)
Theorem mergeFragments_keeps_region_names
  (allCurrentFragments allNextFragments result : Fragments)
  (options : Js.object FragmentOptions) :
  Utilities.mergeFragments allCurrentFragments allNextFragments options
  = Returns result ->
  (orderedKeys (Js.keys allCurrentFragments ++ Js.keys allNextFragments) ->
   Js.keys allCurrentFragments `prefix_of` Js.keys result)
  /\ (forall name,
        name ∈ Js.keys allCurrentFragments -> name ∈ Js.keys result)
  /\ forall name,
       name ∈ Js.keys result ->
       name ∈ Js.keys allCurrentFragments \/ name ∈ Js.keys allNextFragments.
Proof.
  intros Hmerge. unfold Utilities.mergeFragments in Hmerge.
  apply fold_keys in Hmerge as [Hprefix Hkeys]. split; [done|]. split.
  - intros name Hname. destruct Hprefix as [added ->].
    apply elem_of_app. by left.
  - intros name Hname. destruct (Hkeys name Hname) as [Hin|Hin]; [by left|].
    apply uniq_elem_of, elem_of_app in Hin. tauto.
Qed.

Lemma mergeFragments_keeps_region_names_witness :
  Js.keys [("main", Some [Some mainFragment])]
    `prefix_of` Js.keys [("main", @None (list (option Fragment)));
                         ("modal", Some [Some modalFragment])]
  /\ (forall name,
        name ∈ Js.keys [("main", Some [Some mainFragment])] ->
        name ∈ Js.keys [("main", @None (list (option Fragment)));
                        ("modal", Some [Some modalFragment])])
  /\ forall name,
       name ∈ Js.keys [("main", @None (list (option Fragment)));
                       ("modal", Some [Some modalFragment])] ->
       name ∈ Js.keys [("main", Some [Some mainFragment])]
       \/ name ∈ Js.keys (onlyModal modalFragment).
Proof.
  destruct (mergeFragments_keeps_region_names
              [("main", Some [Some mainFragment])] (onlyModal modalFragment)
              [("main", None); ("modal", Some [Some modalFragment])]
              stackedModal eq_refl)
    as (Hfirst & Hkept & Hnames).
  split; [|by split]. apply Hfirst. by repeat constructor.
Defined.

(** X8.  When a fragment comes in for a region that holds fragments, the
    region afterwards is a first part of what it held followed by the
    incoming fragment (same name and component) on top: one merge grows a
    region by at most one fragment, and a region that is not stacked
    holds the incoming fragment alone. *)
Theorem mergeFragments_puts_incoming_on_top
  (allCurrentFragments allNextFragments result : Fragments)
  (options : Js.object FragmentOptions) (name : string)
  (stack : list (option Fragment)) (incoming : Fragment) :
  Utilities.mergeFragments allCurrentFragments allNextFragments options
  = Returns result ->
  Js.get name allCurrentFragments = Some (Some stack) ->
  stack <> [] ->
  Utilities.firstFragment (Js.get name allNextFragments)
  = Utilities.NextIs incoming ->
  exists kept top,
    Js.get name result = Some (Some (kept ++ [Some top]))
    /\ kept `prefix_of` stack
    /\ (Utilities.stackedFor allCurrentFragments allNextFragments options name
        = false -> kept = [])
    /\ fragment_name top = fragment_name incoming
    /\ fragment_component top = fragment_component incoming.
Proof.
  intros Hmerge Hstack Hne Hincoming.
  assert (Hname : name ∈ Utilities.getKeys allCurrentFragments
                         ++ Utilities.getKeys allNextFragments).
  { apply elem_of_app. left. by eapply get_Some_in. }
  pose proof (mergeFragments_region _ _ _ result name Hmerge Hname) as Hregion.
  unfold Utilities.cumulate in Hregion. rewrite Hincoming, Hstack in Hregion.
  destruct (Utilities.mergeStack _ _ _ _ _ _) as [merged| |] eqn:Hloop;
    cbn [bindOutcome] in Hregion; try discriminate.
  apply mergeStack_shape in Hloop
    as (kept & top & -> & Hprefix & Hsingle & Htop); [|done].
  exists kept, top. injection Hregion as Hregion. by rewrite <- Hregion.
Qed.

Lemma mergeFragments_puts_incoming_on_top_witness :
  exists kept top,
    Js.get "modal" [("modal", Some [Some firstDialog; Some secondDialog])]
    = Some (Some (kept ++ [Some top]))
    /\ kept `prefix_of` [Some firstDialog]
    /\ (Utilities.stackedFor [("modal", Some [Some firstDialog])]
          (onlyModal secondDialog) stackedModal "modal" = false -> kept = [])
    /\ fragment_name top = fragment_name secondDialog
    /\ fragment_component top = fragment_component secondDialog.
Proof.
  apply (mergeFragments_puts_incoming_on_top
           [("modal", Some [Some firstDialog])] (onlyModal secondDialog)
           [("modal", Some [Some firstDialog; Some secondDialog])]
           stackedModal "modal" [Some firstDialog] secondDialog);
    try reflexivity.
  discriminate.
Defined.

(** ** Pages: properties and fragments *)

Section PageProperties.
Import Utilities.
Context {V : Type}.
Implicit Types (a b : Js.object V).

Lemma set_NoDup k (v : V) a : NoDup (Js.keys a) -> NoDup (Js.keys (Js.set k v a)).
Proof.
  intros Hnd. rewrite keys_set. unfold Js.has.
  destruct (Js.get k a) eqn:Hget; [done|].
  apply get_None_not_in in Hget. apply NoDup_app. split; [done|].
  split; [|apply NoDup_singleton].
  intros x Hx Hk. apply list_elem_of_singleton in Hk. by subst.
Qed.

Lemma spread_NoDup a b : NoDup (Js.keys a) -> NoDup (Js.keys (Js.spread a b)).
Proof.
  unfold Js.spread. revert a.
  induction b as [|[k v] b IH]; intros a Hnd; simpl; [done|].
  by apply IH, set_NoDup.
Qed.

Lemma spread_get k a b :
  NoDup (Js.keys b) ->
  Js.get k (Js.spread a b)
  = match Js.get k b with Some v => Some v | None => Js.get k a end.
Proof.
  unfold Js.spread. revert a.
  induction b as [|[k' v'] b IH]; intros a Hnd; simpl; [done|].
  apply NoDup_cons in Hnd as [Hnot Hnd]. rewrite IH by done.
  destruct (String.eqb_spec k k') as [->|Hne].
  - apply get_None_not_in in Hnot. simpl in Hnot. rewrite Hnot.
    apply get_set_eq.
  - rewrite get_set_ne by congruence. done.
Qed.

Lemma spread_get_in k v a b :
  Js.get k (Js.spread a b) = Some v -> Js.get k a = Some v \/ (k, v) ∈ b.
Proof.
  unfold Js.spread. revert a.
  induction b as [|[k' v'] b IH]; intros a; simpl; [by left|].
  intros Hget. destruct (IH _ Hget) as [Hset|Hin].
  - destruct (String.eqb_spec k' k) as [->|Hne].
    + rewrite get_set_eq in Hset. injection Hset as ->.
      right. apply list_elem_of_here.
    + rewrite get_set_ne in Hset by done. by left.
  - right. by apply list_elem_of_further.
Qed.

Lemma get_filter (test : string * V -> bool) k v a :
  Js.get k a = Some v -> test (k, v) = true ->
  Js.get k (filter (fun e => test e) a) = Some v.
Proof.
  intros Hget Htest. induction a as [|[k' v'] a IH]; [discriminate|].
  simpl in Hget. rewrite filter_cons.
  destruct (String.eqb_spec k k') as [->|Hne].
  - injection Hget as ->. rewrite decide_True by by rewrite Htest.
    simpl. by rewrite String.eqb_refl.
  - destruct (decide _); [|by apply IH].
    simpl. apply String.eqb_neq in Hne. rewrite Hne. by apply IH.
Qed.

Lemma filter_keys_NoDup (test : string * V -> bool) a :
  NoDup (Js.keys a) -> NoDup (Js.keys (filter (fun e => test e) a)).
Proof.
  intros Hnd. apply (sublist_NoDup _ (Js.keys a)); [exact Hnd|].
  unfold Js.keys. apply fmap_sublist, sublist_filter.
Qed.

End PageProperties.

(** X9.  [mergePages] returns the next page with its own location and
    visit; its properties are those of the next page, and under them the
    properties of the current page that the next page does not have.  The
    current page keeps its location and its properties. *)
Theorem mergePages_merges_properties (page : option Page) (nextPage : Page)
  (options : Js.object FragmentOptions) (current : option Page)
  (merged : Page) :
  NoDup (Js.keys (page_properties nextPage)) ->
  Utilities.mergePages page nextPage options = Returns (current, merged) ->
  page_location merged = page_location nextPage
  /\ page_visit merged = page_visit nextPage
  /\ (forall key,
        Js.get key (page_properties merged)
        = match Js.get key (page_properties nextPage) with
          | Some value => Some value
          | None => page ≫= (fun p => Js.get key (page_properties p))
          end)
  /\ page_location <$> current = page_location <$> page
  /\ page_properties <$> current = page_properties <$> page.
Proof.
  intros Hnd. unfold Utilities.mergePages.
  destruct (Utilities.mergeFragments _ _ _) as [fragments| |];
    cbn [bindOutcome]; try discriminate.
  intros [= <- <-]. repeat split; try by destruct page.
  intros key. cbn. rewrite spread_get by done.
  destruct (Js.get key (page_properties nextPage)); [done|]. by destruct page.
Qed.

Lemma mergePages_merges_properties_witness :
  page_location (snd mergedPages) = locationAt "http://localhost/users"
  /\ page_visit (snd mergedPages) = Some 1
  /\ (forall key,
        Js.get key (page_properties (snd mergedPages))
        = match Js.get key [("count", VNumber 2)] with
          | Some value => Some value
          | None =>
              Some shownPage ≫= (fun p => Js.get key (page_properties p))
          end)
  /\ page_location <$> fst mergedPages = page_location <$> Some shownPage
  /\ page_properties <$> fst mergedPages = page_properties <$> Some shownPage.
Proof.
  apply (mergePages_merges_properties (Some shownPage) incomingPage []
           (fst mergedPages) (snd mergedPages)).
  - apply (bool_decide_unpack _). by vm_compute.
  - by vm_compute.
Defined.

(** The run of the witness: [count] is the incoming page's, [user] comes
    from the current page. *)
Example mergePages_sample :
  page_properties (snd mergedPages)
  = [("user", VString "Ada"); ("count", VNumber 2)].
Proof. reflexivity. Qed.

(** X10.  After [assignPageToFragments] every fragment of the page has a
    page, a fragment that had one keeps it, and a second call changes
    nothing. *)
Theorem assignPageToFragments_gives_pages (page : Page) :
  (forall fragment,
      fragment ∈ Utilities.allFragments
                   (page_fragments (Utilities.assignPageToFragments page)) ->
      is_Some (fragment_page fragment))
  /\ (forall fragment,
        fragment ∈ Utilities.allFragments (page_fragments page) ->
        is_Some (fragment_page fragment) ->
        fragment ∈ Utilities.allFragments
                     (page_fragments (Utilities.assignPageToFragments page)))
  /\ Utilities.assignPageToFragments (Utilities.assignPageToFragments page)
     = Utilities.assignPageToFragments page.
Proof.
  unfold Utilities.assignPageToFragments, Utilities.allFragments.
  cbn [page_fragments Utilities.withFragments].
  set (assign owner := fun slot : option Fragment =>
         match slot with
         | Some fragment =>
             match fragment_page fragment with
             | Some _ => Some fragment
             | None =>
                 Some (Utilities.withPage fragment
                         (Utilities.pageWithoutFragments owner))
             end
         | None => None
         end).
  split; [|split].
  - intros fragment Hin. apply list_elem_of_In, in_flat_map in Hin
      as ([name region] & Hregion & Hin).
    apply in_map_iff in Hregion as ([name' region'] & [= <- <-] & _).
    destruct region' as [stack|]; simpl in Hin; [|done].
    apply list_elem_of_In, list_elem_of_omap in Hin as (slot & Hslot & Hid).
    simpl in Hid. subst slot.
    apply list_elem_of_fmap in Hslot as (slot & Hassign & _).
    destruct slot as [f|]; [|discriminate]. simpl in Hassign.
    destruct (fragment_page f) eqn:Hpage; injection Hassign as ->; by eexists.
  - intros fragment Hin Hpage. apply list_elem_of_In, in_flat_map in Hin
      as ([name region] & Hregion & Hin).
    apply list_elem_of_In, in_flat_map.
    exists (name, option_map (map (assign page)) region). split.
    + apply in_map_iff. by exists (name, region).
    + destruct region as [stack|]; simpl in *; [|done].
      apply list_elem_of_In, list_elem_of_omap in Hin as (slot & Hslot & Hid).
      simpl in Hid. subst slot.
      apply list_elem_of_In, list_elem_of_omap. exists (Some fragment).
      split; [|done]. apply list_elem_of_fmap. exists (Some fragment).
      split; [|done]. simpl. by destruct Hpage as [p ->].
  - destruct page as [location properties fragments visit version layout
                        remembered scroll base].
    unfold Utilities.withFragments. cbn. f_equal.
    rewrite map_map. apply map_ext. intros [name [stack|]]; [|done].
    cbn. do 2 f_equal. rewrite map_map. apply map_ext.
    intros [fragment|]; [|done]. simpl.
    destruct (fragment_page fragment) eqn:Hpage; simpl; by rewrite ?Hpage.
Qed.

(** X11.  [getDeferredPageProperties] returns only properties of the
    page that are deferred and were not requested yet; when the keys of
    the page's properties are distinct it returns every such property. *)
Theorem getDeferredPageProperties_selects (page : Page) :
  (forall key value,
      Js.get key (Utilities.getDeferredPageProperties page) = Some value ->
      (key, value) ∈ Utilities.getPageProperties page
      /\ Utilities.isDeferred value = true
      /\ Utilities.isRequested value = false)
  /\ (NoDup (Js.keys (page_properties page)) ->
      forall key value,
        Js.get key (Utilities.getPageProperties page) = Some value ->
        Utilities.isDeferred value = true ->
        Utilities.isRequested value = false ->
        Js.get key (Utilities.getDeferredPageProperties page) = Some value).
Proof.
  unfold Utilities.getDeferredPageProperties. split.
  - intros key value Hget. unfold Js.fromEntries in Hget.
    apply spread_get_in in Hget as [Hempty|Hin]; [discriminate|].
    apply list_elem_of_filter in Hin as [Htest Hin]. split; [done|].
    apply Is_true_true, andb_true_iff in Htest as [Hdeferred Hrequested].
    split; [done|]. by apply negb_true_iff.
  - intros Hnd key value Hget Hdeferred Hrequested.
    rewrite fromEntries_distinct.
    + apply (get_filter
               (fun e => Utilities.isDeferred (snd e)
                         && negb (Utilities.isRequested (snd e)))); [done|].
      simpl. by rewrite Hdeferred, Hrequested.
    + apply (filter_keys_NoDup
               (fun e => Utilities.isDeferred (snd e)
                         && negb (Utilities.isRequested (snd e)))).
      unfold Utilities.getPageProperties. by apply spread_NoDup.
Qed.

Lemma getDeferredPageProperties_selects_witness :
  Js.get "users" (Utilities.getDeferredPageProperties deferringPage)
  = Some deferredValue.
Proof.
  destruct (getDeferredPageProperties_selects deferringPage) as [_ Hall].
  apply Hall; try reflexivity. apply (bool_decide_unpack _). by vm_compute.
Defined.

(** ** The page stack of the router *)

Section Stack.
Import Router.

Lemma samePages_refl r : samePages r r.
Proof. by split. Qed.

Lemma samePages_trans a b c : samePages a b -> samePages b c -> samePages a c.
Proof. intros [? ?] [? ?]. split; congruence. Qed.

Lemma samePages_cancelVisitBegin visitId interrupt r :
  samePages r (fst (cancelVisitBegin visitId interrupt r)).
Proof.
  unfold cancelVisitBegin.
  destruct (activeVisit r) as [ref|]; [|apply samePages_refl].
  destruct (visits r !! ref) as [[visit events]|]; [|apply samePages_refl].
  destruct (negb _); [apply samePages_refl|].
  destruct (_ || _); [apply samePages_refl|].
  unfold emit. simpl. by destruct (visit_cancelToken visit).
Qed.

Lemma samePages_cancelVisitDetached visitId interrupt r :
  samePages r (cancelVisitDetached visitId interrupt r).
Proof.
  unfold cancelVisitDetached.
  pose proof (samePages_cancelVisitBegin visitId interrupt r) as Hbegin.
  by destruct (cancelVisitBegin visitId interrupt r) as [r1 [ref|]].
Qed.

Lemma samePages_finishVisit ref r : samePages r (finishVisit ref r).
Proof.
  unfold finishVisit.
  destruct (visits r !! ref) as [[visit events]|]; [|apply samePages_refl].
  by destruct (_ || _).
Qed.

Lemma samePages_setPageDeferred r : samePages r (setPageDeferred r).
Proof. unfold setPageDeferred. by repeat case_match. Qed.

Lemma samePages_drain r : samePages r (drain r).
Proof.
  unfold drain.
  assert (H : forall ks r0, samePages r0 (fold_left (fun r k => resume k r) ks r0)).
  { induction ks as [|k ks IH]; intros r0; simpl; [apply samePages_refl|].
    eapply samePages_trans; [|apply IH]. destruct k; simpl.
    - done.
    - apply samePages_setPageDeferred. }
  eapply samePages_trans; [|apply H]. done.
Qed.

Lemma samePages_wellStacked r r' : samePages r r' -> wellStacked r -> wellStacked r'.
Proof. intros [Hpages Hindex]. unfold wellStacked. by rewrite Hpages, Hindex. Qed.

Lemma stacked_assign i page r :
  i < length (internalPages r) -> wellStacked r ->
  wellStacked (setInternalPages (Js.assign i page (internalPages r)) r).
Proof.
  intros Hi [Hindex Hall]. unfold wellStacked, Js.assign.
  apply Nat.ltb_lt in Hi. rewrite Hi.
  cbn [internalPages pageIndex setInternalPages].
  rewrite length_insert. split; [done|]. by apply Forall_insert.
Qed.

Lemma stacked_replaceState page preserveURL r :
  wellStacked r -> wellStacked (replaceState page preserveURL r).
Proof.
  intros Hr. unfold replaceState.
  assert (wellStacked
            (setInternalPages (Js.assign (pageIndex r) page (internalPages r)) r))
    by (apply stacked_assign; [apply Hr | done]).
  repeat case_match; by eapply samePages_wellStacked; [|eassumption].
Qed.

(** What [pushState] leaves in the stack: the pages up to the current one,
    then the new page. *)
Lemma pushState_pages page r :
  pageIndex r < length (internalPages r) ->
  internalPages (pushState page r)
  = take (S (pageIndex r)) (internalPages r) ++ [Some page]
  /\ pageIndex (pushState page r) = S (pageIndex r).
Proof.
  intros Hindex. unfold pushState.
  assert (Hpages :
            Js.assign (S (pageIndex r)) page
              (Js.setLength (S (pageIndex r) + 1) (internalPages r))
            = take (S (pageIndex r)) (internalPages r) ++ [Some page]).
  { unfold Js.assign, Js.setLength.
    rewrite length_app, length_take, length_replicate.
    replace (S (pageIndex r) <? _) with true by (symmetry; apply Nat.ltb_lt; lia).
    destruct (decide (length (internalPages r) = S (pageIndex r))) as [Heq|Hne].
    - rewrite Heq. replace (S (pageIndex r) + 1 - S (pageIndex r)) with 1 by lia.
      rewrite !take_ge by lia. simpl.
      rewrite insert_app_r_alt by lia.
      by replace (S (pageIndex r) - length (internalPages r)) with 0 by lia.
    - replace (S (pageIndex r) + 1 - length (internalPages r)) with 0 by lia.
      cbn [replicate]. rewrite app_nil_r.
      replace (S (pageIndex r) + 1) with (S (S (pageIndex r))) by lia.
      destruct (lookup_lt_is_Some_2 (internalPages r) (S (pageIndex r)))
        as [next Hnext]; [lia|].
      rewrite (take_S_r _ _ next) by done.
      rewrite insert_app_r_alt by (rewrite length_take; lia).
      rewrite length_take.
      by replace (S (pageIndex r) - _) with 0 by lia. }
  cbv zeta.
  cbn [pageIndex internalPages setPageIndex setInternalPages window].
  destruct (window_isSSR _);
    cbn [pageIndex internalPages setPageIndex setInternalPages setWindowHref
           setWindow record];
    by rewrite Hpages.
Qed.

Lemma stacked_pushState page r : wellStacked r -> wellStacked (pushState page r).
Proof.
  intros [Hindex Hall]. destruct (pushState_pages page r Hindex) as [Hpages Hi].
  unfold wellStacked. rewrite Hpages, Hi, length_app, length_take.
  cbn [length]. split; [lia|]. apply Forall_app. split; [by apply Forall_take|].
  by repeat constructor.
Qed.

Lemma stacked_saveScrollPositions r r' :
  saveScrollPositions r = Returns r' -> wellStacked r -> wellStacked r'.
Proof.
  unfold saveScrollPositions. repeat case_match; returned; [done|].
  apply stacked_replaceState.
Qed.

Lemma stacked_resetScrollPositions r r' :
  resetScrollPositions r = Returns r' -> wellStacked r -> wellStacked r'.
Proof.
  unfold resetScrollPositions. case_match; [by returned|].
  intros Hsave Hr. eapply stacked_saveScrollPositions; [exact Hsave|].
  by eapply samePages_wellStacked; [|exact Hr].
Qed.

Lemma previousPage_index r previous :
  previousPage r = Some previous -> 0 < pageIndex r.
Proof.
  unfold previousPage, internalPreviousPage, Utilities.clonePage, Js.at_.
  destruct (Z.ltb_spec (Z.of_nat (pageIndex r) - 1) 0); [discriminate|]. lia.
Qed.

Lemma samePages_backWithoutFallback r : samePages r (backWithoutFallback r).
Proof. unfold backWithoutFallback. by destruct (window_isSSR (window r)). Qed.

Lemma stacked_setPageCommit page opts r r' next initial :
  setPageCommit page opts r = Returns (r', next, initial) ->
  wellStacked r -> wellStacked r'.
Proof.
  unfold setPageCommit. intros Hcommit Hr. revert Hcommit.
  destruct (match page_base page with
            | Some base => _
            | None => Returns page
            end) as [pageWithBase| |]; cbn [bindOutcome]; try discriminate.
  destruct (Utilities.mergePages _ _ _) as [merged| |]; cbn [bindOutcome];
    try discriminate.
  set (r0 := match fst merged with
             | Some current =>
                 setInternalPages
                   (Js.assign (pageIndex r) current (internalPages r)) r
             | None => r
             end).
  assert (Hr0 : wellStacked r0).
  { subst r0. destruct (fst merged); [|done].
    apply stacked_assign; [apply Hr | done]. }
  match goal with
  | |- bindOutcome (if _ then Returns ?a else resetScrollPositions ?a) _ = _ -> _ =>
      assert (Hcommit : wellStacked a)
  end.
  { destruct (_ || _); [by apply stacked_replaceState|].
    destruct (previousPage r0) as [previous|] eqn:Hprevious;
      [|by apply stacked_pushState].
    destruct (String.eqb _ _); [|by apply stacked_pushState].
    apply previousPage_index in Hprevious.
    eapply samePages_wellStacked; [|apply (stacked_assign (pageIndex r0 - 1))];
      [apply samePages_backWithoutFallback| |done].
    destruct Hr0. lia. }
  destruct (set_preserveScroll opts).
  - cbn [bindOutcome]. by returned.
  - destruct (resetScrollPositions _) as [r2| |] eqn:Hreset;
      cbn [bindOutcome]; try discriminate.
    returned. by eapply stacked_resetScrollPositions.
Qed.

Lemma samePages_setPageNavigate r : samePages r (setPageNavigate r).
Proof. done. Qed.

Lemma stacked_setPage page opts r r' next :
  setPage page opts r = Returns (r', next) -> wellStacked r -> wellStacked r'.
Proof.
  unfold setPage.
  destruct (setPageCommit page opts r) as [[[r1 next1] initial]| |] eqn:Hcommit;
    cbn [bindOutcome]; try discriminate.
  returned. intros Hr. apply stacked_setPageCommit in Hcommit; [|done].
  eapply samePages_wellStacked; [apply samePages_setPageDeferred|].
  by destruct initial.
Qed.

Lemma stacked_setPageDetached page opts r r' :
  setPageDetached page opts r = Returns r' -> wellStacked r -> wellStacked r'.
Proof.
  unfold setPageDetached.
  destruct (setPageCommit page opts r) as [[[r1 next1] initial]| |] eqn:Hcommit;
    cbn [bindOutcome]; try discriminate.
  intros Hreturned Hr. apply stacked_setPageCommit in Hcommit; [|done].
  destruct initial; injection Hreturned as <-.
  - by eapply samePages_wellStacked; [apply samePages_setPageDeferred|].
  - done.
Qed.

Lemma stacked_visitActivate ref r r' :
  visitActivate ref r = Returns r' -> wellStacked r -> wellStacked r'.
Proof.
  unfold visitActivate.
  destruct (visitOf r ref) as [visit|]; [|by returned].
  destruct (visit_background visit); [by returned|].
  match goal with
  | |- bindOutcome (saveScrollPositions ?s) _ = _ -> _ =>
      assert (Hcancel : samePages r s);
      [|destruct (saveScrollPositions s) as [r2| |] eqn:Hsave;
        cbn [bindOutcome]; try discriminate]
  end.
  { destruct (activeVisit r ≫= visitOf r); [|apply samePages_refl].
    apply samePages_cancelVisitDetached. }
  returned. intros Hr.
  apply stacked_saveScrollPositions in Hsave;
    [done | by eapply samePages_wellStacked].
Qed.

Lemma stacked_handleResult ref h result r r' :
  handleResult ref h result r = Returns r' -> wellStacked r -> wellStacked r'.
Proof.
  unfold handleResult, emitException, redirect, applyResponse.
  destruct result as [response|response| |]; try by returned.
  - destruct (negb (handling_background h)); [|by returned].
    destruct (negb (isNavigareResponse response)); [by returned|].
    destruct (response_data response) as [data|]; [|by returned].
    destruct (setPage _ _ r) as [[r1 next]| |] eqn:Hset; cbn [bindOutcome];
      try by returned.
    cbn [fst]. destruct (page r1) as [current|]; [|by returned].
    intros Hreturned Hr. apply stacked_setPage in Hset; [|done].
    by destruct (0 <? keyCount (errorsOf current)); injection Hreturned as <-.
  - destruct (isNavigareResponse response).
    { destruct (response_data response) as [data|]; [|by returned].
      destruct (setPageDetached data noSetPageOptions r) as [r1| |] eqn:Hset;
        try by returned.
      returned. by eapply stacked_setPageDetached. }
    destruct (isRedirectResponse response).
    { destruct (Str.isEmpty _); [discriminate|].
      destruct (createLocation _ r) as [location| |]; cbn [bindOutcome];
        try discriminate.
      by returned. }
    destruct (handling_background h); [by returned|].
    destruct (emit "invalid" _ _ _ r) as [shown r1] eqn:Hinvalid.
    returned. unfold emit in Hinvalid. injection Hinvalid as _ <-.
    by destruct (truthy _).
Qed.

Lemma stacked_visit routable opts env r r' ref :
  visit routable opts env r = Returns (r', ref) -> wellStacked r -> wellStacked r'.
Proof.
  unfold visit.
  destruct (visitCreate routable opts env r)
    as [[[r1 ref1] prepared]| |] eqn:Hcreate; cbn [bindOutcome];
    try discriminate.
  apply visitCreate_spec in Hcreate as (r0 & visitB & Hr0 & _ & Hr1 & _).
  assert (Hcreated : samePages r r1)
    by (subst r1; by destruct Hr0 as [->| ->]).
  clear Hr1. unfold emit at 1. destruct (truthy _); cbn [negb].
  2:{ intros [= <- <-] Hr. eapply samePages_wellStacked; [|exact Hr].
      eapply samePages_trans; [exact Hcreated|]. done. }
  destruct (visitActivate ref1 _) as [r3| |] eqn:Hactivate;
    cbn [bindOutcome]; try discriminate.
  unfold visitSettle.
  destruct (handleResult _ _ _ _) as [r4| |] eqn:Hresult; cbn [bindOutcome];
    try discriminate.
  returned. intros Hr.
  eapply samePages_wellStacked; [apply samePages_finishVisit|].
  eapply stacked_handleResult; [exact Hresult|].
  eapply samePages_wellStacked; [apply samePages_drain|].
  eapply samePages_wellStacked; [apply samePages_drain|].
  eapply (samePages_wellStacked r3); [done|].
  eapply stacked_visitActivate; [exact Hactivate|].
  eapply samePages_wellStacked; [|exact Hr].
  eapply samePages_trans; [exact Hcreated|]. done.
Qed.

Lemma wellStacked_page r : wellStacked r -> is_Some (page r).
Proof.
  intros [Hindex Hall]. unfold page, internalPage, Utilities.clonePage, Js.at_.
  destruct (Z.ltb_spec (Z.of_nat (pageIndex r)) 0); [lia|].
  rewrite Nat2Z.id.
  destruct (lookup_lt_is_Some_2 _ _ Hindex) as [slot Hslot].
  rewrite Hslot. cbn. eapply Forall_lookup_1 in Hall; [|exact Hslot]. done.
Qed.

End Stack.

(** ** The constructor *)

Section Constructor.
Import Router.

Lemma mergePages_frame page nextPage options current merged :
  Utilities.mergePages page nextPage options = Returns (current, merged) ->
  page_location merged = page_location nextPage
  /\ page_visit merged = page_visit nextPage
  /\ (page = None -> current = None).
Proof.
  unfold Utilities.mergePages.
  destruct (Utilities.mergeFragments _ _ _) as [fragments| |];
    cbn [bindOutcome]; try discriminate.
  intros [= <- <-]. repeat split. by intros ->.
Qed.

Lemma replaceState_first page preserveURL r :
  internalPages r = [] -> pageIndex r = 0 ->
  internalPages (replaceState page preserveURL r) = [Some page]
  /\ pageIndex (replaceState page preserveURL r) = 0
  /\ visits (replaceState page preserveURL r) = visits r
  /\ activeVisit (replaceState page preserveURL r) = activeVisit r
  /\ emitter (replaceState page preserveURL r) = emitter r
  /\ exists added,
       trace (replaceState page preserveURL r) = trace r ++ added
       /\ onlyReplaces added.
Proof.
  intros Hpages Hindex. unfold replaceState. rewrite Hpages, Hindex.
  cbv zeta. cbn [window setInternalPages].
  destruct (window_isSSR (window r)); [|destruct preserveURL]; cbn;
    do 5 (split; [done|]).
  - exists []. split; [by rewrite app_nil_r | constructor].
  - eexists [_]. split; [done|]. repeat constructor. by eexists _, _.
  - eexists [_]. split; [done|]. repeat constructor. by eexists _, _.
Qed.

Lemma replaceState_again page preserveURL r first :
  internalPages r = [Some first] -> pageIndex r = 0 ->
  internalPages (replaceState page preserveURL r) = [Some page]
  /\ pageIndex (replaceState page preserveURL r) = 0
  /\ visits (replaceState page preserveURL r) = visits r
  /\ activeVisit (replaceState page preserveURL r) = activeVisit r
  /\ emitter (replaceState page preserveURL r) = emitter r
  /\ exists added,
       trace (replaceState page preserveURL r) = trace r ++ added
       /\ onlyReplaces added.
Proof.
  intros Hpages Hindex. unfold replaceState. rewrite Hpages, Hindex.
  cbv zeta. cbn [window setInternalPages].
  destruct (window_isSSR (window r)); [|destruct preserveURL]; cbn;
    do 5 (split; [done|]).
  - exists []. split; [by rewrite app_nil_r | constructor].
  - eexists [_]. split; [done|]. repeat constructor. by eexists _, _.
  - eexists [_]. split; [done|]. repeat constructor. by eexists _, _.
Qed.

Lemma onlyReplaces_app a b : onlyReplaces a -> onlyReplaces b -> onlyReplaces (a ++ b).
Proof. intros Ha Hb. apply Forall_app. by split. Qed.

Lemma onlyReplaces_silent effects : onlyReplaces effects -> silent effects.
Proof.
  intros Hall name visit snapshot Hin.
  eapply Forall_forall in Hall as (page & url & Heq); [|exact Hin]. discriminate.
Qed.

Lemma setPageDeferred_frame r :
  internalPages (setPageDeferred r) = internalPages r
  /\ pageIndex (setPageDeferred r) = pageIndex r
  /\ visits (setPageDeferred r) = visits r
  /\ activeVisit (setPageDeferred r) = activeVisit r
  /\ emitter (setPageDeferred r) = emitter r
  /\ trace (setPageDeferred r) = trace r.
Proof. unfold setPageDeferred. by repeat case_match. Qed.

(** The first [setPage] of a router: the page goes to the front of the
    stack, and nothing is emitted. *)
Lemma setPageDetached_first page opts r r' :
  internalPages r = [] -> pageIndex r = 0 ->
  setPageDetached page opts r = Returns r' ->
  exists current added,
    internalPages r' = [Some current] /\ pageIndex r' = 0
    /\ page_visit current = page_visit page
    /\ page_location current = page_location page
    /\ visits r' = visits r /\ activeVisit r' = activeVisit r
    /\ emitter r' = emitter r
    /\ trace r' = trace r ++ added /\ onlyReplaces added.
Proof.
  intros Hpages Hindex. unfold setPageDetached, setPageCommit.
  assert (Hnone : Router.page r = None).
  { unfold Router.page, internalPage, Utilities.clonePage, Js.at_.
    rewrite Hpages, Hindex. reflexivity. }
  rewrite Hnone. cbn [Utilities.isNull orb].
  destruct (match page_base page with
            | Some base => _
            | None => Returns page
            end) as [pageWithBase| |] eqn:Hbase; cbn [bindOutcome];
    try discriminate.
  assert (HwithBase : page_location pageWithBase = page_location page
                      /\ page_visit pageWithBase = page_visit page).
  { destruct (page_base page) as [base|]; [|by injection Hbase as <-].
    destruct (Utilities.mergePages _ _ _) as [[c m]| |] eqn:Hmerge;
      cbn [bindOutcome] in Hbase; try discriminate.
    injection Hbase as <-. by apply mergePages_frame in Hmerge as (? & ? & _). }
  destruct (Utilities.mergePages None _ _) as [[current merged]| |] eqn:Hmerge;
    cbn [bindOutcome]; try discriminate.
  apply mergePages_frame in Hmerge as (Hlocation & Hvisit & Hcurrent).
  unfold Utilities.transformPagePropertyKeys in Hlocation, Hvisit.
  cbn in Hlocation, Hvisit.
  rewrite (Hcurrent eq_refl). cbn [fst snd].
  set (p := withRememberedState (withScrollRegions merged _) _).
  assert (Hp : page_visit p = page_visit page
               /\ page_location p = page_location page)
    by (cbn; destruct HwithBase; split; congruence).
  match goal with
  | |- context [replaceState p ?u r] =>
      destruct (replaceState_first p u r Hpages Hindex)
        as (Hpages1 & Hindex1 & Hvisits1 & Hactive1 & Hemitter1 & added1
            & Htrace1 & Hadded1);
      set (r1 := replaceState p u r) in *
  end.
  clearbody r1 p.
  destruct (set_preserveScroll opts); cbn [bindOutcome].
  - intros [= <-]. exists p, added1.
    destruct (setPageDeferred_frame r1) as (-> & -> & -> & -> & -> & ->).
    by destruct Hp.
  - unfold resetScrollPositions, saveScrollPositions.
    cbn [window setWindow window_isSSR].
    destruct (window_isSSR (window r1)) eqn:Hssr; cbn [bindOutcome].
    + intros [= <-]. exists p, added1.
      destruct (setPageDeferred_frame r1) as (-> & -> & -> & -> & -> & ->).
      by destruct Hp.
    + match goal with
      | |- context [Router.page ?s] =>
          assert (Hpage : Router.page s = Some p)
      end.
      { unfold Router.page, internalPage, Utilities.clonePage, Js.at_. cbn.
        by rewrite Hpages1, Hindex1. }
      rewrite Hpage. cbn [bindOutcome].
      intros [= <-].
      match goal with
      | |- context [setPageDeferred ?s] =>
          destruct (setPageDeferred_frame s) as (-> & -> & -> & -> & -> & ->)
      end.
      match goal with
      | |- context [replaceState ?q ?u ?s] =>
          destruct (replaceState_again q u s p)
            as (Hpages2 & Hindex2 & Hvisits2 & Hactive2 & Hemitter2 & added2
                & Htrace2 & Hadded2); [done|done|]
      end.
      eexists _, (added1 ++ added2).
      rewrite Hpages2, Hindex2, Hvisits2, Hactive2, Hemitter2, Htrace2.
      cbn. rewrite Htrace1, app_assoc. destruct Hp.
      repeat split; try done. by apply onlyReplaces_app.
Qed.

Lemma on_frame name listener r :
  internalPages (on name listener r) = internalPages r
  /\ pageIndex (on name listener r) = pageIndex r
  /\ visits (on name listener r) = visits r
  /\ activeVisit (on name listener r) = activeVisit r
  /\ trace (on name listener r) = trace r.
Proof. by destruct listener. Qed.

Lemma listeners_frame (listeners : Js.object (Utilities.Listener Detail)) names :
  forall r,
    let r' := fold_left (fun r name => on name (Js.get name listeners) r) names r in
    internalPages r' = internalPages r
    /\ pageIndex r' = pageIndex r
    /\ visits r' = visits r
    /\ activeVisit r' = activeVisit r
    /\ trace r' = trace r.
Proof.
  induction names as [|name names IH]; intros r; [done|].
  cbn [fold_left]. cbv zeta in IH.
  destruct (IH (on name (Js.get name listeners) r)) as (-> & -> & -> & -> & ->).
  apply on_frame.
Qed.

End Constructor.

(** X12.  [new Router(options)] returns a router that holds the initial
    page alone, at index 0 and with the location it came with; the page
    belongs to the initial visit, which is the active visit and is neither
    completed nor cancelled; and no event was emitted. *)
Theorem construct_initial_state (opts : Router.RouterOptions)
  (initialPage : Page) (listeners : Js.object (Utilities.Listener Router.Detail))
  (win : Router.Window) (id : string) (r : Router.State) :
  Router.construct opts initialPage listeners win id = Returns r ->
  exists ref visit events current,
    Router.visits r = {[ref := (visit, events)]}
    /\ Router.activeVisit r = Some ref
    /\ Router.visit_id visit = id
    /\ Router.visit_completed visit = false
    /\ Router.visit_cancelled visit = false
    /\ Router.internalPages r = [Some current]
    /\ Router.pageIndex r = 0
    /\ page_visit current = Some ref
    /\ page_location current = page_location initialPage
    /\ silent (Router.trace r).
Proof.
  unfold Router.construct, Router.allocate. cbv zeta.
  cbn [Router.visits Router.setVisits Router.setActiveVisit].
  set (ref := fresh _).
  destruct (Router.createVisit id _) as [visit events] eqn:Hcreate.
  assert (Hfresh : Router.visit_id visit = id
                   /\ Router.visit_completed visit = false
                   /\ Router.visit_cancelled visit = false)
    by (unfold Router.createVisit in Hcreate; by injection Hcreate as <- <-).
  clear Hcreate.
  destruct (Router.setPageDetached _ _ _) as [r3| |] eqn:Hset;
    cbn [bindOutcome]; try discriminate.
  set (attached := fold_left _ _ r3).
  intros Hreturned.
  assert (Hr : r = Router.on "exception" (Some Router.logException) attached)
    by (injection Hreturned; intros <-; reflexivity).
  clear Hreturned. subst r.
  apply setPageDetached_first in Hset
    as (current & added & Hpages & Hindex & Hvisit & Hlocation & Hvisits
        & Hactive & _ & Htrace & Hadded); [|done|done].
  exists ref, visit, events, current.
  destruct (on_frame "exception" (Some Router.logException) attached)
    as (-> & -> & -> & -> & ->).
  subst attached.
  destruct (listeners_frame listeners
              ["before"; "start"; "progress"; "navigate"; "finish"; "cancel";
               "success"; "error"; "invalid"; "exception"] r3)
    as (-> & -> & -> & -> & ->).
  rewrite Hvisits, Hactive, Hpages, Hindex, Htrace.
  cbn [Router.visits Router.activeVisit Router.trace Router.setVisits
         Router.setActiveVisit app].
  rewrite insert_empty. destruct Hfresh as (? & ? & ?).
  do 9 (split; [done|]). by apply onlyReplaces_silent.
Qed.

Lemma construct_initial_state_witness :
  exists ref visit events current,
    Router.visits homeRouter = {[ref := (visit, events)]}
    /\ Router.activeVisit homeRouter = Some ref
    /\ Router.visit_id visit = "0.initial"
    /\ Router.visit_completed visit = false
    /\ Router.visit_cancelled visit = false
    /\ Router.internalPages homeRouter = [Some current]
    /\ Router.pageIndex homeRouter = 0
    /\ page_visit current = Some ref
    /\ page_location current = page_location (pageAt "http://localhost/home")
    /\ silent (Router.trace homeRouter).
Proof.
  apply (construct_initial_state (Router.mkOptions None None None)
           (pageAt "http://localhost/home") []
           (browserAt "http://localhost/home") "0.initial").
  vm_compute. reflexivity.
Defined.

(** X13.  A visit keeps the stack in order: when the pages of the router
    are without holes and its index is on one of them, the same holds
    after [visit], however the request ends, and the router has a current
    page. *)
Theorem visit_keeps_current_page (routable : Router.Routable)
  (opts : Router.VisitOptions) (env : Router.Environment)
  (r r' : Router.State) (ref : VisitRef) :
  wellStacked r ->
  Router.visit routable opts env r = Returns (r', ref) ->
  wellStacked r' /\ is_Some (Router.page r').
Proof.
  intros Hr Hvisit. apply stacked_visit in Hvisit; [|done].
  split; [done | by apply wellStacked_page].
Qed.

Lemma visit_keeps_current_page_witness :
  wellStacked usersRouter /\ is_Some (Router.page usersRouter).
Proof.
  apply (visit_keeps_current_page
           (Router.RoutableString "http://localhost/users")
           Router.noVisitOptions usersArrive homeRouter usersRouter 1).
  - split; [vm_compute; lia | vm_compute; repeat constructor; by eexists].
  - vm_compute. reflexivity.
Defined.

(** ** The life of a visit *)

Section Lifecycle.
Import Router.

Lemma sameVisits_refl r : sameVisits r r.
Proof. by split. Qed.

Lemma sameVisits_trans a b c : sameVisits a b -> sameVisits b c -> sameVisits a c.
Proof. intros [? ?] [? ?]. split; congruence. Qed.

Lemma sameVisits_replaceState page preserveURL r :
  sameVisits r (replaceState page preserveURL r).
Proof. unfold replaceState. by repeat case_match. Qed.

Lemma sameVisits_pushState page r : sameVisits r (pushState page r).
Proof. unfold pushState. by repeat case_match. Qed.

Lemma sameVisits_saveScrollPositions r r' :
  saveScrollPositions r = Returns r' -> sameVisits r r'.
Proof.
  unfold saveScrollPositions. repeat case_match; returned;
    [apply sameVisits_refl | apply sameVisits_replaceState].
Qed.

Lemma sameVisits_resetScrollPositions r r' :
  resetScrollPositions r = Returns r' -> sameVisits r r'.
Proof.
  unfold resetScrollPositions. case_match; [returned; apply sameVisits_refl|].
  intros Hsave. by apply sameVisits_saveScrollPositions in Hsave.
Qed.

Lemma sameVisits_setPageDeferred r : sameVisits r (setPageDeferred r).
Proof. unfold setPageDeferred. by repeat case_match. Qed.

Lemma sameVisits_setPageCommit page opts r r' next initial :
  setPageCommit page opts r = Returns (r', next, initial) -> sameVisits r r'.
Proof.
  unfold setPageCommit.
  destruct (match page_base page with
            | Some base => _
            | None => Returns page
            end) as [pageWithBase| |]; cbn [bindOutcome]; try discriminate.
  destruct (Utilities.mergePages _ _ _) as [merged| |]; cbn [bindOutcome];
    try discriminate.
  set (r0 := match fst merged with
             | Some current =>
                 setInternalPages
                   (Js.assign (pageIndex r) current (internalPages r)) r
             | None => r
             end).
  assert (Hr0 : sameVisits r r0) by (subst r0; by destruct (fst merged)).
  match goal with
  | |- bindOutcome (if _ then Returns ?a else resetScrollPositions ?a) _ = _ -> _ =>
      assert (Hcommit : sameVisits r a)
  end.
  { eapply sameVisits_trans; [exact Hr0|].
    destruct (_ || _); [apply sameVisits_replaceState|].
    destruct (previousPage r0) as [previous|];
      [|apply sameVisits_pushState].
    destruct (String.eqb _ _); [|apply sameVisits_pushState].
    unfold backWithoutFallback. by destruct (window_isSSR _). }
  destruct (set_preserveScroll opts).
  - cbn [bindOutcome]. by returned.
  - destruct (resetScrollPositions _) as [r2| |] eqn:Hreset;
      cbn [bindOutcome]; try discriminate.
    returned. eapply sameVisits_trans; [exact Hcommit|].
    by apply sameVisits_resetScrollPositions.
Qed.

Lemma sameVisits_setPage page opts r r' next :
  setPage page opts r = Returns (r', next) -> sameVisits r r'.
Proof.
  unfold setPage.
  destruct (setPageCommit page opts r) as [[[r1 next1] initial]| |] eqn:Hcommit;
    cbn [bindOutcome]; try discriminate.
  returned. apply sameVisits_setPageCommit in Hcommit.
  eapply sameVisits_trans; [exact Hcommit|].
  eapply sameVisits_trans; [|apply sameVisits_setPageDeferred].
  by destruct initial.
Qed.

Lemma sameVisits_setPageDetached page opts r r' :
  setPageDetached page opts r = Returns r' -> sameVisits r r'.
Proof.
  unfold setPageDetached.
  destruct (setPageCommit page opts r) as [[[r1 next1] initial]| |] eqn:Hcommit;
    cbn [bindOutcome]; try discriminate.
  apply sameVisits_setPageCommit in Hcommit.
  destruct initial; returned; (eapply sameVisits_trans; [exact Hcommit|]).
  - apply sameVisits_setPageDeferred.
  - done.
Qed.

Lemma sameVisits_handleResult ref h result r r' :
  handleResult ref h result r = Returns r' -> sameVisits r r'.
Proof.
  unfold handleResult, emitException, redirect, applyResponse.
  destruct result as [response|response| |]; try by returned.
  - destruct (negb (handling_background h)); [|by returned].
    destruct (negb (isNavigareResponse response)); [by returned|].
    destruct (response_data response) as [data|]; [|by returned].
    destruct (setPage _ _ r) as [[r1 next]| |] eqn:Hset; cbn [bindOutcome];
      try by returned.
    cbn [fst]. destruct (page r1) as [current|]; [|by returned].
    apply sameVisits_setPage in Hset.
    by destruct (0 <? keyCount (errorsOf current)); returned.
  - destruct (isNavigareResponse response).
    { destruct (response_data response) as [data|]; [|by returned].
      destruct (setPageDetached data noSetPageOptions r) as [r1| |] eqn:Hset;
        try by returned.
      returned. by eapply sameVisits_setPageDetached. }
    destruct (isRedirectResponse response).
    { destruct (Str.isEmpty _); [discriminate|].
      destruct (createLocation _ r) as [location| |]; cbn [bindOutcome];
        try discriminate.
      by returned. }
    destruct (handling_background h); [by returned|].
    destruct (emit "invalid" _ _ _ r) as [shown r1] eqn:Hinvalid.
    returned. unfold emit in Hinvalid. injection Hinvalid as _ <-.
    by destruct (truthy _).
Qed.

Lemma sameVisits_drain r : sameVisits r (drain r).
Proof.
  unfold drain.
  assert (H : forall ks r0, sameVisits r0 (fold_left (fun r k => resume k r) ks r0)).
  { induction ks as [|k ks IH]; intros r0; simpl; [apply sameVisits_refl|].
    eapply sameVisits_trans; [|apply IH]. destruct k; simpl.
    - done.
    - apply sameVisits_setPageDeferred. }
  eapply sameVisits_trans; [|apply H]. done.
Qed.

Lemma orderly_sameVisits r r' : sameVisits r r' -> orderlyVisits r -> orderlyVisits r'.
Proof. intros [Hvisits _]. unfold orderlyVisits. by rewrite Hvisits. Qed.

Lemma orderly_insert ref visit events r :
  orderly visit -> orderlyVisits r ->
  orderlyVisits (setVisits (<[ref := (visit, events)]> (visits r)) r).
Proof.
  intros Hvisit Hr ref' visit' events'. cbn.
  destruct (decide (ref = ref')) as [<-|Hne].
  - rewrite lookup_insert_eq. by intros [= <- <-].
  - rewrite lookup_insert_ne by done. apply Hr.
Qed.

Lemma orderly_cancelVisitBegin visitId interrupt r :
  orderlyVisits r -> orderlyVisits (fst (cancelVisitBegin visitId interrupt r)).
Proof.
  intros Hr. unfold cancelVisitBegin.
  destruct (activeVisit r) as [ref|]; [|done].
  destruct (visits r !! ref) as [[visit events]|]; [|done].
  destruct (negb _); [done|]. destruct (_ || _); [done|].
  unfold emit. cbn [fst snd].
  eapply orderly_sameVisits;
    [|apply (orderly_insert ref
               (withLifecycle false true (if interrupt then true else false)
                  (cancelSource (visit_cancelToken visit)) visit) events r)];
    [by destruct (visit_cancelToken visit) | by split | done].
Qed.

Lemma orderly_cancelVisitDetached visitId interrupt r :
  orderlyVisits r -> orderlyVisits (cancelVisitDetached visitId interrupt r).
Proof.
  intros Hr. unfold cancelVisitDetached.
  pose proof (orderly_cancelVisitBegin visitId interrupt r Hr) as Hbegin.
  by destruct (cancelVisitBegin visitId interrupt r) as [r1 [ref|]].
Qed.

Lemma orderly_finishVisit ref r : orderlyVisits r -> orderlyVisits (finishVisit ref r).
Proof.
  intros Hr. unfold finishVisit.
  destruct (visits r !! ref) as [[visit events]|]; [|done].
  destruct (_ || _); [done|].
  eapply orderly_sameVisits;
    [|apply (orderly_insert ref
               (withLifecycle true false false (visit_cancelToken visit) visit)
               events r)]; [done | by split | done].
Qed.

Lemma orderly_visitActivate ref r r' :
  visitActivate ref r = Returns r' -> orderlyVisits r -> orderlyVisits r'.
Proof.
  unfold visitActivate.
  destruct (visitOf r ref) as [visit|]; [|by returned].
  destruct (visit_background visit); [by returned|].
  match goal with
  | |- bindOutcome (saveScrollPositions ?s) _ = _ -> _ =>
      assert (Hcancel : orderlyVisits r -> orderlyVisits s);
      [|destruct (saveScrollPositions s) as [r2| |] eqn:Hsave;
        cbn [bindOutcome]; try discriminate]
  end.
  { destruct (activeVisit r ≫= visitOf r); [|done].
    apply orderly_cancelVisitDetached. }
  returned. intros Hr. apply sameVisits_saveScrollPositions in Hsave.
  pose proof (orderly_sameVisits _ _ Hsave (Hcancel Hr)) as Hr2.
  intros ref' visit' events'. cbn.
  destruct (decide (ref = ref')) as [<-|Hne].
  - rewrite lookup_alter_eq.
    destruct (visits r2 !! ref) as [[v e]|] eqn:Hv; [|discriminate].
    intros [= <- <-]. by apply (Hr2 ref v e).
  - rewrite lookup_alter_ne by done. apply Hr2.
Qed.

End Lifecycle.

Section VisitSteps.
Import Router.

(** What [visit] has done when the visit is created. *)
Lemma visitCreate_new routable opts env r r1 ref prepared :
  visitCreate routable opts env r = Returns (r1, ref, prepared) ->
  exists visit warned,
    visits r !! ref = None
    /\ visits r1 = <[ref := (visit, prepared_events prepared)]> (visits r)
    /\ activeVisit r1 = activeVisit r
    /\ samePages r r1
    /\ trace r1 = trace r ++ warned
    /\ (warned = [] \/ warned = [ConsoleWarn])
    /\ visit_completed visit = false
    /\ visit_cancelled visit = false
    /\ visit_interrupted visit = false
    /\ visit_background visit = default false (visit_option_background opts)
    /\ handling_background (prepared_handling prepared)
       = default false (visit_option_background opts).
Proof.
  unfold visitCreate.
  destruct (resolveRoutable _ _ _ r) as [[r0 resolved]| |] eqn:Hresolve;
    cbn [bindOutcome]; try discriminate.
  apply resolveRoutable_state in Hresolve.
  unfold allocate, createVisit. returned.
  assert (Hfresh : visits r !! fresh (dom (visits r)) = None).
  { apply not_elem_of_dom, is_fresh. }
  destruct Hresolve as [->| ->]; eexists _, _; cbn;
    (split; [exact Hfresh|]); (split; [reflexivity|]); (split; [reflexivity|]);
    (split; [done|]).
  - split; [by rewrite app_nil_r|]. split; [by left|]. by repeat split.
  - split; [reflexivity|]. split; [by right|]. by repeat split.
Qed.

Lemma cancelVisitBegin_other visitId interrupt r ref :
  activeVisit r <> Some ref ->
  visits (fst (cancelVisitBegin visitId interrupt r)) !! ref = visits r !! ref.
Proof.
  intros Hother. unfold cancelVisitBegin.
  destruct (activeVisit r) as [active|]; [|done].
  destruct (visits r !! active) as [[visit events]|]; [|done].
  destruct (negb _); [done|]. destruct (_ || _); [done|].
  unfold emit. cbn [fst snd].
  assert (active <> ref) by congruence.
  destruct (visit_cancelToken visit); cbn; by rewrite lookup_insert_ne.
Qed.

Lemma cancelVisitBegin_active visitId interrupt r :
  activeVisit (fst (cancelVisitBegin visitId interrupt r)) = activeVisit r.
Proof.
  unfold cancelVisitBegin.
  destruct (activeVisit r) as [active|] eqn:Hactive; [|done].
  destruct (visits r !! active) as [[visit events]|]; [|done].
  destruct (negb _); [done|]. destruct (_ || _); [done|].
  unfold emit. cbn [fst snd]. by destruct (visit_cancelToken visit).
Qed.

(** The visit that is activated keeps its flags; [visitActivate] touches
    the active visit and the cancel token of the visit itself. *)
Lemma visitActivate_own ref visit events r r' :
  visits r !! ref = Some (visit, events) ->
  activeVisit r <> Some ref ->
  visitActivate ref r = Returns r' ->
  exists token,
    visits r' !! ref
    = Some (withLifecycle (visit_completed visit) (visit_cancelled visit)
              (visit_interrupted visit) token visit, events).
Proof.
  intros Hvisit Hother. unfold visitActivate, visitOf. rewrite Hvisit.
  cbn [option_map fst].
  destruct (visit_background visit).
  { returned. exists (visit_cancelToken visit). rewrite Hvisit. by destruct visit. }
  match goal with
  | |- bindOutcome (saveScrollPositions ?s) _ = _ -> _ =>
      assert (Hcancel : visits s !! ref = Some (visit, events));
      [|destruct (saveScrollPositions s) as [r2| |] eqn:Hsave;
        cbn [bindOutcome]; try discriminate]
  end.
  { destruct (activeVisit r ≫= _); [|done].
    unfold cancelVisitDetached.
    match goal with
    | |- context [cancelVisitBegin ?id ?i r] =>
        pose proof (cancelVisitBegin_other id i r ref Hother) as Hbegin;
        destruct (cancelVisitBegin id i r) as [r1 [active|]]
    end; cbn in *; congruence. }
  apply sameVisits_saveScrollPositions in Hsave as [Hvisits _].
  returned. eexists. cbn. rewrite lookup_alter_eq, Hvisits, Hcancel. reflexivity.
Qed.

Lemma finishVisit_pending ref visit events r :
  visits r !! ref = Some (visit, events) ->
  visit_completed visit = false -> visit_cancelled visit = false ->
  let finished := withLifecycle true false false (visit_cancelToken visit) visit in
  visits (finishVisit ref r) = <[ref := (finished, events)]> (visits r)
  /\ activeVisit (finishVisit ref r) = activeVisit r
  /\ samePages r (finishVisit ref r)
  /\ trace (finishVisit ref r)
     = trace r
       ++ [Emitted "finish" (Some ref)
             (fst <$> <[ref := (finished, events)]> (visits r))].
Proof.
  intros Hvisit Hcompleted Hcancelled. unfold finishVisit.
  rewrite Hvisit, Hcompleted, Hcancelled. by cbn.
Qed.

Lemma grows_elem_of r r' effect : grows r r' -> effect ∈ trace r -> effect ∈ trace r'.
Proof. intros [added ->] Hin. apply elem_of_app. by left. Qed.

End VisitSteps.

Section VisitOutcome.
Import Router.

Lemma finishVisit_other ref other r :
  other <> ref ->
  visits (finishVisit ref r) !! other = visits r !! other
  /\ activeVisit (finishVisit ref r) = activeVisit r.
Proof.
  intros Hne. unfold finishVisit.
  destruct (visits r !! ref) as [[visit events]|]; [|done].
  destruct (_ || _); [done|]. cbn. by rewrite lookup_insert_ne.
Qed.

Lemma samePages_handleResult_background ref h result r r' :
  handling_background h = true ->
  (forall response,
      result = RejectedWithResponse response ->
      isNavigareResponse response = false) ->
  handleResult ref h result r = Returns r' ->
  samePages r r'.
Proof.
  intros Hbackground Herror. unfold handleResult, emitException, redirect.
  rewrite Hbackground. cbn [negb].
  destruct result as [response|response| |]; try by returned.
  rewrite (Herror response eq_refl).
  destruct (isRedirectResponse response); [|by returned].
  destruct (Str.isEmpty _); [discriminate|].
  destruct (createLocation _ r) as [location| |]; cbn [bindOutcome];
    try discriminate.
  by returned.
Qed.

Lemma orderly_singleton r ref visit events :
  visits r = {[ref := (visit, events)]} -> orderly visit -> orderlyVisits r.
Proof.
  intros Hvisits Hvisit ref' visit' events'. rewrite Hvisits.
  intros [_ [= <- <-]]%lookup_singleton_Some. exact Hvisit.
Qed.

End VisitOutcome.

(** X14.  A visit keeps the visits of the router in order: when no visit
    is both completed and cancelled and only cancelled visits are
    interrupted, the same holds after [visit], for the new visit too. *)
Theorem visit_keeps_visits_orderly (routable : Router.Routable)
  (opts : Router.VisitOptions) (env : Router.Environment)
  (r r' : Router.State) (ref : VisitRef) :
  orderlyVisits r ->
  Router.visit routable opts env r = Returns (r', ref) ->
  orderlyVisits r'.
Proof.
  intros Hr. unfold Router.visit.
  destruct (Router.visitCreate routable opts env r)
    as [[[r1 ref1] prepared]| |] eqn:Hcreate; cbn [bindOutcome];
    try discriminate.
  apply visitCreate_new in Hcreate
    as (visit & warned & _ & Hvisits & _ & _ & _ & _ & Hcompleted & Hcancelled
        & Hinterrupted & _).
  assert (Hr1 : orderlyVisits r1).
  { intros ref' visit' events'. rewrite Hvisits.
    destruct (decide (ref1 = ref')) as [<-|Hne].
    - rewrite lookup_insert_eq. intros [= <- <-]. split; [by rewrite Hcompleted|].
      by rewrite Hinterrupted.
    - rewrite lookup_insert_ne by done. apply Hr. }
  unfold Router.emit at 1. destruct (truthy _); cbn [negb].
  2:{ intros [= <- <-]. by eapply orderly_sameVisits; [|exact Hr1]. }
  destruct (Router.visitActivate ref1 _) as [r3| |] eqn:Hactivate;
    cbn [bindOutcome]; try discriminate.
  unfold Router.visitSettle.
  destruct (Router.handleResult _ _ _ _) as [r4| |] eqn:Hresult;
    cbn [bindOutcome]; try discriminate.
  intros [= <- <-]. apply orderly_finishVisit.
  eapply orderly_sameVisits; [by eapply sameVisits_handleResult|].
  eapply orderly_sameVisits; [apply sameVisits_drain|].
  eapply orderly_sameVisits; [apply sameVisits_drain|].
  eapply (orderly_sameVisits r3); [done|].
  eapply orderly_visitActivate; [exact Hactivate|].
  by eapply orderly_sameVisits; [|exact Hr1].
Qed.

Lemma visit_keeps_visits_orderly_witness : orderlyVisits usersRouter.
Proof.
  apply (visit_keeps_visits_orderly
           (Router.RoutableString "http://localhost/users")
           Router.noVisitOptions usersArrive homeRouter usersRouter 1).
  - apply (orderly_singleton homeRouter 0 initialVisit []);
      [vm_compute; reflexivity|].
    split; vm_compute; [reflexivity | discriminate].
  - vm_compute. reflexivity.
Defined.



(** X16.  A background visit leaves the router where it is: unless the
    request ends with an error response that carries a page, the pages
    and the index are unchanged, the active visit stays the active visit,
    and no other visit is touched (none is cancelled). *)
Theorem background_visit_leaves_router (routable : Router.Routable)
  (opts : Router.VisitOptions) (env : Router.Environment)
  (r r' : Router.State) (ref : VisitRef) :
  Router.visit_option_background opts = Some true ->
  (forall response,
      Router.env_result env = Router.RejectedWithResponse response ->
      Router.isNavigareResponse response = false) ->
  Router.visit routable opts env r = Returns (r', ref) ->
  samePages r r'
  /\ Router.activeVisit r' = Router.activeVisit r
  /\ forall other, other <> ref ->
       Router.visits r' !! other = Router.visits r !! other.
Proof.
  intros Hbackground Herror. unfold Router.visit.
  destruct (Router.visitCreate routable opts env r)
    as [[[r1 ref1] prepared]| |] eqn:Hcreate; cbn [bindOutcome];
    try discriminate.
  apply visitCreate_new in Hcreate
    as (visit & warned & Hfresh & Hvisits & Hactive & Hpages & _ & _ & _ & _ & _
        & Hvisit & Hhandling).
  rewrite Hbackground in Hvisit, Hhandling. cbn in Hvisit, Hhandling.
  assert (Hothers : forall other, other <> ref1 ->
             Router.visits r1 !! other = Router.visits r !! other).
  { intros other Hne. rewrite Hvisits. by apply lookup_insert_ne. }
  unfold Router.emit at 1. destruct (truthy _); cbn [negb].
  2:{ intros [= <- <-]. by repeat split; try apply Hpages. }
  unfold Router.visitActivate, Router.visitOf.
  cbn [Router.visits Router.record]. rewrite Hvisits, lookup_insert_eq.
  cbn [option_map fst]. rewrite Hvisit. cbn [bindOutcome].
  unfold Router.visitSettle.
  destruct (Router.handleResult _ _ _ _) as [r4| |] eqn:Hresult;
    cbn [bindOutcome]; try discriminate.
  intros [= <- <-].
  pose proof (sameVisits_handleResult _ _ _ _ _ Hresult) as [Hvisits4 Hactive4].
  apply samePages_handleResult_background in Hresult; [|done|done].
  match type of Hresult with
  | samePages ?s _ =>
      assert (Hs : samePages r1 s /\ sameVisits r1 s)
  end.
  { split.
    - eapply samePages_trans; [|apply samePages_drain].
      eapply samePages_trans; [|apply (samePages_drain (Router.visitStart ref1 _))].
      done.
    - eapply sameVisits_trans; [|apply sameVisits_drain].
      eapply sameVisits_trans; [|apply (sameVisits_drain (Router.visitStart ref1 _))].
      done. }
  destruct Hs as [Hpages3 [Hvisits3 Hactive3]].
  split; [|split].
  - eapply samePages_trans; [exact Hpages|].
    eapply samePages_trans; [exact Hpages3|].
    eapply samePages_trans; [exact Hresult|]. apply samePages_finishVisit.
  - destruct (finishVisit_other ref1 (S ref1) r4) as [_ ->]; [lia|]. congruence.
  - intros other Hne.
    destruct (finishVisit_other ref1 other r4 Hne) as [-> _].
    rewrite Hvisits4, Hvisits3. by apply Hothers.
Qed.

Lemma background_visit_leaves_router_witness :
  samePages homeRouter
    (default blankRouter
       (routerAfter
          (Router.visit (Router.RoutableString "http://localhost/users")
             backgroundOptions usersArrive homeRouter)))
  /\ Router.activeVisit
       (default blankRouter
          (routerAfter
             (Router.visit (Router.RoutableString "http://localhost/users")
                backgroundOptions usersArrive homeRouter)))
     = Router.activeVisit homeRouter
  /\ forall other, other <> 1 ->
       Router.visits
         (default blankRouter
            (routerAfter
               (Router.visit (Router.RoutableString "http://localhost/users")
                  backgroundOptions usersArrive homeRouter))) !! other
       = Router.visits homeRouter !! other.
Proof.
  apply (background_visit_leaves_router
           (Router.RoutableString "http://localhost/users") backgroundOptions
           usersArrive homeRouter _ 1).
  - reflexivity.
  - intros response H. vm_compute in H. discriminate.
  - vm_compute. reflexivity.
Defined.

(** ** Cancelling and finishing *)

(** X17.  Cancelling and finishing exclude each other for the active
    visit: [cancelVisit] does nothing after [finishVisit], and
    [finishVisit] does nothing after [cancelVisit], so the visit gets one
    [finish] event and keeps the outcome that came first. *)
Theorem cancel_and_finish_exclude (r : Router.State) (ref : VisitRef)
  (visit : Router.Visit)
  (events : Js.object (Utilities.Listener Router.Detail))
  (interrupt : bool) :
  Router.activeVisit r = Some ref ->
  Router.visits r !! ref = Some (visit, events) ->
  Router.cancelVisit (Router.visit_id visit) interrupt (Router.finishVisit ref r)
  = Router.finishVisit ref r
  /\ Router.finishVisit ref
       (Router.cancelVisit (Router.visit_id visit) interrupt r)
     = Router.cancelVisit (Router.visit_id visit) interrupt r.
Proof.
  intros Hactive Hvisit. split.
  - unfold Router.finishVisit. rewrite Hvisit.
    destruct (Router.visit_completed visit || Router.visit_cancelled visit)
      eqn:Hdone.
    + unfold Router.cancelVisit, Router.cancelVisitBegin.
      by rewrite Hactive, Hvisit, String.eqb_refl, Hdone.
    + unfold Router.cancelVisit, Router.cancelVisitBegin, Router.emit.
      cbn [Router.activeVisit Router.visits Router.record Router.setVisits snd].
      by rewrite Hactive, lookup_insert_eq, String.eqb_refl.
  - unfold Router.cancelVisit, Router.cancelVisitBegin.
    rewrite Hactive, Hvisit, String.eqb_refl. cbn [negb].
    destruct (Router.visit_completed visit || Router.visit_cancelled visit)
      eqn:Hdone.
    + unfold Router.finishVisit. by rewrite Hvisit, Hdone.
    + unfold Router.emit, Router.cancelVisitResume, Router.emit,
        Router.finishVisit.
      destruct (Router.visit_cancelToken visit);
        cbn [Router.activeVisit Router.visits Router.record Router.setVisits
               snd];
        by rewrite lookup_insert_eq.
Qed.

Lemma cancel_and_finish_exclude_witness :
  Router.cancelVisit (Router.visit_id initialVisit) true
    (Router.finishVisit 0 homeRouter)
  = Router.finishVisit 0 homeRouter
  /\ Router.finishVisit 0
       (Router.cancelVisit (Router.visit_id initialVisit) true homeRouter)
     = Router.cancelVisit (Router.visit_id initialVisit) true homeRouter.
Proof.
  apply (cancel_and_finish_exclude homeRouter 0 initialVisit []);
    vm_compute; reflexivity.
Defined.

(** ** The headers of a request *)

(** X18.  Whatever headers the caller gives, the request carries the
    [Accept], [X-Requested-With] and [X-Navigare] headers of the protocol,
    and every header of the caller that is not one of the protocol's is
    sent as it is. *)
Theorem requestHeaders_protocol (r : Router.State) (headers : Js.object Value)
  (properties : list string) (errorBag : string) :
  let sent := Router.requestHeaders r headers properties errorBag in
  Js.get "Accept" sent = Some (VString "text/html, application/xhtml+xml")
  /\ Js.get "X-Requested-With" sent = Some (VString "XMLHttpRequest")
  /\ Js.get "X-Navigare" sent = Some (VBool true)
  /\ forall key, key ∉ protocolHeaders -> Js.get key sent = Js.get key headers.
Proof.
  cbv zeta.
  assert (Hstandard : forall key,
             Js.get key
               (Js.spread headers
                  [("Accept", VString "text/html, application/xhtml+xml");
                   ("X-Requested-With", VString "XMLHttpRequest");
                   ("X-Navigare", VBool true)])
             = match
                 Js.get key
                   [("Accept", VString "text/html, application/xhtml+xml");
                    ("X-Requested-With", VString "XMLHttpRequest");
                    ("X-Navigare", VBool true)]
               with
               | Some value => Some value
               | None => Js.get key headers
               end).
  { intros key. apply spread_get. apply (bool_decide_unpack _). by vm_compute. }
  assert (Hall : forall key,
             key <> "X-Navigare-Properties" -> key <> "X-Navigare-Error-Bag" ->
             key <> "X-Navigare-Version" ->
             Js.get key (Router.requestHeaders r headers properties errorBag)
             = match
                 Js.get key
                   [("Accept", VString "text/html, application/xhtml+xml");
                    ("X-Requested-With", VString "XMLHttpRequest");
                    ("X-Navigare", VBool true)]
               with
               | Some value => Some value
               | None => Js.get key headers
               end).
  { intros key Hproperties Hbag Hversion. unfold Router.requestHeaders.
    cbv zeta.
    assert (Hbag' : forall o,
               Js.get key
                 (if negb (Str.isEmpty errorBag)
                  then Js.set "X-Navigare-Error-Bag" (VString errorBag) o
                  else o)
               = Js.get key o)
      by (intros o; destruct (negb _); [by rewrite get_set_ne|done]).
    assert (Hproperties' : forall o,
               Js.get key
                 (if 0 <? length properties
                  then Js.set "X-Navigare-Properties"
                         (VArray (map VString properties)) o
                  else o)
               = Js.get key o)
      by (intros o; destruct (0 <? _); [by rewrite get_set_ne|done]).
    destruct (Router.page r ≫= page_version) as [version|];
      [destruct (Str.isEmpty version)|];
      rewrite ?get_set_ne by done; by rewrite Hbag', Hproperties', Hstandard. }
  split; [by rewrite Hall|]. split; [by rewrite Hall|].
  split; [by rewrite Hall|].
  intros key Hkey. unfold protocolHeaders in Hkey.
  rewrite !not_elem_of_cons in Hkey.
  destruct Hkey as (Haccept & Hrequested & Hnavigare & Hproperties & Hbag
                    & Hversion & _).
  rewrite Hall by done. simpl.
  apply String.eqb_neq in Haccept, Hrequested, Hnavigare.
  by rewrite Haccept, Hrequested, Hnavigare.
Qed.

(** ** [setPage]: push, or go back *)

Section SetPage.
Import Router.

(** [setPage] for a page without a base, step by step. *)
Lemma setPageCommit_steps page opts r r' next initial :
  page_base page = None ->
  setPageCommit page opts r = Returns (r', next, initial) ->
  exists current r1,
    page_location next = page_location page
    /\ page_visit next = page_visit page
    /\ let r0 :=
         match current with
         | Some c =>
             setInternalPages (Js.assign (pageIndex r) c (internalPages r)) r
         | None => r
         end in
       r1 = (if Utilities.isNull (Router.page r) || set_replace opts
                || set_preserveURL opts
                || (negb (window_isSSR (window r0))
                    && String.eqb (loc_href (page_location next))
                         (window_href (window r0)))
             then replaceState next (set_preserveURL opts) r0
             else
               match previousPage r0 with
               | Some previous =>
                   if String.eqb (loc_href (page_location next))
                        (loc_href (page_location previous))
                   then
                     backWithoutFallback
                       (setInternalPages
                          (Js.assign (pageIndex r0 - 1)
                             (withPageVisit next (page_visit previous))
                             (internalPages r0))
                          r0)
                   else pushState next r0
               | None => pushState next r0
               end)
       /\ (if set_preserveScroll opts then r' = r1
           else resetScrollPositions r1 = Returns r').
Proof.
  intros Hbase. unfold setPageCommit. rewrite Hbase. cbn [bindOutcome].
  destruct (Utilities.mergePages _ _ _) as [[current merged]| |] eqn:Hmerge;
    cbn [bindOutcome]; try discriminate.
  apply mergePages_frame in Hmerge as (Hlocation & Hvisit & _).
  unfold Utilities.transformPagePropertyKeys in Hlocation, Hvisit.
  cbn in Hlocation, Hvisit. cbn [fst snd].
  destruct (set_preserveScroll opts) eqn:Hscroll; cbn [bindOutcome].
  - intros [= <- <- <-]. exists current. eexists. cbn.
    split; [done|]. split; [done|]. by split.
  - destruct (resetScrollPositions _) as [r2| |] eqn:Hreset;
      cbn [bindOutcome]; try discriminate.
    intros [= <- <- <-]. exists current. eexists. cbn.
    split; [done|]. split; [done|]. split; [reflexivity|]. exact Hreset.
Qed.

Lemma at_assign_other {A} (i : nat) (j : Z) (x : A) (a : Js.array A) :
  i < length a -> j <> Z.of_nat i ->
  Js.at_ j (Js.assign i x a) = Js.at_ j a.
Proof.
  intros Hi Hj. unfold Js.at_, Js.assign.
  apply Nat.ltb_lt in Hi. rewrite Hi.
  destruct (j <? 0)%Z eqn:Hneg; [done|].
  rewrite list_lookup_insert_ne; [done|]. apply Z.ltb_ge in Hneg. lia.
Qed.

Lemma at_assign_same {A} (i : nat) (x : A) (a : Js.array A) :
  i < length a -> Js.at_ (Z.of_nat i) (Js.assign i x a) = Some x.
Proof.
  intros Hi. unfold Js.at_, Js.assign.
  pose proof Hi as Hlt. apply Nat.ltb_lt in Hi. rewrite Hi.
  destruct (Z.ltb_spec (Z.of_nat i) 0); [lia|].
  rewrite Nat2Z.id, list_lookup_insert_eq by done. reflexivity.
Qed.

(** What [resetScrollPositions] does to the pages: nothing, or the
    current page gets its scroll regions. *)
Lemma resetScrollPositions_shape r r' :
  resetScrollPositions r = Returns r' ->
  pageIndex r' = pageIndex r
  /\ grows r r'
  /\ (internalPages r' = internalPages r
      \/ exists current regions,
           Router.page r = Some current
           /\ internalPages r'
              = Js.assign (pageIndex r) (withScrollRegions current regions)
                  (internalPages r)).
Proof.
  intros Hreset. pose proof (grows_resetScrollPositions _ _ Hreset) as Hgrows.
  revert Hreset. unfold resetScrollPositions, saveScrollPositions.
  destruct (window_isSSR (window r)) eqn:Hssr.
  { intros [= <-]. repeat split; try done. by left. }
  cbn [window setWindow window_isSSR]. rewrite ?Hssr.
  change (Router.page (setWindow _ r)) with (Router.page r).
  destruct (Router.page r) as [current|]; [|discriminate].
  intros [= <-]. unfold replaceState. cbv zeta.
  cbn [window setWindow setInternalPages window_isSSR internalPages pageIndex].
  rewrite ?Hssr. cbn. repeat split; try done. right. by eexists _, _.
Qed.

Lemma page_lookup r current :
  Router.page r = Some current <->
  internalPages r !! pageIndex r = Some (Some current).
Proof.
  unfold Router.page, internalPage, Utilities.clonePage, Js.at_.
  destruct (Z.ltb_spec (Z.of_nat (pageIndex r)) 0); [lia|].
  rewrite Nat2Z.id.
  destruct (internalPages r !! pageIndex r) as [[p|]|]; cbn;
    split; congruence.
Qed.

Lemma previousPage_lookup r previous :
  previousPage r = Some previous <->
  0 < pageIndex r
  /\ internalPages r !! (pageIndex r - 1) = Some (Some previous).
Proof.
  unfold previousPage, internalPreviousPage, Utilities.clonePage, Js.at_.
  destruct (Z.ltb_spec (Z.of_nat (pageIndex r) - 1) 0) as [Hneg|Hpos].
  - split; [discriminate|]. intros [? _]. lia.
  - replace (Z.to_nat (Z.of_nat (pageIndex r) - 1)) with (pageIndex r - 1) by lia.
    destruct (internalPages r !! (pageIndex r - 1)) as [[p|]|]; cbn;
      split; try (intros [_ ?]; congruence); intros [= ->]; split; (lia || done).
Qed.

(** The router after the current page was written back. *)
Lemma written_back current r :
  pageIndex r < length (internalPages r) ->
  let r0 :=
    match current with
    | Some c => setInternalPages (Js.assign (pageIndex r) c (internalPages r)) r
    | None => r
    end in
  pageIndex r0 = pageIndex r
  /\ length (internalPages r0) = length (internalPages r)
  /\ window r0 = window r
  /\ trace r0 = trace r
  /\ previousPage r0 = previousPage r
  /\ (forall i, i <> pageIndex r ->
        internalPages r0 !! i = internalPages r !! i).
Proof.
  intros Hindex. destruct current as [c|]; cbn; [|done].
  unfold previousPage, internalPreviousPage. cbn.
  rewrite at_assign_other by (done || lia).
  rewrite assign_length by done. repeat split; try done.
  intros i Hi. unfold Js.assign. apply Nat.ltb_lt in Hindex. rewrite Hindex.
  by rewrite list_lookup_insert_ne.
Qed.

End SetPage.

(** X19.  [setPage] with a page for a location that is new (no
    [replace], no [preserveURL], not the location of the window, not the
    location of the previous page) pushes it: the index moves up by one,
    the new page is the last of the stack, so the pages after the old
    index are dropped, and the pages before the old index stay. *)
Theorem setPage_pushes_new_location (page : Page)
  (opts : Router.SetPageOptions) (r r' : Router.State) (next : Page) :
  wellStacked r ->
  page_base page = None ->
  Router.set_replace opts = false ->
  Router.set_preserveURL opts = false ->
  (Router.window_isSSR (Router.window r) = true
   \/ loc_href (page_location page) <> Router.window_href (Router.window r)) ->
  (forall previous,
      Router.previousPage r = Some previous ->
      loc_href (page_location previous) <> loc_href (page_location page)) ->
  Router.setPage page opts r = Returns (r', next) ->
  Router.pageIndex r' = S (Router.pageIndex r)
  /\ length (Router.internalPages r') = S (S (Router.pageIndex r))
  /\ take (Router.pageIndex r) (Router.internalPages r')
     = take (Router.pageIndex r) (Router.internalPages r)
  /\ page_location <$> Router.page r' = Some (page_location page).
Proof.
  intros Hr Hbase Hreplace Hurl Hwindow Hprevious. unfold Router.setPage.
  destruct (Router.setPageCommit page opts r)
    as [[[r2 next2] initial]| |] eqn:Hcommit; cbn [bindOutcome];
    try discriminate.
  intros [= <- <-].
  apply setPageCommit_steps in Hcommit
    as (current & r1 & Hlocation & _ & Hr1 & Hscroll); [|done].
  cbv zeta in Hr1.
  destruct (wellStacked_page r Hr) as [shown Hshown].
  destruct Hr as [Hindex Hall].
  destruct (written_back current r Hindex)
    as (Hindex0 & Hlength0 & Hwindow0 & _ & Hprevious0 & Hothers0).
  cbv zeta in Hindex0, Hlength0, Hwindow0, Hprevious0, Hothers0.
  set (r0 := match current with
             | Some c => _
             | None => r
             end) in *.
  rewrite Hshown, Hreplace, Hurl, Hwindow0, Hprevious0, Hlocation in Hr1.
  cbn [Utilities.isNull orb] in Hr1.
  assert (Hnot : negb (Router.window_isSSR (Router.window r))
                 && String.eqb (loc_href (page_location page))
                      (Router.window_href (Router.window r)) = false).
  { destruct Hwindow as [->|Hne]; [done|].
    apply String.eqb_neq in Hne. rewrite Hne. apply andb_false_r. }
  rewrite Hnot in Hr1.
  assert (Hpush : r1 = Router.pushState next2 r0).
  { destruct (Router.previousPage r) as [previous|]; [|done].
    specialize (Hprevious previous eq_refl).
    assert (Hne : String.eqb (loc_href (page_location page))
                    (loc_href (page_location previous)) = false)
      by (apply String.eqb_neq; congruence).
    by rewrite Hne in Hr1. }
  clear Hr1. subst r1.
  destruct (pushState_pages next2 r0) as [Hpages1 Hindex1]; [lia|].
  rewrite Hindex0 in Hpages1, Hindex1.
  assert (Hkept : take (Router.pageIndex r) (Router.internalPages r0)
                  = take (Router.pageIndex r) (Router.internalPages r)).
  { apply list_eq. intros i. rewrite !lookup_take.
    destruct (decide (i < Router.pageIndex r)); [|done].
    apply Hothers0. lia. }
  assert (Hshape :
            Router.pageIndex r2 = S (Router.pageIndex r)
            /\ exists top,
                 page_location top = page_location page
                 /\ Router.internalPages r2
                    = take (S (Router.pageIndex r)) (Router.internalPages r0)
                        ++ [Some top]).
  { destruct (Router.set_preserveScroll opts).
    - subst r2. split; [done|]. by exists next2.
    - apply resetScrollPositions_shape in Hscroll
        as (Hindex2 & _ & [Hsame|(top & regions & Htop & Hpages2)]).
      + split; [congruence|]. exists next2. split; [done|]. congruence.
      + split; [congruence|].
        apply page_lookup in Htop. rewrite Hpages1, Hindex1 in Htop.
        rewrite lookup_app_r in Htop by (rewrite length_take; lia).
        rewrite length_take in Htop.
        replace (S (Router.pageIndex r)
                 - S (Router.pageIndex r) `min` length (Router.internalPages r0))
          with 0 in Htop by lia.
        injection Htop as <-.
        exists (Router.withScrollRegions next2 regions). split; [done|].
        rewrite Hpages2, Hpages1, Hindex1. unfold Js.assign.
        rewrite length_app, length_take. cbn [length].
        replace (S (Router.pageIndex r) <? _) with true
          by (symmetry; apply Nat.ltb_lt; lia).
        rewrite insert_app_r_alt by (rewrite length_take; lia).
        rewrite length_take.
        by replace (S (Router.pageIndex r)
                    - S (Router.pageIndex r)
                      `min` length (Router.internalPages r0))
          with 0 by lia. }
  destruct Hshape as (Hindex2 & top & Htop & Hpages2).
  assert (Hfinal : forall s,
             Router.internalPages s = Router.internalPages r2 ->
             Router.pageIndex s = Router.pageIndex r2 ->
             Router.pageIndex s = S (Router.pageIndex r)
             /\ length (Router.internalPages s) = S (S (Router.pageIndex r))
             /\ take (Router.pageIndex r) (Router.internalPages s)
                = take (Router.pageIndex r) (Router.internalPages r)
             /\ page_location <$> Router.page s = Some (page_location page)).
  { intros s Hpages Hindexs. rewrite Hpages, Hindexs, Hpages2, Hindex2.
    split; [done|]. split.
    - rewrite length_app, length_take. cbn [length]. lia.
    - split.
      + rewrite take_app_le by (rewrite length_take; lia).
        rewrite take_take. replace (_ `min` _) with (Router.pageIndex r) by lia.
        exact Hkept.
      + assert (Hpage : Router.page s = Some top).
        { apply page_lookup. rewrite Hpages, Hindexs, Hpages2, Hindex2.
          rewrite lookup_app_r by (rewrite length_take; lia).
          rewrite length_take.
          by replace (S (Router.pageIndex r) - _) with 0 by lia. }
        rewrite Hpage. cbn. by rewrite Htop. }
  destruct (setPageDeferred_frame
              (if initial then r2 else Router.setPageNavigate r2))
    as (Hpages & Hindexs & _).
  apply Hfinal; [rewrite Hpages | rewrite Hindexs]; by destruct initial.
Qed.

Lemma setPage_pushes_new_location_witness :
  Router.pageIndex (fst usersPushed) = 1
  /\ length (Router.internalPages (fst usersPushed)) = 2
  /\ take 0 (Router.internalPages (fst usersPushed))
     = take 0 (Router.internalPages homeRouter)
  /\ page_location <$> Router.page (fst usersPushed)
     = Some (locationAt "http://localhost/users").
Proof.
  apply (setPage_pushes_new_location (pageAt "http://localhost/users")
           Router.noSetPageOptions homeRouter (fst usersPushed)
           (snd usersPushed)).
  - split; [vm_compute; lia | vm_compute; repeat constructor; by eexists].
  - reflexivity.
  - reflexivity.
  - reflexivity.
  - right. by vm_compute.
  - intros previous. by vm_compute.
  - by vm_compute.
Defined.

Lemma resetScrollPositions_browser r r' :
  Router.resetScrollPositions r = Returns r' ->
  Router.window_isSSR (Router.window r') = Router.window_isSSR (Router.window r).
Proof.
  unfold Router.resetScrollPositions, Router.saveScrollPositions.
  destruct (Router.window_isSSR (Router.window r)) eqn:Hssr.
  - intros [= <-]. exact Hssr.
  - cbn [Router.window Router.setWindow Router.window_isSSR].
    destruct (Router.page _) as [current|]; [|discriminate].
    intros [= <-]. unfold Router.replaceState.
    cbn [Router.window Router.setWindow Router.setInternalPages
         Router.window_isSSR].
    reflexivity.
Qed.

(** The router after [setPage] took the branch that goes back, in a
    browser. *)
Lemma setPage_back_shape (page : Page) (opts : Router.SetPageOptions)
  (r r' : Router.State) (next previous : Page) :
  Router.window_isSSR (Router.window r) = false ->
  wellStacked r ->
  page_base page = None ->
  Router.set_replace opts = false ->
  Router.set_preserveURL opts = false ->
  loc_href (page_location page) <> Router.window_href (Router.window r) ->
  Router.previousPage r = Some previous ->
  loc_href (page_location previous) = loc_href (page_location page) ->
  Router.setPage page opts r = Returns (r', next) ->
  Router.pageIndex r' = Router.pageIndex r
  /\ length (Router.internalPages r') = length (Router.internalPages r)
  /\ Router.HistoryBack ∈ Router.trace r'
  /\ Router.internalPages r' !! (Router.pageIndex r - 1)
     = Some (Some (Router.withPageVisit next (page_visit previous)))
  /\ (forall i, i < Router.pageIndex r - 1 ->
        Router.internalPages r' !! i = Router.internalPages r !! i)
  /\ page_location next = page_location page
  /\ Router.window_isSSR (Router.window r')
     = Router.window_isSSR (Router.window r).
Proof.
  intros Hbrowser Hr Hbase Hreplace Hurl Hwindow Hprevious Hsame.
  unfold Router.setPage.
  destruct (Router.setPageCommit page opts r)
    as [[[r2 next2] initial]| |] eqn:Hcommit; cbn [bindOutcome];
    try discriminate.
  intros [= <- <-].
  apply setPageCommit_steps in Hcommit
    as (current & r1 & Hlocation & _ & Hr1 & Hscroll); [|done].
  cbv zeta in Hr1.
  destruct (wellStacked_page r Hr) as [shown Hshown].
  destruct Hr as [Hindex Hall].
  destruct (written_back current r Hindex)
    as (Hindex0 & Hlength0 & Hwindow0 & _ & Hprevious0 & Hothers0).
  cbv zeta in Hindex0, Hlength0, Hwindow0, Hprevious0, Hothers0.
  set (r0 := match current with
             | Some c => _
             | None => r
             end) in *.
  rewrite Hshown, Hreplace, Hurl, Hwindow0, Hprevious0, Hlocation, Hprevious
    in Hr1.
  cbn [Utilities.isNull orb] in Hr1.
  assert (Hnot : negb (Router.window_isSSR (Router.window r))
                 && String.eqb (loc_href (page_location page))
                      (Router.window_href (Router.window r)) = false).
  { apply String.eqb_neq in Hwindow. rewrite Hwindow. apply andb_false_r. }
  rewrite Hnot, <- Hsame, String.eqb_refl, Hindex0 in Hr1.
  unfold Router.backWithoutFallback in Hr1.
  cbn [Router.window Router.setInternalPages] in Hr1.
  rewrite Hwindow0, Hbrowser in Hr1.
  apply previousPage_lookup in Hprevious as [Hpositive _].
  set (stored := Router.withPageVisit next2 (page_visit previous)) in *.
  assert (Hshape1 :
            Router.pageIndex r1 = Router.pageIndex r
            /\ Router.internalPages r1
               = <[Router.pageIndex r - 1 := Some stored]>
                   (Router.internalPages r0)
            /\ Router.HistoryBack ∈ Router.trace r1
            /\ Router.window r1 = Router.window r).
  { subst r1. cbn. rewrite Hindex0. split; [done|]. split; [|split; [|done]].
    - unfold Js.assign.
      by replace (Router.pageIndex r - 1 <? length (Router.internalPages r0))
        with true by (symmetry; apply Nat.ltb_lt; lia).
    - apply elem_of_app. right. by apply list_elem_of_singleton. }
  clear Hr1. destruct Hshape1 as (Hindex1 & Hpages1 & Hback1 & Hwindow1).
  assert (Hshape2 :
            Router.pageIndex r2 = Router.pageIndex r
            /\ length (Router.internalPages r2)
               = length (Router.internalPages r)
            /\ Router.internalPages r2 !! (Router.pageIndex r - 1)
               = Some (Some stored)
            /\ (forall i, i < Router.pageIndex r - 1 ->
                  Router.internalPages r2 !! i = Router.internalPages r !! i)
            /\ Router.HistoryBack ∈ Router.trace r2
            /\ Router.window_isSSR (Router.window r2)
               = Router.window_isSSR (Router.window r)).
  { assert (Hstored : Router.internalPages r1 !! (Router.pageIndex r - 1)
                      = Some (Some stored)).
    { rewrite Hpages1. apply list_lookup_insert_eq. lia. }
    assert (Hlength1 : length (Router.internalPages r1)
                       = length (Router.internalPages r))
      by (rewrite Hpages1, length_insert; lia).
    assert (Hbefore1 : forall i, i < Router.pageIndex r - 1 ->
               Router.internalPages r1 !! i = Router.internalPages r !! i).
    { intros i Hi. rewrite Hpages1, list_lookup_insert_ne by lia.
      apply Hothers0. lia. }
    destruct (Router.set_preserveScroll opts).
    - subst r2. by rewrite Hwindow1.
    - pose proof (grows_resetScrollPositions _ _ Hscroll) as Hgrows.
      pose proof (resetScrollPositions_browser _ _ Hscroll) as Hssr2.
      rewrite Hwindow1 in Hssr2.
      apply resetScrollPositions_shape in Hscroll
        as (Hindex2 & _ & [Hkept|(top & regions & _ & Hpages2)]).
      + repeat split; try congruence.
        * intros i Hi. rewrite Hkept. by apply Hbefore1.
        * by eapply grows_elem_of.
      + split; [congruence|]. split; [|split; [|split; [|split]]].
        * rewrite Hpages2, assign_length; [done|]. rewrite Hindex1. lia.
        * rewrite Hpages2, Hindex1. unfold Js.assign.
          replace (Router.pageIndex r <? length (Router.internalPages r1))
            with true by (symmetry; apply Nat.ltb_lt; lia).
          rewrite list_lookup_insert_ne by lia. exact Hstored.
        * intros i Hi. rewrite Hpages2, Hindex1. unfold Js.assign.
          replace (Router.pageIndex r <? length (Router.internalPages r1))
            with true by (symmetry; apply Nat.ltb_lt; lia).
          rewrite list_lookup_insert_ne by lia. by apply Hbefore1.
        * by eapply grows_elem_of.
        * exact Hssr2. }
  destruct Hshape2
    as (Hindex2 & Hlength2 & Hstored2 & Hbefore2 & Hback2 & Hbrowser2).
  set (r3 := if initial then r2 else Router.setPageNavigate r2).
  assert (Hshape3 :
            Router.pageIndex r3 = Router.pageIndex r2
            /\ Router.internalPages r3 = Router.internalPages r2
            /\ Router.HistoryBack ∈ Router.trace r3
            /\ Router.window r3 = Router.window r2).
  { subst r3. destruct initial; [done|]. repeat split.
    eapply grows_elem_of; [apply grows_setPageNavigate | done]. }
  destruct Hshape3 as (Hindex3 & Hpages3 & Hback3 & Hwindow3).
  destruct (setPageDeferred_frame r3) as (Hpages & Hindexs & _).
  rewrite Hpages, Hindexs, Hpages3, Hindex3.
  assert (Hwindows : Router.window_isSSR (Router.window (Router.setPageDeferred r3))
                     = Router.window_isSSR (Router.window r3))
    by (unfold Router.setPageDeferred; by repeat case_match).
  rewrite Hwindows, Hwindow3.
  repeat split; try done.
  eapply grows_elem_of; [apply grows_setPageDeferred | done].
Qed.

(** X20.  In a browser, [setPage] with a page whose location is that of
    the previous page (no [replace], no [preserveURL], not the location of
    the window) does not push: the stack keeps its length and its index,
    the slot of the previous page receives the new page under the
    previous page's visit, and the browser is sent back with
    [history.back()]. *)
Theorem setPage_returns_to_previous_location (page : Page)
  (opts : Router.SetPageOptions) (r r' : Router.State) (next previous : Page) :
  Router.window_isSSR (Router.window r) = false ->
  wellStacked r ->
  page_base page = None ->
  Router.set_replace opts = false ->
  Router.set_preserveURL opts = false ->
  loc_href (page_location page) <> Router.window_href (Router.window r) ->
  Router.previousPage r = Some previous ->
  loc_href (page_location previous) = loc_href (page_location page) ->
  Router.setPage page opts r = Returns (r', next) ->
  Router.pageIndex r' = Router.pageIndex r
  /\ length (Router.internalPages r') = length (Router.internalPages r)
  /\ Router.HistoryBack ∈ Router.trace r'
  /\ Router.internalPages r' !! (Router.pageIndex r - 1)
     = Some (Some (Router.withPageVisit next (page_visit previous))).
Proof.
  intros Hbrowser Hr Hbase Hreplace Hurl Hwindow Hprevious Hsame Hset.
  destruct (setPage_back_shape page opts r r' next previous)
    as (Hindex & Hlength & Hback & Hstored & _); done.
Qed.

Lemma setPage_returns_to_previous_location_witness :
  Router.pageIndex (fst homeAgain) = 1
  /\ length (Router.internalPages (fst homeAgain)) = 2
  /\ Router.HistoryBack ∈ Router.trace (fst homeAgain)
  /\ Router.internalPages (fst homeAgain) !! 0
     = Some (Some (Router.withPageVisit (snd homeAgain) (Some 0))).
Proof.
  apply (setPage_returns_to_previous_location (pageAt "http://localhost/home")
           Router.noSetPageOptions usersRouter (fst homeAgain)
           (snd homeAgain)
           (mkPage (locationAt "http://localhost/home") [] [] (Some 0) None
              None (Some []) (Some []) None)).
  - by vm_compute.
  - split; [vm_compute; lia | vm_compute; repeat constructor; by eexists].
  - reflexivity.
  - reflexivity.
  - reflexivity.
  - by vm_compute.
  - by vm_compute.
  - reflexivity.
  - by vm_compute.
Defined.

(** ** History events *)

Section Popstate.
Import Router.

(** What the interruption of the active visit leaves as it is. *)
Lemma cancelVisitDetached_frame visitId interrupt r :
  let r1 := cancelVisitDetached visitId interrupt r in
  internalPages r1 = internalPages r
  /\ pageIndex r1 = pageIndex r
  /\ window r1 = window r
  /\ grows r r1
  /\ (forall slot, slotVisitId r1 slot = slotVisitId r slot).
Proof.
  assert (Hnothing : internalPages r = internalPages r
                     /\ pageIndex r = pageIndex r
                     /\ window r = window r
                     /\ grows r r
                     /\ (forall slot, slotVisitId r slot = slotVisitId r slot))
    by (repeat split; by apply grows_same_trace).
  cbv zeta. unfold cancelVisitDetached, cancelVisitBegin.
  destruct (activeVisit r) as [active|]; [|done].
  destruct (visits r !! active) as [[visit events]|] eqn:Hvisit; [|done].
  destruct (negb _); [done|].
  destruct (_ || _); [done|].
  clear Hnothing. unfold emit. cbn [fst snd].
  split; [by destruct (visit_cancelToken visit)|].
  split; [by destruct (visit_cancelToken visit)|].
  split; [by destruct (visit_cancelToken visit)|].
  split.
  - unfold grows. destruct (visit_cancelToken visit); cbn.
    + rewrite <- app_assoc. by apply prefix_app_r.
    + by apply prefix_app_r.
  - intros [candidate|]; [|done]. unfold slotVisitId, visitOf.
    destruct (page_visit candidate) as [ref|]; [|done].
    cbn [mbind option_bind].
    assert (Hids : forall vs,
               vs = visits r ->
               option_map fst
                 (<[active := (withLifecycle false true
                                 (if interrupt then true else false)
                                 (cancelSource (visit_cancelToken visit)) visit,
                               events)]> vs !! ref)
               ≫= (fun v => Some (visit_id v))
               = option_map fst (vs !! ref) ≫= (fun v => Some (visit_id v))).
    { intros vs ->. destruct (decide (active = ref)) as [->|Hne].
      - rewrite lookup_insert_eq, Hvisit. reflexivity.
      - by rewrite lookup_insert_ne. }
    specialize (Hids (visits r) eq_refl).
    destruct (visit_cancelToken visit); cbn in *;
      destruct (option_map fst (<[active := _]> (visits r) !! ref));
      destruct (option_map fst (visits r !! ref)); cbn in Hids; congruence.
Qed.

Lemma findPageIndex_found r id start before target after :
  otherVisits r id before ->
  slotVisitId r target = Some id ->
  findPageIndex r (mkHistoryState (Some id)) start (before ++ target :: after)
  = Returns (Some (start + length before)).
Proof.
  intros Hbefore Htarget. revert start.
  induction Hbefore as [|slot before (other & Hother & Hne) _ IH]; intros start.
  - cbn. destruct target as [candidate|]; [|discriminate]. cbn in Htarget.
    destruct (page_visit candidate ≫= visitOf r) as [visit|]; [|discriminate].
    injection Htarget as <-. cbn. rewrite String.eqb_refl.
    by rewrite Nat.add_0_r.
  - cbn. destruct slot as [candidate|]; [|discriminate]. cbn in Hother.
    destruct (page_visit candidate ≫= visitOf r) as [visit|]; [|discriminate].
    injection Hother as <-. cbn.
    apply String.eqb_neq in Hne. rewrite Hne, IH. f_equal. f_equal. lia.
Qed.

Lemma findPageIndex_absent r id start stack :
  otherVisits r id stack ->
  findPageIndex r (mkHistoryState (Some id)) start stack = Returns None.
Proof.
  intros Hstack. revert start.
  induction Hstack as [|slot stack (other & Hother & Hne) _ IH]; intros start;
    [done|].
  cbn. destruct slot as [candidate|]; [|discriminate]. cbn in Hother.
  destruct (page_visit candidate ≫= visitOf r) as [visit|]; [|discriminate].
  injection Hother as <-. cbn.
  apply String.eqb_neq in Hne. by rewrite Hne, IH.
Qed.

Lemma otherVisits_same r r1 id stack :
  (forall slot, slotVisitId r1 slot = slotVisitId r slot) ->
  otherVisits r id stack -> otherVisits r1 id stack.
Proof.
  intros Hsame Hstack. unfold otherVisits in *.
  eapply Forall_impl; [exact Hstack|].
  intros slot (other & Hother & Hne). exists other. by rewrite Hsame.
Qed.

(** The router when the handler looks for the page. *)
Lemma popstate_interrupted r :
  let r1 :=
    match activeVisit r ≫= visitOf r with
    | Some active => cancelVisitDetached (visit_id active) true r
    | None => r
    end in
  internalPages r1 = internalPages r
  /\ pageIndex r1 = pageIndex r
  /\ window r1 = window r
  /\ grows r r1
  /\ (forall slot, slotVisitId r1 slot = slotVisitId r slot).
Proof.
  cbv zeta. destruct (activeVisit r ≫= visitOf r) as [active|].
  - apply cancelVisitDetached_frame.
  - repeat split. by apply grows_same_trace.
Qed.

Lemma restoreScrollPositions_frame r r' :
  restoreScrollPositions r = Returns r' ->
  internalPages r' = internalPages r
  /\ pageIndex r' = pageIndex r
  /\ visits r' = visits r
  /\ activeVisit r' = activeVisit r
  /\ trace r' = trace r
  /\ window_isSSR (window r') = window_isSSR (window r)
  /\ microtasks r' = microtasks r.
Proof.
  unfold restoreScrollPositions.
  destruct (page r) as [current|]; [|discriminate].
  destruct (page_scrollRegions current) as [positions|].
  - destruct (window_isSSR (window r)) eqn:Hssr; [discriminate|].
    intros [= <-]. by repeat split.
  - intros [= <-]. by repeat split.
Qed.

Lemma cancelVisitDetached_pending visitId interrupt r ref visit events :
  activeVisit r = Some ref ->
  visits r !! ref = Some (visit, events) ->
  visit_id visit = visitId ->
  visit_completed visit = false ->
  visit_cancelled visit = false ->
  let r1 := cancelVisitDetached visitId interrupt r in
  visits r1 !! ref
  = Some (withLifecycle false true (if interrupt then true else false)
            (cancelSource (visit_cancelToken visit)) visit, events)
  /\ (exists snapshot, Emitted "cancel" (Some ref) snapshot ∈ trace r1)
  /\ AfterCancelEmitted ref ∈ microtasks r1.
Proof.
  intros Hactive Hvisit Hid Hcompleted Hcancelled. cbv zeta.
  unfold cancelVisitDetached, cancelVisitBegin.
  rewrite Hactive, Hvisit, Hid, String.eqb_refl, Hcompleted, Hcancelled.
  cbn [negb orb]. unfold emit. cbn [fst snd].
  generalize (withLifecycle false true (if interrupt then true else false)
                (cancelSource (visit_cancelToken visit)) visit).
  intros cancelled.
  split; [|split].
  - destruct (visit_cancelToken visit);
      cbn [visits suspend record setVisits]; apply lookup_insert_eq.
  - eexists. destruct (visit_cancelToken visit);
      cbn [trace visits suspend record setVisits];
      apply elem_of_app; right; by apply list_elem_of_singleton.
  - destruct (visit_cancelToken visit);
      cbn [microtasks trace visits suspend record setVisits];
      apply elem_of_app; right; by apply list_elem_of_singleton.
Qed.

(** The handler on the entry of a page of the stack. *)
Lemma popstate_known id r before target after :
  window_isSSR (window r) = false ->
  internalPages r = before ++ target :: after ->
  otherVisits r id before ->
  slotVisitId r target = Some id ->
  exists r' shown,
    handlePopstateEvent (Some (mkHistoryState (Some id))) r = Returns (r', false)
    /\ pageIndex r' = length before
    /\ internalPages r' = internalPages r
    /\ target = Some shown
    /\ page r' = Some shown
    /\ last (trace r')
       = Some (Emitted "navigate" (page_visit shown) (fst <$> visits r')).
Proof.
  intros Hbrowser Hpages Hbefore Htarget. unfold handlePopstateEvent.
  destruct (popstate_interrupted r)
    as (Hpages1 & Hindex1 & Hwindow1 & _ & Hids1).
  cbv zeta in Hpages1, Hindex1, Hwindow1, Hids1.
  set (r1 := match activeVisit r ≫= visitOf r with
             | Some active => _
             | None => r
             end) in *.
  rewrite Hpages1, Hpages.
  rewrite (findPageIndex_found r1 id 0 before target after);
    [|by apply (otherVisits_same r) | by rewrite Hids1].
  cbn [bindOutcome Nat.add].
  destruct target as [shown|]; [|discriminate].
  assert (Hshown : page (setPageIndex (length before) r1) = Some shown).
  { apply page_lookup. cbn. rewrite Hpages1, Hpages.
    by rewrite list_lookup_middle. }
  destruct (restoreScrollPositions (setPageIndex (length before) r1))
    as [r2| |] eqn:Hrestore.
  - apply restoreScrollPositions_frame in Hrestore
      as (Hpages2 & Hindex2 & _ & _ & _ & _).
    cbn [bindOutcome].
    assert (Hshown2 : page r2 = Some shown).
    { apply page_lookup. rewrite Hpages2, Hindex2. by apply page_lookup. }
    rewrite Hshown2. eexists _, shown. split; [reflexivity|].
    unfold emit. cbn [snd]. cbn.
    rewrite Hindex2, Hpages2. cbn. rewrite Hpages1, Hpages.
    repeat split; try done. by rewrite last_snoc.
  - exfalso. revert Hrestore. unfold restoreScrollPositions.
    rewrite Hshown. destruct (page_scrollRegions shown); [|discriminate].
    cbn. by rewrite Hwindow1, Hbrowser.
  - exfalso. revert Hrestore. unfold restoreScrollPositions.
    rewrite Hshown. destruct (page_scrollRegions shown); [|discriminate].
    cbn. by rewrite Hwindow1, Hbrowser.
Qed.

End Popstate.

(** X21.  In a browser, when the history entry of a [popstate] event
    names the visit of a page of the stack, and the pages before that
    page are pages of other visits, [handlePopstateEvent] moves the index
    to that page, leaves the stack as it is, does not reload the window,
    and ends with the event [navigate] for that page. *)
Theorem handlePopstateEvent_moves_to_known_page (id : string)
  (r : Router.State) (before : Js.array Page) (target : option Page)
  (after : Js.array Page) :
  Router.window_isSSR (Router.window r) = false ->
  Router.internalPages r = before ++ target :: after ->
  otherVisits r id before ->
  slotVisitId r target = Some id ->
  exists r' shown,
    Router.handlePopstateEvent (Some (Router.mkHistoryState (Some id))) r
    = Returns (r', false)
    /\ Router.pageIndex r' = length before
    /\ Router.internalPages r' = Router.internalPages r
    /\ target = Some shown
    /\ Router.page r' = Some shown
    /\ last (Router.trace r')
       = Some (Router.Emitted "navigate" (page_visit shown)
                 (fst <$> Router.visits r')).
Proof. apply popstate_known. Qed.

Lemma handlePopstateEvent_moves_to_known_page_witness :
  exists r' shown,
    Router.handlePopstateEvent (Some (Router.mkHistoryState (Some "0.initial")))
      usersRouter
    = Returns (r', false)
    /\ Router.pageIndex r' = 0
    /\ Router.internalPages r' = Router.internalPages usersRouter
    /\ mjoin (Router.internalPages usersRouter !! 0) = Some shown
    /\ Router.page r' = Some shown
    /\ last (Router.trace r')
       = Some (Router.Emitted "navigate" (page_visit shown)
                 (fst <$> Router.visits r')).
Proof.
  apply (handlePopstateEvent_moves_to_known_page "0.initial" usersRouter []
           (mjoin (Router.internalPages usersRouter !! 0))
           (drop 1 (Router.internalPages usersRouter))).
  - by vm_compute.
  - by vm_compute.
  - constructor.
  - by vm_compute.
Defined.

(** X22.  In a browser, when the history entry of a [popstate] event
    names a visit that no page of the stack belongs to (an entry from
    before a refresh), [handlePopstateEvent] asks the window to reload,
    leaves the stack and the index as they are, and still ends with the
    event [navigate] for the current page. *)
Theorem handlePopstateEvent_reloads_for_unknown_page (id : string)
  (r : Router.State) :
  Router.window_isSSR (Router.window r) = false ->
  indexed r ->
  otherVisits r id (Router.internalPages r) ->
  exists r' shown,
    Router.handlePopstateEvent (Some (Router.mkHistoryState (Some id))) r
    = Returns (r', true)
    /\ samePages r r'
    /\ Router.page r' = Some shown
    /\ last (Router.trace r')
       = Some (Router.Emitted "navigate" (page_visit shown)
                 (fst <$> Router.visits r')).
Proof.
  intros Hbrowser Hindexed Hstack. unfold Router.handlePopstateEvent.
  destruct (popstate_interrupted r)
    as (Hpages1 & Hindex1 & Hwindow1 & _ & Hids1).
  cbv zeta in Hpages1, Hindex1, Hwindow1, Hids1.
  set (r1 := match Router.activeVisit r ≫= Router.visitOf r with
             | Some active => _
             | None => r
             end) in *.
  rewrite Hpages1.
  rewrite (findPageIndex_absent r1 id 0 (Router.internalPages r));
    [|by apply (otherVisits_same r)].
  cbn [bindOutcome]. rewrite Hwindow1, Hbrowser. cbn [bindOutcome].
  destruct (lookup_lt_is_Some_2 _ _ Hindexed) as [slot Hslot].
  assert (Hsome : exists shown, slot = Some shown).
  { eapply Forall_lookup_1 in Hstack; [|exact Hslot].
    destruct Hstack as (other & Hother & _).
    destruct slot as [shown|]; [by exists shown | discriminate]. }
  destruct Hsome as [shown ->].
  assert (Hshown : Router.page r1 = Some shown)
    by (apply page_lookup; by rewrite Hpages1, Hindex1).
  rewrite Hshown. eexists _, shown. split; [reflexivity|].
  unfold Router.emit. cbn [snd]. split; [by split|]. split.
  - apply page_lookup. cbn. by rewrite Hpages1, Hindex1.
  - cbn. by rewrite last_snoc.
Qed.

Lemma handlePopstateEvent_reloads_for_unknown_page_witness :
  exists r' shown,
    Router.handlePopstateEvent (Some (Router.mkHistoryState (Some "9.gone")))
      usersRouter
    = Returns (r', true)
    /\ samePages usersRouter r'
    /\ Router.page r' = Some shown
    /\ last (Router.trace r')
       = Some (Router.Emitted "navigate" (page_visit shown)
                 (fst <$> Router.visits r')).
Proof.
  apply (handlePopstateEvent_reloads_for_unknown_page "9.gone" usersRouter).
  - by vm_compute.
  - unfold indexed. vm_compute. lia.
  - unfold otherVisits. vm_compute.
    repeat constructor; eexists; (split; [reflexivity | discriminate]).
Defined.

(** X23.  When a [popstate] event with a page in its state arrives while
    a visit is active and neither completed nor cancelled, the handler
    interrupts that visit: the visit is cancelled and interrupted, not
    completed, [cancel] has been emitted for it, and the rest of the
    cancellation, the event [finish], waits as a microtask. *)
Theorem handlePopstateEvent_interrupts_pending_visit
  (state : Router.HistoryState) (r r' : Router.State) (reloaded : bool)
  (ref : VisitRef) :
  pendingVisit r ref ->
  Router.handlePopstateEvent (Some state) r = Returns (r', reloaded) ->
  (exists interrupted,
      Router.visitOf r' ref = Some interrupted
      /\ Router.visit_cancelled interrupted = true
      /\ Router.visit_interrupted interrupted = true
      /\ Router.visit_completed interrupted = false)
  /\ (exists snapshot,
         Router.Emitted "cancel" (Some ref) snapshot ∈ Router.trace r')
  /\ Router.AfterCancelEmitted ref ∈ Router.microtasks r'.
Proof.
  intros (Hactive & visit & events & Hvisit & Hcompleted & Hcancelled).
  assert (Hknown : Router.activeVisit r ≫= Router.visitOf r = Some visit).
  { rewrite Hactive. cbn. unfold Router.visitOf. by rewrite Hvisit. }
  unfold Router.handlePopstateEvent. rewrite Hknown.
  destruct (cancelVisitDetached_pending (Router.visit_id visit) true r ref
              visit events Hactive Hvisit eq_refl Hcompleted Hcancelled)
    as (Hvisit1 & Hcancel1 & Htask1).
  cbv zeta in Hvisit1, Hcancel1, Htask1.
  set (r1 := Router.cancelVisitDetached (Router.visit_id visit) true r) in *.
  assert (Hrest : forall r2 current,
             Router.visits r2 = Router.visits r1 ->
             Router.trace r2 = Router.trace r1 ->
             Router.microtasks r2 = Router.microtasks r1 ->
             Returns
               (snd (Router.emit "navigate" (page_visit current)
                       (Router.mkDetail
                          (page_visit current ≫= Router.visitOf r2)
                          (Some current) None)
                       None r2),
                reloaded)
             = Returns (r', reloaded) ->
             (exists interrupted,
                 Router.visitOf r' ref = Some interrupted
                 /\ Router.visit_cancelled interrupted = true
                 /\ Router.visit_interrupted interrupted = true
                 /\ Router.visit_completed interrupted = false)
             /\ (exists snapshot,
                    Router.Emitted "cancel" (Some ref) snapshot
                    ∈ Router.trace r')
             /\ Router.AfterCancelEmitted ref ∈ Router.microtasks r').
  { intros r2 current Hvisits2 Htrace2 Htasks2 [= <-].
    unfold Router.emit. cbn [snd]. split; [|split].
    - eexists. unfold Router.visitOf. cbn. rewrite Hvisits2, Hvisit1.
      by repeat split.
    - destruct Hcancel1 as [snapshot Hcancel1]. exists snapshot. cbn.
      rewrite Htrace2. apply elem_of_app. by left.
    - cbn. by rewrite Htasks2. }
  destruct (Router.findPageIndex r1 state 0 (Router.internalPages r1))
    as [[index|]| |]; cbn [bindOutcome]; try discriminate.
  - destruct (Router.restoreScrollPositions (Router.setPageIndex index r1))
      as [r2| |] eqn:Hrestore; cbn [bindOutcome]; try discriminate.
    apply restoreScrollPositions_frame in Hrestore
      as (_ & _ & Hvisits2 & _ & Htrace2 & _ & Htasks2).
    cbv beta iota.
    destruct (Router.page r2) as [current|]; [|discriminate].
    intros [= <- <-]. by apply (Hrest r2 current).
  - destruct (Router.window_isSSR (Router.window r1)); [discriminate|].
    cbn [bindOutcome]. cbv beta iota.
    destruct (Router.page r1) as [current|]; [|discriminate].
    intros [= <- <-]. by apply (Hrest r1 current).
Qed.

Lemma handlePopstateEvent_interrupts_pending_visit_witness :
  (exists interrupted,
      Router.visitOf (fst homePopped) 0 = Some interrupted
      /\ Router.visit_cancelled interrupted = true
      /\ Router.visit_interrupted interrupted = true
      /\ Router.visit_completed interrupted = false)
  /\ (exists snapshot,
         Router.Emitted "cancel" (Some 0) snapshot
         ∈ Router.trace (fst homePopped))
  /\ Router.AfterCancelEmitted 0 ∈ Router.microtasks (fst homePopped).
Proof.
  apply (handlePopstateEvent_interrupts_pending_visit
           (Router.mkHistoryState (Some "0.initial")) homeRouter
           (fst homePopped) (snd homePopped) 0).
  - split; [by vm_compute|]. eexists _, _.
    split; [vm_compute; reflexivity|]. by split.
  - by vm_compute.
Defined.

(** X24.  Going back in two steps.  In a browser, [setPage] with a page
    whose location is that of the previous page stores the page in the
    slot of the previous page and calls [history.back()] (see X20); when
    the [popstate] event of that history entry arrives, with the id of
    the previous page's visit in its state, and the pages before that
    slot belong to other visits, [handlePopstateEvent] moves the index
    down by one, and the current page is the page that was set, under the
    previous page's visit; the stack has kept its length. *)
Theorem setPage_back_then_popstate (page : Page)
  (opts : Router.SetPageOptions) (r r' : Router.State)
  (next previous : Page) (id : string) :
  Router.window_isSSR (Router.window r) = false ->
  wellStacked r ->
  page_base page = None ->
  Router.set_replace opts = false ->
  Router.set_preserveURL opts = false ->
  loc_href (page_location page) <> Router.window_href (Router.window r) ->
  Router.previousPage r = Some previous ->
  loc_href (page_location previous) = loc_href (page_location page) ->
  slotVisitId r (Some previous) = Some id ->
  otherVisits r id (take (Router.pageIndex r - 1) (Router.internalPages r)) ->
  Router.setPage page opts r = Returns (r', next) ->
  exists r'' shown,
    Router.handlePopstateEvent (Some (Router.mkHistoryState (Some id))) r'
    = Returns (r'', false)
    /\ Router.pageIndex r'' = Router.pageIndex r - 1
    /\ length (Router.internalPages r'') = length (Router.internalPages r)
    /\ Router.page r'' = Some shown
    /\ page_location shown = page_location page
    /\ page_visit shown = page_visit previous.
Proof.
  intros Hbrowser Hr Hbase Hreplace Hurl Hwindow Hprevious Hsame Hid Hbefore
    Hset.
  destruct (setPage_back_shape page opts r r' next previous)
    as (Hindex & Hlength & _ & Hstored & Hkept & Hlocation & Hbrowser');
    try done.
  apply sameVisits_setPage in Hset as [Hvisits _].
  assert (Hids : forall slot, slotVisitId r' slot = slotVisitId r slot).
  { intros slot. unfold slotVisitId, Router.visitOf. by rewrite Hvisits. }
  pose proof Hprevious as Hpositive.
  apply previousPage_lookup in Hpositive as [Hpositive _].
  destruct Hr as [Hindexed _].
  set (stored := Router.withPageVisit next (page_visit previous)) in *.
  assert (Hsplit :
            Router.internalPages r'
            = take (Router.pageIndex r - 1) (Router.internalPages r)
                ++ Some stored
                :: drop (S (Router.pageIndex r - 1)) (Router.internalPages r')).
  { rewrite <- (take_drop_middle (Router.internalPages r')
                  (Router.pageIndex r - 1) (Some stored) Hstored) at 1.
    f_equal. apply list_eq. intros i. rewrite !lookup_take.
    destruct (decide (i < Router.pageIndex r - 1)); [|done]. by apply Hkept. }
  destruct (popstate_known id r' _ _ _
              ltac:(by rewrite Hbrowser') Hsplit
              (otherVisits_same r r' id _ Hids Hbefore))
    as (r'' & shown & Hpop & Hindex'' & Hpages'' & Hshown & Hpage & _).
  { rewrite Hids. exact Hid. }
  exists r'', shown. injection Hshown as <-.
  split; [exact Hpop|]. split.
  - rewrite Hindex'', length_take. lia.
  - split; [by rewrite Hpages''|]. split; [exact Hpage|].
    split; [|reflexivity]. subst stored. cbn. exact Hlocation.
Qed.

Lemma setPage_back_then_popstate_witness :
  exists r'' shown,
    Router.handlePopstateEvent (Some (Router.mkHistoryState (Some "0.initial")))
      (fst homeAgain)
    = Returns (r'', false)
    /\ Router.pageIndex r'' = 0
    /\ length (Router.internalPages r'') = 2
    /\ Router.page r'' = Some shown
    /\ page_location shown = locationAt "http://localhost/home"
    /\ page_visit shown = Some 0.
Proof.
  apply (setPage_back_then_popstate (pageAt "http://localhost/home")
           Router.noSetPageOptions usersRouter (fst homeAgain)
           (snd homeAgain)
           (mkPage (locationAt "http://localhost/home") [] [] (Some 0) None
              None (Some []) (Some []) None)
           "0.initial").
  - by vm_compute.
  - split; [vm_compute; lia | vm_compute; repeat constructor; by eexists].
  - reflexivity.
  - reflexivity.
  - reflexivity.
  - by vm_compute.
  - by vm_compute.
  - reflexivity.
  - by vm_compute.
  - vm_compute. constructor.
  - by vm_compute.
Defined.

(** ** Remembered state and scroll positions *)

(** X25.  [remember(data, key)] on a router with a current page replaces
    that page by the same page with a deep clone of [data] under [key] in
    its remembered state: [data] itself, or an empty object when [data] is
    a function, a [Blob], a [File] or a [FileList].  The other keys of the
    remembered state, the other pages and the index stay, and in a browser
    the page is written to the current history entry under its own
    location. *)
Theorem remember_stores_under_key (data : Value) (key : string)
  (r : Router.State) (current : Page) :
  Router.page r = Some current ->
  exists r' remembered,
    Router.remember data key r = Returns r'
    /\ Router.page r'
       = Some (Router.withRememberedState current (Some remembered))
    /\ Js.get key remembered
       = Some (if uncloneable data then VObject [] else data)
    /\ (forall other,
          other <> key ->
          Js.get other remembered
          = page_rememberedState current ≫= Js.get other)
    /\ Router.pageIndex r' = Router.pageIndex r
    /\ (forall i,
          i <> Router.pageIndex r ->
          Router.internalPages r' !! i = Router.internalPages r !! i)
    /\ (Router.window_isSSR (Router.window r) = false ->
        last (Router.trace r')
        = Some (Router.HistoryReplaceState
                  (Router.withRememberedState current (Some remembered))
                  (Some (loc_href (page_location current))))).
Proof.
  intros Hcurrent. unfold Router.remember. rewrite Hcurrent.
  set (remembered :=
         Js.set key (cloneDeep data) (default [] (page_rememberedState current))).
  exists (Router.replaceState
            (Router.withRememberedState current (Some remembered)) false r),
    remembered.
  split; [reflexivity|].
  apply page_lookup in Hcurrent.
  assert (Hindexed : Router.pageIndex r < length (Router.internalPages r))
    by (eapply lookup_lt_Some; exact Hcurrent).
  assert (Hpages :
            Router.internalPages
              (Router.replaceState
                 (Router.withRememberedState current (Some remembered)) false r)
            = <[Router.pageIndex r :=
                  Some (Router.withRememberedState current (Some remembered))]>
                (Router.internalPages r)
            /\ Router.pageIndex
                 (Router.replaceState
                    (Router.withRememberedState current (Some remembered))
                    false r)
               = Router.pageIndex r).
  { unfold Router.replaceState, Js.assign.
    apply Nat.ltb_lt in Hindexed. rewrite Hindexed.
    cbn [Router.window Router.setInternalPages].
    by destruct (Router.window_isSSR (Router.window r)). }
  destruct Hpages as [Hpages Hindex].
  split.
  { apply page_lookup. rewrite Hpages, Hindex.
    by apply list_lookup_insert_eq. }
  split.
  { subst remembered. rewrite get_set_eq. by destruct data. }
  split.
  { intros other Hother. subst remembered. rewrite get_set_ne by done.
    by destruct (page_rememberedState current). }
  split; [exact Hindex|].
  split.
  { intros i Hi. rewrite Hpages. by apply list_lookup_insert_ne. }
  intros Hbrowser. unfold Router.replaceState.
  cbn [Router.window Router.setInternalPages]. rewrite Hbrowser.
  cbn. by rewrite last_snoc.
Qed.

Lemma remember_stores_under_key_witness :
  exists r' remembered,
    Router.remember (VString "draft") "form" homeRouter = Returns r'
    /\ Router.page r'
       = Some (Router.withRememberedState
                 (mkPage (locationAt "http://localhost/home") [] [] (Some 0)
                    None None (Some []) (Some []) None)
                 (Some remembered))
    /\ Js.get "form" remembered = Some (VString "draft")
    /\ (forall other,
          other <> "form" ->
          Js.get other remembered = Some [] ≫= Js.get other)
    /\ Router.pageIndex r' = Router.pageIndex homeRouter
    /\ (forall i,
          i <> Router.pageIndex homeRouter ->
          Router.internalPages r' !! i = Router.internalPages homeRouter !! i)
    /\ (Router.window_isSSR (Router.window homeRouter) = false ->
        last (Router.trace r')
        = Some (Router.HistoryReplaceState
                  (Router.withRememberedState
                     (mkPage (locationAt "http://localhost/home") [] []
                        (Some 0) None None (Some []) (Some []) None)
                     (Some remembered))
                  (Some "http://localhost/home"))).
Proof.
  apply (remember_stores_under_key (VString "draft") "form" homeRouter
           (mkPage (locationAt "http://localhost/home") [] [] (Some 0) None
              None (Some []) (Some []) None)).
  by vm_compute.
Defined.

(** A [Blob] is remembered as an empty object. *)
Example remember_blob :
  (r ← routerOf (Router.remember (VBlob "binary") "upload" homeRouter);
   current ← Router.page r;
   state ← page_rememberedState current;
   Js.get "upload" state)
  = Some (VObject []).
Proof. reflexivity. Qed.

(** X26.  Scroll positions come back.  In a browser, after
    [saveScrollPositions] stored the positions of the scroll regions in
    the current page, and the regions (as many as before) were scrolled
    elsewhere, [restoreScrollPositions] puts every region back at its
    stored position, and changes nothing else of the router. *)
Theorem restoreScrollPositions_after_save (r saved : Router.State)
  (moved : list ScrollPosition) :
  Router.window_isSSR (Router.window r) = false ->
  Router.saveScrollPositions r = Returns saved ->
  length moved = length (Router.window_scrollRegions (Router.window r)) ->
  Router.restoreScrollPositions (scrolledTo moved saved)
  = Returns
      (scrolledTo (Router.window_scrollRegions (Router.window r)) saved).
Proof.
  intros Hbrowser Hsave Hlength. unfold Router.saveScrollPositions in Hsave.
  rewrite Hbrowser in Hsave.
  destruct (Router.page r) as [current|] eqn:Hcurrent; [|discriminate].
  injection Hsave as <-.
  apply page_lookup in Hcurrent.
  assert (Hindexed : Router.pageIndex r < length (Router.internalPages r))
    by (eapply lookup_lt_Some; exact Hcurrent).
  set (regions := Router.window_scrollRegions (Router.window r)) in *.
  set (saved := Router.replaceState _ false r).
  assert (Hsaved : Router.page (scrolledTo moved saved)
                   = Some (Router.withScrollRegions current (Some regions))).
  { apply page_lookup. subst saved. unfold scrolledTo, Router.replaceState.
    cbn [Router.window Router.setInternalPages]. rewrite Hbrowser.
    cbn. unfold Js.assign.
    replace (Router.pageIndex r <? length (Router.internalPages r))
      with true by (symmetry; by apply Nat.ltb_lt).
    by apply list_lookup_insert_eq. }
  unfold Router.restoreScrollPositions. rewrite Hsaved.
  cbn [page_scrollRegions Router.withScrollRegions].
  assert (Hssr : Router.window_isSSR (Router.window (scrolledTo moved saved))
                 = false).
  { subst saved. unfold scrolledTo, Router.replaceState.
    cbn [Router.window Router.setInternalPages]. by rewrite Hbrowser. }
  assert (Hbranch : forall (ssr : bool) (message : string) (a b : Router.State),
             ssr = false -> a = b ->
             (if ssr then Throws message else Returns a) = Returns b)
    by (by intros ? ? ? ? -> ->).
  apply Hbranch; [exact Hssr|]. clear Hbranch.
  assert (Hregions : imap (fun index region => default region (regions !! index))
                       moved = regions).
  { apply list_eq. intros i. rewrite list_lookup_imap.
    destruct (moved !! i) as [region|] eqn:Hmoved; cbn.
    - apply lookup_lt_Some in Hmoved. rewrite Hlength in Hmoved.
      destruct (lookup_lt_is_Some_2 regions i Hmoved) as [position Hposition].
      by rewrite Hposition.
    - apply lookup_ge_None in Hmoved. rewrite Hlength in Hmoved.
      symmetry. by apply lookup_ge_None. }
  unfold scrolledTo at 1 2 3 4.
  cbn [Router.window Router.setWindow Router.window_scrollRegions].
  rewrite Hregions. reflexivity.
Qed.

Lemma restoreScrollPositions_after_save_witness :
  Router.restoreScrollPositions
    (scrolledTo [mkScroll 0 0; mkScroll 7 7] scrollSaved)
  = Returns
      (scrolledTo (Router.window_scrollRegions (Router.window scrollingRouter))
         scrollSaved).
Proof.
  apply (restoreScrollPositions_after_save scrollingRouter scrollSaved
           [mkScroll 0 0; mkScroll 7 7]).
  - by vm_compute.
  - by vm_compute.
  - reflexivity.
Defined.

(** ** [reload] and [resolveRoutable] *)

(** X27.  [reload(options)] leaves the page stack at its length and the
    router at its index, whatever the options hold (their [replace] is
    overridden by [true]), unless the request ends with an error response
    that carries a page of the protocol. *)
Theorem reload_keeps_stack (opts : Router.VisitOptions)
  (env : Router.Environment) (r r' : Router.State) (ref : VisitRef) :
  indexed r ->
  (forall response,
      Router.env_result env = Router.RejectedWithResponse response ->
      Router.isNavigareResponse response = false) ->
  Router.reload opts env r = Returns (r', ref) ->
  length (Router.internalPages r') = length (Router.internalPages r)
  /\ Router.pageIndex r' = Router.pageIndex r.
Proof.
  intros Hindexed Herror. unfold Router.reload.
  destruct (Router.location r) as [current|]; [|discriminate].
  intros Hvisit.
  eapply held_visit_replace in Hvisit; [by apply Hvisit | reflexivity | done].
Qed.

Lemma reload_keeps_stack_witness :
  length (Router.internalPages (fst homeReloaded))
  = length (Router.internalPages homeRouter)
  /\ Router.pageIndex (fst homeReloaded) = Router.pageIndex homeRouter.
Proof.
  apply (reload_keeps_stack Router.noVisitOptions homeArrives homeRouter
           (fst homeReloaded) (snd homeReloaded)).
  - unfold indexed. vm_compute. lia.
  - intros response. by vm_compute.
  - by vm_compute.
Defined.

(** X28.  A GET request has no body.  When the method asked for is GET,
    the data are a record without files (or the router runs on the
    server) and [forceFormData] is not set, [resolveRoutable] returns the
    method GET and empty data, whenever it returns; and it returns when
    the current location is an absolute [http(s)] location with a plain
    host and the href of the routable is a plain path and query. *)
Theorem resolveRoutable_get_has_no_body (routable : Router.Routable)
  (source : Js.object Value) (opts : Router.ResolveOptions)
  (r : Router.State) :
  requestedMethod routable opts = GET ->
  Utilities.hasFiles (Router.window_isSSR (Router.window r)) (DataRecord source)
  = false ->
  default false (Router.resolve_forceFormData opts) = false ->
  (forall r' resolved,
      Router.resolveRoutable routable (DataRecord source) opts r
      = Returns (r', resolved) ->
      Router.resolved_method resolved = GET
      /\ Router.resolved_data resolved = DataRecord [])
  /\ (forall current,
        Router.location r = Some current ->
        plainAbsolute (loc_href current) = true ->
        plainReference (requestedHref routable current opts) = true ->
        exists r' resolved,
          Router.resolveRoutable routable (DataRecord source) opts r
          = Returns (r', resolved)).
Proof.
  intros Hmethod Hfiles Hforce.
  split.
  - intros r' resolved. unfold Router.resolveRoutable.
    destruct (Router.location r) as [current|]; [|discriminate].
    fold (requestedHref routable current opts).
    fold (requestedMethod routable opts). rewrite Hmethod, Hfiles, Hforce.
    destruct (Str.isEmpty (requestedHref routable current opts));
      [discriminate|].
    cbn [orb].
    destruct (Router.createLocation _ _) as [location| |];
      cbn [bindOutcome]; try discriminate.
    intros [= <- <-].
    cbn [Router.resolved_method Router.resolved_data].
    by destruct source.
  - intros current Hcurrent Hlocation Hhref.
    unfold Router.resolveRoutable. rewrite Hcurrent.
    fold (requestedHref routable current opts).
    fold (requestedMethod routable opts). rewrite Hmethod, Hfiles, Hforce.
    rewrite (plainReference_not_empty _ Hhref). cbn [orb].
    set (r1 := match routable with
               | Router.RoutableObject _ => Router.record Router.ConsoleWarn r
               | _ => r
               end).
    assert (Hcurrent1 : Router.location r1 = Some current)
      by (subst r1; by destruct routable).
    set (merged := Utilities.mergeDataIntoQueryString GET _ source _).
    destruct (createLocation_returns (Utilities.merged_href merged) r1 current
                Hcurrent1) as [location Hreturns].
    { rewrite (plainAbsolute_hasHost _ Hlocation). apply orb_true_r. }
    rewrite Hreturns. cbn [bindOutcome]. by eexists _, _.
Qed.

Lemma resolveRoutable_get_has_no_body_witness :
  exists r' resolved,
    Router.resolveRoutable (Router.RoutableString "/users?page=2")
      (DataRecord sorting) (Router.mkResolveOptions None None None) homeRouter
    = Returns (r', resolved)
    /\ Router.resolved_method resolved = GET
    /\ Router.resolved_data resolved = DataRecord [].
Proof.
  destruct (resolveRoutable_get_has_no_body
              (Router.RoutableString "/users?page=2") sorting
              (Router.mkResolveOptions None None None) homeRouter)
    as [Hresult Hreturns]; [reflexivity | reflexivity | reflexivity |].
  destruct (Hreturns (locationAt "http://localhost/home"))
    as (r' & resolved & Hcall); [by vm_compute | reflexivity | reflexivity |].
  exists r', resolved. split; [exact Hcall|]. by apply (Hresult r').
Defined.

(** ** The task queue *)

Section Queue.
Import Utilities.
Context {Task : Type}.

Lemma push_length (max : option Z) (task : Task) (queue : list Task) :
  length (push max task queue)
  = S (length queue `min` Z.to_nat (Z.max (default 1%Z max) 1)).
Proof.
  unfold push, spliceFront. rewrite length_app, length_drop. cbn [length]. lia.
Qed.

Lemma queueStep_sublist (max : option Z) (steps : list (QueueStep Task))
  (queue : list Task) :
  fold_left (queueStep max) steps queue `sublist_of` queue ++ pushedTasks steps.
Proof.
  revert queue. induction steps as [|step steps IH]; intros queue.
  - cbn. by rewrite app_nil_r.
  - cbn [fold_left]. etrans; [apply IH|].
    destruct step as [task|]; cbn.
    + unfold push, spliceFront. rewrite <- app_assoc. cbn.
      apply sublist_app; [apply sublist_drop | done].
    + apply sublist_app; [|done]. destruct queue; [done|].
      by apply sublist_cons.
Qed.

End Queue.

(** X29.  The queue of [createQueue({ max })] never holds more than
    [max + 1] tasks (two tasks without [max], or with a [max] below one):
    [push] makes room for [max] earlier tasks and then adds the new one.
    The tasks it holds are tasks that were pushed, in the order they
    were pushed, and the task pushed last is at the end of the queue. *)
Theorem createQueue_size_bound {Task : Type} (max : option Z)
  (steps : list (Utilities.QueueStep Task)) :
  Utilities.size max steps <= Z.to_nat (Z.max (default 1%Z max) 1) + 1
  /\ fold_left (Utilities.queueStep max) steps [] `sublist_of` pushedTasks steps
  /\ forall (task : Task) (earlier : list (Utilities.QueueStep Task)),
       last (fold_left (Utilities.queueStep max)
               (earlier ++ [Utilities.Pushes task]) [])
       = Some task.
Proof.
  split; [|split].
  - unfold Utilities.size.
    induction steps as [|step steps IH] using rev_ind; [cbn; lia|].
    rewrite fold_left_app. cbn [fold_left].
    destruct step as [task|]; cbn [Utilities.queueStep].
    + rewrite push_length. lia.
    + unfold Utilities.shift. cbn [snd].
      destruct (fold_left _ steps []); cbn in *; lia.
  - apply (queueStep_sublist max steps []).
  - intros task earlier. rewrite fold_left_app. cbn.
    unfold Utilities.push. by rewrite last_snoc.
Qed.
